(** * Farmer Harvest Game: the frame update and the game-state machine

    A shallow embedding of [farmer-game/Farmer.js] (geometry helpers and the
    entity classes Farmer, Crop, PowerUp, Scarecrow, Input) and of
    [farmer-game/Game.js] (the orchestrator: commands, spawning, [update]).

    Numbers.  Every JavaScript number of the program is modelled as an exact
    rational ([Q]); rounding of IEEE doubles is not modelled.  The only
    irrational operation of the simulation, [Math.sqrt] in the scythe test,
    occurs in the comparison [Math.sqrt(s) <= r] with [r >= 0], which is
    modelled by [s <= r * r].

    Effects.  Methods that mutate [this] become functions returning the new
    object.  [Math.random()] is a stream [nat -> Q] read through a cursor that
    the spawning code threads; [performance.now()] and the animation-frame
    timestamp are explicit arguments.  The DOM read-outs ([this.ui]) and the
    canvas are not modelled: they never feed back into the simulation.  Nor is
    the scheduling of frames by [requestAnimationFrame]: frames, commands and
    key events reach the game as the [Event]s of a run. *)

From Stdlib Require Import QArith Qround Qminmax Lqa ZArith Lia List String Bool.
Import ListNotations.
Open Scope Q_scope.

(** ** Numeric helpers *)

Definition Qltb (a b : Q) : bool := negb (Qle_bool b a).

(** [Math.floor], as a number again. *)
Definition floor (v : Q) : Q := inject_Z (Qfloor v).

(** The double nearest to pi, which is what [Math.PI] denotes. *)
Definition Math_PI : Q := 884279719003555 # 281474976710656.

(** Booleans coerced by the subtraction in [(R - L)]. *)
Definition num_of_bool (b : bool) : Q := if b then 1 else 0.

(** ** Farmer.js: geometry *)

Definition WIDTH : Q := 900.
Definition HEIGHT : Q := 540.

(** [const clamp = (v, lo, hi) => Math.min(hi, Math.max(lo, v))] *)
Definition clamp (v lo hi : Q) : Q := Qmin hi (Qmax lo v).

(** [class Entity]: the fields every game object starts with. *)
Record Entity : Type := mkEntity {
  x : Q;
  y : Q;
  w : Q;
  h : Q;
  dead : bool
}.

Definition new_Entity (x0 y0 w0 h0 : Q) : Entity := mkEntity x0 y0 w0 h0 false.

(** [const aabb = (a, b) => a.x < b.x + b.w && a.x + a.w > b.x && ...] *)
Definition aabb (a b : Entity) : bool :=
  Qltb (x a) (x b + w b) &&
  Qltb (x b) (x a + w a) &&
  Qltb (y a) (y b + h b) &&
  Qltb (y b) (y a + h a).

(** ** Crop.js part of Farmer.js: the passive entities *)

Record CropData : Type := mkCropData {
  cd_value : Q;
  cd_size : Q;
  stemColor : string;
  headColor : string
}.

Definition wheatData : CropData := mkCropData 1 8 "#2f7d32" "#d9a441".
Definition pumpkinData : CropData := mkCropData 3 12 "#4a7c59" "#ff6f00".
Definition goldenAppleData : CropData := mkCropData 5 10 "#2f7d32" "#ffd700".

(** [this.cropData[type] || this.cropData.wheat] *)
Definition cropData (type : string) : CropData :=
  if String.eqb type "wheat" then wheatData
  else if String.eqb type "pumpkin" then pumpkinData
  else if String.eqb type "goldenApple" then goldenAppleData
  else wheatData.

Record Crop : Type := mkCrop {
  c_ent :> Entity;
  c_type : string;
  sway : Q;
  c_data : CropData;
  value : Q
}.

(** [new Crop(x, y, type)]; [r] is the value [Math.random()] returns in the
    constructor. *)
Definition new_Crop (x0 y0 : Q) (type : string) (r : Q) : Crop :=
  let d := cropData type in
  mkCrop (new_Entity x0 y0 20 26) type (r * Math_PI * 2) d (cd_value d).

(** [Crop.update]: [this.sway += dt * 2] *)
Definition Crop_update (dt : Q) (c : Crop) : Crop :=
  mkCrop (c_ent c) (c_type c) (sway c + dt * 2) (c_data c) (value c).

(** The two shapes of [powerData] entries: only the speed entry has a
    [multiplier], only the scythe entry a [range]. *)
Record PowerData : Type := mkPowerData {
  pd_color : string;
  effect : string;
  multiplier : option Q;
  range : option Q
}.

Definition speedData : PowerData :=
  mkPowerData "#00bcd4" "Speed Boost" (Some (18 # 10)) None.
Definition scytheData : PowerData :=
  mkPowerData "#ff5722" "Scythe" None (Some 80).

(** [this.powerData[type] || this.powerData.speed] *)
Definition powerData (type : string) : PowerData :=
  if String.eqb type "speed" then speedData
  else if String.eqb type "scythe" then scytheData
  else speedData.

Record PowerUp : Type := mkPowerUp {
  p_ent :> Entity;
  p_type : string;
  duration : Q;
  pulse : Q;
  p_data : PowerData
}.

(** [new PowerUp(x, y, type)], the parameter defaulting to ["speed"] when the
    argument is [undefined]. *)
Definition new_PowerUp (x0 y0 : Q) (type : option string) : PowerUp :=
  let t := match type with Some t => t | None => "speed"%string end in
  mkPowerUp (new_Entity x0 y0 24 24) t 8 0 (powerData t).

(** [PowerUp.update]: [this.pulse += dt * 4] *)
Definition PowerUp_update (dt : Q) (p : PowerUp) : PowerUp :=
  mkPowerUp (p_ent p) (p_type p) (duration p) (pulse p + dt * 4) (p_data p).

Record Scarecrow : Type := mkScarecrow {
  s_ent :> Entity
}.

Definition new_Scarecrow (x0 y0 : Q) : Scarecrow :=
  mkScarecrow (new_Entity x0 y0 26 46).

Definition set_dead (e : Entity) : Entity := mkEntity (x e) (y e) (w e) (h e) true.

Definition Crop_kill (c : Crop) : Crop :=
  mkCrop (set_dead c) (c_type c) (sway c) (c_data c) (value c).

Definition PowerUp_kill (p : PowerUp) : PowerUp :=
  mkPowerUp (set_dead p) (p_type p) (duration p) (pulse p) (p_data p).

(** ** A JavaScript [Map] with string keys

    Entries are kept in insertion order; [set] on a present key replaces the
    value where it stands, so a key never occurs twice. *)

Module JsMap.

Definition t (V : Type) : Type := list (string * V).

Definition empty {V : Type} : t V := [].

Definition keys {V : Type} (m : t V) : list string := map fst m.

Fixpoint get {V : Type} (k : string) (m : t V) : option V :=
  match m with
  | [] => None
  | (k', v) :: rest => if String.eqb k k' then Some v else get k rest
  end.

Definition has {V : Type} (k : string) (m : t V) : bool :=
  match get k m with Some _ => true | None => false end.

Fixpoint set {V : Type} (k : string) (v : V) (m : t V) : t V :=
  match m with
  | [] => [(k, v)]
  | (k', v') :: rest =>
      if String.eqb k k' then (k', v) :: rest else (k', v') :: set k v rest
  end.


End JsMap.

(** ** Farmer.js: the player *)

(** The value stored per active power-up: [{ timeLeft, data }]. *)
Record ActivePowerUp : Type := mkActive {
  a_timeLeft : Q;
  a_data : PowerData
}.

Record Farmer : Type := mkFarmer {
  f_ent :> Entity;
  baseSpeed : Q;
  speed : Q;
  vx : Q;
  vy : Q;
  color : string;
  activePowerUps : JsMap.t ActivePowerUp;
  hasScythe : bool
}.

Definition new_Farmer (x0 y0 : Q) : Farmer :=
  mkFarmer (new_Entity x0 y0 34 34) 260 260 0 0 "#8b5a2b" JsMap.empty false.

(** [class Input]: the set of held keys. *)
Record Input : Type := mkInput {
  keys : list string
}.

Definition keys_has (k : string) (i : Input) : bool :=
  existsb (String.eqb k) (keys i).

Definition keys_add (k : string) (i : Input) : Input :=
  if keys_has k i then i else mkInput (keys i ++ [k]).

Definition keys_delete (k : string) (i : Input) : Input :=
  mkInput (filter (fun k' => negb (String.eqb k k')) (keys i)).

(** [Farmer.handleInput] *)
Definition handleInput (input : Input) (f : Farmer) : Farmer :=
  let L := keys_has "ArrowLeft" input in
  let R := keys_has "ArrowRight" input in
  let U := keys_has "ArrowUp" input in
  let D := keys_has "ArrowDown" input in
  mkFarmer (f_ent f) (baseSpeed f) (speed f)
    ((num_of_bool R - num_of_bool L) * speed f)
    ((num_of_bool D - num_of_bool U) * speed f)
    (color f) (activePowerUps f) (hasScythe f).

(** [powerUp.data.multiplier]; the product with an absent multiplier is not a
    number, which no entry built by [new_PowerUp] with type ["speed"] yields:
    the base speed stands in for it. *)
Definition boosted (base : Q) (d : PowerData) : Q :=
  match multiplier d with Some m => base * m | None => base end.

(** The [forEach] of [updatePowerUps]: entries are visited in order, each has
    its timer decreased, an expired entry is deleted, a live one applies its
    effect to [speed] / [hasScythe] (passed along as [sp] and [sc]). *)
Fixpoint tickPowerUps (dt base : Q) (m : JsMap.t ActivePowerUp) (sp : Q) (sc : bool)
  : JsMap.t ActivePowerUp * Q * bool :=
  match m with
  | [] => ([], sp, sc)
  | (type, powerUp) :: rest =>
      let powerUp' := mkActive (a_timeLeft powerUp - dt) (a_data powerUp) in
      if Qle_bool (a_timeLeft powerUp') 0 then
        tickPowerUps dt base rest sp sc
      else
        let sp' := if String.eqb type "speed" then boosted base (a_data powerUp')
                   else sp in
        let sc' := if String.eqb type "speed" then sc
                   else if String.eqb type "scythe" then true else sc in
        let '(rest', sp'', sc'') := tickPowerUps dt base rest sp' sc' in
        ((type, powerUp') :: rest', sp'', sc'')
  end.

(** [Farmer.updatePowerUps] *)
Definition updatePowerUps (dt : Q) (f : Farmer) : Farmer :=
  let '(m, sp, sc) := tickPowerUps dt (baseSpeed f) (activePowerUps f) (baseSpeed f) false in
  mkFarmer (f_ent f) (baseSpeed f) sp (vx f) (vy f) (color f) m sc.

(** [Farmer.addPowerUp] *)
Definition addPowerUp (powerUp : PowerUp) (f : Farmer) : Farmer :=
  mkFarmer (f_ent f) (baseSpeed f) (speed f) (vx f) (vy f) (color f)
    (JsMap.set (p_type powerUp) (mkActive (duration powerUp) (p_data powerUp))
       (activePowerUps f))
    (hasScythe f).

Definition Farmer_set_xy (x0 y0 : Q) (f : Farmer) : Farmer :=
  mkFarmer (mkEntity x0 y0 (w f) (h f) (dead f)) (baseSpeed f) (speed f)
    (vx f) (vy f) (color f) (activePowerUps f) (hasScythe f).

(** [game.obstacles.some(o => aabb(this, o))] *)
Definition hits (f : Farmer) (obstacles : list Scarecrow) : bool :=
  existsb (fun o : Scarecrow => aabb f o) obstacles.

(** [Farmer.update]: tick the power-ups, move, undo the move on a bump. *)
Definition Farmer_update (dt : Q) (obstacles : list Scarecrow) (f : Farmer) : Farmer :=
  let f1 := updatePowerUps dt f in
  let oldX := x f1 in
  let oldY := y f1 in
  let f2 := Farmer_set_xy (clamp (x f1 + vx f1 * dt) 0 (WIDTH - w f1)) (y f1) f1 in
  let f3 := Farmer_set_xy (x f2) (clamp (y f2 + vy f2 * dt) 0 (HEIGHT - h f2)) f2 in
  if hits f3 obstacles then Farmer_set_xy oldX oldY f3 else f3.

(** ** Game.js: the orchestrator *)

Definition TILE : Q := 30.
Definition GAME_LEN : Q := 60.
Definition GOAL : Q := 15.

Inductive State : Type := MENU | PLAYING | PAUSED | GAME_OVER | WIN.

Definition State_eqb (a b : State) : bool :=
  match a, b with
  | MENU, MENU | PLAYING, PLAYING | PAUSED, PAUSED
  | GAME_OVER, GAME_OVER | WIN, WIN => true
  | _, _ => false
  end.

(** A floating [+points] label. *)
Record PointText : Type := mkPointText {
  pt_x : Q;
  pt_y : Q;
  points : Q;
  life : Q;
  pt_color : string
}.

Record Game : Type := mkGame {
  state : State;
  player : Farmer;
  crops : list Crop;
  powerUps : list PowerUp;
  obstacles : list Scarecrow;
  pointTexts : list PointText;
  lastTime : Q;
  timeLeft : Q;
  spawnEvery : Q;
  powerUpSpawnEvery : Q;
  accumSpawn : Q;
  accumPowerUpSpawn : Q;
  score : Q;
  goal : Q;
  input : Input
}.

(** The fields the constructor assigns. *)
Definition new_Game : Game :=
  mkGame MENU (new_Farmer (WIDTH / 2 - 17) (HEIGHT - 80)) [] [] [] []
    0 GAME_LEN (8 # 10) 12 0 0 0 GOAL (mkInput []).

(** Field assignments. *)
Definition set_state (s : State) (g : Game) : Game :=
  mkGame s (player g) (crops g) (powerUps g) (obstacles g) (pointTexts g)
    (lastTime g) (timeLeft g) (spawnEvery g) (powerUpSpawnEvery g)
    (accumSpawn g) (accumPowerUpSpawn g) (score g) (goal g) (input g).

Definition set_player (p : Farmer) (g : Game) : Game :=
  mkGame (state g) p (crops g) (powerUps g) (obstacles g) (pointTexts g)
    (lastTime g) (timeLeft g) (spawnEvery g) (powerUpSpawnEvery g)
    (accumSpawn g) (accumPowerUpSpawn g) (score g) (goal g) (input g).

Definition set_crops (cs : list Crop) (g : Game) : Game :=
  mkGame (state g) (player g) cs (powerUps g) (obstacles g) (pointTexts g)
    (lastTime g) (timeLeft g) (spawnEvery g) (powerUpSpawnEvery g)
    (accumSpawn g) (accumPowerUpSpawn g) (score g) (goal g) (input g).

Definition set_powerUps (ps : list PowerUp) (g : Game) : Game :=
  mkGame (state g) (player g) (crops g) ps (obstacles g) (pointTexts g)
    (lastTime g) (timeLeft g) (spawnEvery g) (powerUpSpawnEvery g)
    (accumSpawn g) (accumPowerUpSpawn g) (score g) (goal g) (input g).

Definition set_pointTexts (pts : list PointText) (g : Game) : Game :=
  mkGame (state g) (player g) (crops g) (powerUps g) (obstacles g) pts
    (lastTime g) (timeLeft g) (spawnEvery g) (powerUpSpawnEvery g)
    (accumSpawn g) (accumPowerUpSpawn g) (score g) (goal g) (input g).

Definition set_lastTime (t : Q) (g : Game) : Game :=
  mkGame (state g) (player g) (crops g) (powerUps g) (obstacles g) (pointTexts g)
    t (timeLeft g) (spawnEvery g) (powerUpSpawnEvery g)
    (accumSpawn g) (accumPowerUpSpawn g) (score g) (goal g) (input g).

Definition set_timeLeft (t : Q) (g : Game) : Game :=
  mkGame (state g) (player g) (crops g) (powerUps g) (obstacles g) (pointTexts g)
    (lastTime g) t (spawnEvery g) (powerUpSpawnEvery g)
    (accumSpawn g) (accumPowerUpSpawn g) (score g) (goal g) (input g).

Definition set_accumSpawn (a : Q) (g : Game) : Game :=
  mkGame (state g) (player g) (crops g) (powerUps g) (obstacles g) (pointTexts g)
    (lastTime g) (timeLeft g) (spawnEvery g) (powerUpSpawnEvery g)
    a (accumPowerUpSpawn g) (score g) (goal g) (input g).

Definition set_accumPowerUpSpawn (a : Q) (g : Game) : Game :=
  mkGame (state g) (player g) (crops g) (powerUps g) (obstacles g) (pointTexts g)
    (lastTime g) (timeLeft g) (spawnEvery g) (powerUpSpawnEvery g)
    (accumSpawn g) a (score g) (goal g) (input g).

Definition set_score (s : Q) (g : Game) : Game :=
  mkGame (state g) (player g) (crops g) (powerUps g) (obstacles g) (pointTexts g)
    (lastTime g) (timeLeft g) (spawnEvery g) (powerUpSpawnEvery g)
    (accumSpawn g) (accumPowerUpSpawn g) s (goal g) (input g).

Definition set_input (i : Input) (g : Game) : Game :=
  mkGame (state g) (player g) (crops g) (powerUps g) (obstacles g) (pointTexts g)
    (lastTime g) (timeLeft g) (spawnEvery g) (powerUpSpawnEvery g)
    (accumSpawn g) (accumPowerUpSpawn g) (score g) (goal g) i.

(** [Game.reset]; [now] is what [performance.now()] returns. *)
Definition reset (now : Q) (g : Game) : Game :=
  mkGame MENU (new_Farmer (WIDTH / 2 - 17) (HEIGHT - 80))
    [] [] [new_Scarecrow 200 220; new_Scarecrow 650 160] []
    now GAME_LEN (spawnEvery g) (powerUpSpawnEvery g) 0 0 0 (goal g) (input g).

(** [Game.start] *)
Definition start (now : Q) (g : Game) : Game :=
  match state g with
  | MENU | GAME_OVER | WIN => set_state PLAYING (reset now g)
  | PAUSED => set_state PLAYING g
  | PLAYING => g
  end.

(** [Game.togglePause] *)
Definition togglePause (g : Game) : Game :=
  match state g with
  | PLAYING => set_state PAUSED g
  | PAUSED => set_state PLAYING g
  | _ => g
  end.

(** [Input.onKeyDown] and [Input.onKeyUp], acting on the game that owns the
    input. *)
Definition onKeyDown (key : string) (g : Game) : Game :=
  let g1 := if (String.eqb key "p" || String.eqb key "P")%bool
            then togglePause g else g in
  set_input (keys_add key (input g1)) g1.

Definition onKeyUp (key : string) (g : Game) : Game :=
  set_input (keys_delete key (input g)) g.

(** *** Spawning

    [rnd] is the sequence of values [Math.random()] returns and [n] the number
    of values already consumed. *)

Definition spawn_coord (r extent : Q) : Q :=
  floor (r * ((extent - 2 * TILE) / TILE)) * TILE + TILE.

(** [Game.spawnCrop]: four draws (column, row, rarity, and the sway drawn by
    the [Crop] constructor). *)
Definition spawnCrop (rnd : nat -> Q) (n : nat) (g : Game) : Game * nat :=
  let gx := spawn_coord (rnd n) WIDTH in
  let gy := spawn_coord (rnd (n + 1)%nat) HEIGHT in
  let rand := rnd (n + 2)%nat in
  let cropType := if Qltb rand (7 # 10) then "wheat"%string
                  else if Qltb rand (9 # 10) then "pumpkin"%string
                  else "goldenApple"%string in
  (set_crops (crops g ++ [new_Crop gx gy cropType (rnd (n + 3)%nat)]) g,
   (n + 4)%nat).

Definition power_types : list string := ["speed"; "scythe"]%string.

(** [types[i]] for a number [i]: [undefined] unless [i] is an index. *)
Definition array_at {A : Type} (l : list A) (i : Q) : option A :=
  if Qeq_bool i (floor i) && Qle_bool 0 i
  then nth_error l (Z.to_nat (Qfloor i)) else None.

(** [Game.spawnPowerUp]: three draws. *)
Definition spawnPowerUp (rnd : nat -> Q) (n : nat) (g : Game) : Game * nat :=
  let gx := spawn_coord (rnd n) WIDTH in
  let gy := spawn_coord (rnd (n + 1)%nat) HEIGHT in
  let type := array_at power_types
                (floor (rnd (n + 2)%nat * inject_Z (Z.of_nat (List.length power_types)))) in
  (set_powerUps (powerUps g ++ [new_PowerUp gx gy type]) g, (n + 3)%nat).

(** Iterations the two [while] loops of [update] can need: the accumulator
    loses [every] per iteration and the loop stops below [every]. *)
Definition loop_fuel (acc every : Q) : nat := S (Z.to_nat (Qfloor (acc / every))).

(** [while (this._accumSpawn >= this.spawnEvery) { ... }] *)
Fixpoint crop_spawn_loop (fuel : nat) (rnd : nat -> Q) (n : nat) (g : Game)
  : Game * nat :=
  match fuel with
  | O => (g, n)
  | S fuel' =>
      if Qle_bool (spawnEvery g) (accumSpawn g) then
        let g1 := set_accumSpawn (accumSpawn g - spawnEvery g) g in
        let '(g2, n2) := spawnCrop rnd n g1 in
        crop_spawn_loop fuel' rnd n2 g2
      else (g, n)
  end.

(** [while (this._accumPowerUpSpawn >= this.powerUpSpawnEvery) { ... }] *)
Fixpoint powerUp_spawn_loop (fuel : nat) (rnd : nat -> Q) (n : nat) (g : Game)
  : Game * nat :=
  match fuel with
  | O => (g, n)
  | S fuel' =>
      if Qle_bool (powerUpSpawnEvery g) (accumPowerUpSpawn g) then
        let g1 := set_accumPowerUpSpawn (accumPowerUpSpawn g - powerUpSpawnEvery g) g in
        let '(g2, n2) := spawnPowerUp rnd n g1 in
        powerUp_spawn_loop fuel' rnd n2 g2
      else (g, n)
  end.

(** The spawning block of [update]. *)
Definition spawn_phase (rnd : nat -> Q) (dt : Q) (g : Game) : Game :=
  let g1 := set_accumSpawn (accumSpawn g + dt) g in
  let '(g2, n) :=
    crop_spawn_loop (loop_fuel (accumSpawn g1) (spawnEvery g1)) rnd 0%nat g1 in
  let g3 := set_accumPowerUpSpawn (accumPowerUpSpawn g2 + dt) g2 in
  fst (powerUp_spawn_loop
         (loop_fuel (accumPowerUpSpawn g3) (powerUpSpawnEvery g3)) rnd n g3).

(** *** Collection *)

Definition scytheRange : Q := 80.

(** The scythe filter: the distance between the two centres is at most
    [scytheRange] ([Math.sqrt(dx * dx + dy * dy) <= scytheRange]). *)
Definition in_scythe_range (p : Farmer) (c : Crop) : bool :=
  let dx := (x p + w p / 2) - (x c + w c / 2) in
  let dy := (y p + h p / 2) - (y c + h c / 2) in
  Qle_bool (dx * dx + dy * dy) (scytheRange * scytheRange).

(** The predicate of whichever [filter] computes [collectedCrops]. *)
Definition collects (p : Farmer) (c : Crop) : bool :=
  if hasScythe p then in_scythe_range p c else aabb p c.

Definition pointText_of (c : Crop) : PointText :=
  mkPointText (x c + w c / 2) (y c) (value c) 1 (headColor (c_data c)).

(** [collectedCrops.reduce((sum, c) => sum + c.value, 0)] *)
Definition sum_values (cs : list Crop) : Q :=
  fold_left (fun sum c => sum + value c) cs 0.

(** The crop-collection block.  The collected crops are objects of
    [this.crops], so marking them dead marks them in that array. *)
Definition collect_crops (g : Game) : Game :=
  let collectedCrops := filter (collects (player g)) (crops g) in
  match collectedCrops with
  | [] => g
  | _ :: _ =>
      let g1 := set_crops
                  (map (fun c => if collects (player g) c then Crop_kill c else c)
                     (crops g)) g in
      let g2 := set_pointTexts (pointTexts g1 ++ map pointText_of collectedCrops) g1 in
      let g3 := set_score (score g2 + sum_values collectedCrops) g2 in
      if Qle_bool (goal g3) (score g3) then set_state WIN g3 else g3
  end.

(** The power-up block: each collected power-up is marked dead and handed to
    [addPowerUp], in array order. *)
Definition collect_powerUps (g : Game) : Game :=
  let collectedPowerUps := filter (fun p : PowerUp => aabb (player g) p) (powerUps g) in
  let g1 := set_powerUps
              (map (fun p : PowerUp => if aabb (player g) p then PowerUp_kill p else p)
                 (powerUps g)) g in
  set_player
    (fold_left (fun f p => addPowerUp (PowerUp_kill p) f) collectedPowerUps (player g1))
    g1.

(** Removal of the dead entities and the cosmetic updates of the others. *)
Definition cleanup (dt : Q) (g : Game) : Game :=
  let g1 := set_crops (filter (fun c : Crop => negb (dead c)) (crops g)) g in
  let g2 := set_powerUps (filter (fun p : PowerUp => negb (dead p)) (powerUps g1)) g1 in
  let g3 := set_crops (map (Crop_update dt) (crops g2)) g2 in
  set_powerUps (map (PowerUp_update dt) (powerUps g3)) g3.

Definition age (dt : Q) (pt : PointText) : PointText :=
  mkPointText (pt_x pt) (pt_y pt - dt * 30) (points pt) (life pt - dt * 2) (pt_color pt).

Definition age_pointTexts (dt : Q) (g : Game) : Game :=
  set_pointTexts (filter (fun pt => Qltb 0 (life pt)) (map (age dt) (pointTexts g))) g.

(** The input and movement block. *)
Definition move_player (dt : Q) (g : Game) : Game :=
  set_player (Farmer_update dt (obstacles g) (handleInput (input g) (player g))) g.

(** [Game.update] *)
Definition update (rnd : nat -> Q) (dt : Q) (g : Game) : Game :=
  match state g with
  | PLAYING =>
      let g1 := set_timeLeft (clamp (timeLeft g - dt) 0 GAME_LEN) g in
      if Qle_bool (timeLeft g1) 0 then
        set_state (if Qle_bool (goal g1) (score g1) then WIN else GAME_OVER) g1
      else
        age_pointTexts dt
          (cleanup dt
             (collect_powerUps
                (collect_crops
                   (spawn_phase rnd dt
                      (move_player dt g1)))))
  | _ => g
  end.

(** The body of [this.tick] up to rendering: the elapsed time is capped. *)
Definition tick (rnd : nat -> Q) (ts : Q) (g : Game) : Game :=
  let dt := Qmin ((ts - lastTime g) / 1000) (33 # 1000) in
  update rnd dt (set_lastTime ts g).

(** *** Runs of the game

    Everything that can happen to a game once it is constructed. *)
Inductive Event : Type :=
| EStart (now : Q)
| EReset (now : Q)
| ETogglePause
| EKeyDown (key : string)
| EKeyUp (key : string)
| EUpdate (rnd : nat -> Q) (dt : Q)
| ETick (rnd : nat -> Q) (ts : Q).

Definition step (e : Event) (g : Game) : Game :=
  match e with
  | EStart now => start now g
  | EReset now => reset now g
  | ETogglePause => togglePause g
  | EKeyDown key => onKeyDown key g
  | EKeyUp key => onKeyUp key g
  | EUpdate rnd dt => update rnd dt g
  | ETick rnd ts => tick rnd ts g
  end.

Definition run (es : list Event) (g : Game) : Game :=
  fold_left (fun g e => step e g) es g.

Inductive reachable : Game -> Prop :=
| reach_new : reachable new_Game
| reach_step : forall e g, reachable g -> reachable (step e g).

(** ** The command table of the specification

    The commands of the external interface, and the transitions section 4.1
    of the specification lists for them (a definition that follows the
    specification's words, to be compared with [start], [reset] and
    [togglePause]). *)

Inductive Command : Type := CmdStart | CmdReset | CmdPause.

Definition exec (c : Command) (now : Q) (g : Game) : Game :=
  match c with
  | CmdStart => start now g
  | CmdReset => reset now g
  | CmdPause => togglePause g
  end.

Definition spec_transition (s : State) (c : Command) : option State :=
  match s, c with
  | MENU, CmdStart => Some PLAYING
  | PLAYING, CmdPause => Some PAUSED
  | PAUSED, CmdPause => Some PLAYING
  | PAUSED, CmdStart => Some PLAYING
  | GAME_OVER, CmdReset => Some MENU
  | WIN, CmdReset => Some MENU
  | _, _ => None
  end.

(** The round [reset] installs, whatever the game was. *)
Definition fresh_round (g : Game) : Prop :=
  score g = 0 /\ timeLeft g = GAME_LEN /\
  crops g = [] /\ powerUps g = [] /\ pointTexts g = [] /\
  player g = new_Farmer (WIDTH / 2 - 17) (HEIGHT - 80) /\
  x (player g) == 433 /\ y (player g) == 460 /\
  obstacles g = [new_Scarecrow 200 220; new_Scarecrow 650 160] /\
  accumSpawn g = 0 /\ accumPowerUpSpawn g = 0.

(** ** Vocabulary of the properties *)

(** The fields of a game that only the timer, movement, collection and
    command code write: the spawning loops leave them alone. *)
Definition same_core (g g' : Game) : Prop :=
  state g' = state g /\ player g' = player g /\ obstacles g' = obstacles g /\
  pointTexts g' = pointTexts g /\ lastTime g' = lastTime g /\
  timeLeft g' = timeLeft g /\ spawnEvery g' = spawnEvery g /\
  powerUpSpawnEvery g' = powerUpSpawnEvery g /\ score g' = score g /\
  goal g' = goal g /\ input g' = input g.

(** The frame of a game in PLAYING whose timer has not run out, block by
    block. *)
Definition playing_frame (rnd : nat -> Q) (dt : Q) (g : Game) : Game :=
  age_pointTexts dt
    (cleanup dt
       (collect_powerUps
          (collect_crops
             (spawn_phase rnd dt
                (move_player dt
                   (set_timeLeft (clamp (timeLeft g - dt) 0 GAME_LEN) g)))))).

(** The position [Farmer.update] proposes. *)
Definition proposed_x (dt : Q) (f : Farmer) : Q := clamp (x f + vx f * dt) 0 (WIDTH - w f).
Definition proposed_y (dt : Q) (f : Farmer) : Q := clamp (y f + vy f * dt) 0 (HEIGHT - h f).

(** A frame of a started game in which the farmer, walking right from just
    left of the first scarecrow, is sent back to where it stood. *)
Definition beside_scarecrow : Game :=
  set_input (mkInput ["ArrowRight"%string])
    (set_player (Farmer_set_xy 165 220 (new_Farmer 0 0)) (start 0 new_Game)).

(** The direction the held arrow keys give on one axis. *)
Definition axis (pos neg : string) (i : Input) : Q :=
  num_of_bool (keys_has pos i) - num_of_bool (keys_has neg i).

(** A speed boost with 0.01 s left, the right arrow held, a 0.033 s frame:
    the boost expires in this frame, which already leaves the base speed
    behind, yet the farmer is displaced by the boosted speed. *)
Definition boost_expiring : Game :=
  set_input (mkInput ["ArrowRight"%string])
    (set_player
       (mkFarmer (new_Entity 100 460 34 34) 260 (260 * (18 # 10)) 0 0 "#8b5a2b"
          [("speed"%string, mkActive (1 # 100) speedData)] false)
       (start 0 new_Game)).

(** A coordinate on the grid, one tile in from the border: [TILE * k + TILE]
    for an integer [0 <= k < cells]. *)
Definition on_grid (cells : Z) (v : Q) : Prop :=
  exists k : Z, (0 <= k < cells)%Z /\ v == inject_Z k * TILE + TILE.

(** The placement C10 describes. *)
Definition well_placed (e : Entity) : Prop :=
  on_grid 28 (x e) /\ on_grid 16 (y e) /\
  TILE <= x e /\ x e < WIDTH - TILE /\ TILE <= y e /\ y e < HEIGHT - TILE.

(** What [updatePowerUps] keeps of the mapping: the entries with time left
    after the tick, in their order, with the time decreased. *)
Definition ticked (dt : Q) (m : JsMap.t ActivePowerUp) : JsMap.t ActivePowerUp :=
  filter (fun e => negb (Qle_bool (a_timeLeft (snd e)) 0))
    (map (fun e => (fst e, mkActive (a_timeLeft (snd e) - dt) (a_data (snd e)))) m).

(** An entry of kind [k] that outlives a tick of [dt]. *)
Definition live_after (dt : Q) (k : string) (m : JsMap.t ActivePowerUp) : Prop :=
  exists a, In (k, a) m /\ dt < a_timeLeft a.

(** ** Invariants *)

(** A mapping entry as [addPowerUp] writes it for a spawned power-up, with
    time left. *)
Definition entry_ok (e : string * ActivePowerUp) : Prop :=
  0 < a_timeLeft (snd e) /\ a_data (snd e) = powerData (fst e).

Definition entry_data_ok (e : string * ActivePowerUp) : Prop :=
  a_data (snd e) = powerData (fst e).

Definition Farmer_ok (f : Farmer) : Prop :=
  NoDup (JsMap.keys (activePowerUps f)) /\
  Forall entry_ok (activePowerUps f) /\
  (hasScythe f = true -> live_after 0 "scythe" (activePowerUps f)) /\
  (speed f = baseSpeed f \/
   (live_after 0 "speed" (activePowerUps f) /\ speed f = baseSpeed f * (18 # 10))).

(** A power-up as the game spawns it. *)
Definition powerUp_data_ok (p : PowerUp) : Prop :=
  duration p = 8 /\ p_data p = powerData (p_type p).

(** Every crop satisfies [PC] and every power-up [PP]. *)
Definition entities_ok (PC : Crop -> Prop) (PP : PowerUp -> Prop) (g : Game) : Prop :=
  Forall PC (crops g) /\ Forall PP (powerUps g).

(** Marking the collected crops dead, as [collect_crops] leaves the array. *)
Definition mark_crops (p : Farmer) (cs : list Crop) : list Crop :=
  map (fun c => if collects p c then Crop_kill c else c) cs.

(** The player, crops and score of a full frame, from the game as movement
    and spawning left it ([mid]). *)
Definition after_spawn (rnd : nat -> Q) (dt : Q) (g : Game) : Game :=
  spawn_phase rnd dt (move_player dt (set_timeLeft (clamp (timeLeft g - dt) 0 GAME_LEN) g)).

Definition crop_ok (c : Crop) : Prop :=
  dead c = false /\ value c = cd_value (cropData (c_type c)) /\
  c_data c = cropData (c_type c).

Definition powerUp_ok (p : PowerUp) : Prop :=
  dead p = false /\ powerUp_data_ok p.

Definition Game_ok (g : Game) : Prop :=
  Farmer_ok (player g) /\
  Forall crop_ok (crops g) /\ Forall powerUp_ok (powerUps g) /\
  spawnEvery g = 8 # 10 /\ powerUpSpawnEvery g = 12 /\ goal g = GOAL /\
  0 <= timeLeft g /\ timeLeft g <= GAME_LEN /\ 0 <= score g /\
  (state g = PLAYING \/ state g = PAUSED -> score g < goal g /\ 0 < timeLeft g).

(** ** Games and random sources the theorems are instantiated at *)

(** A game one frame into a round, used to instantiate the theorems about
    reachable games. *)
Definition first_frame : Game := update (fun _ => 1 # 2) (33 # 1000) (start 0 new_Game).

(** A random source that places every crop on the farmer's starting tile
    and makes it a golden apple. *)
Definition golden_here (n : nat) : Q :=
  match Nat.modulo n 4 with
  | 0%nat => 1 # 2
  | 1%nat => 9 # 10
  | 2%nat => 95 # 100
  | _ => 0
  end.


(** A random source for a long first frame: fifteen wheat crops to the left
    of the farmer, out of its box but within scythe range, then a scythe
    power-up on the farmer's tile. *)
Definition scythe_round (n : nat) : Q :=
  if Nat.ltb n 60 then
    match Nat.modulo n 4 with
    | 0%nat => 45 # 100
    | 1%nat => 9 # 10
    | _ => 0
    end
  else
    match (n - 60)%nat with
    | 1%nat => 9 # 10
    | _ => 1 # 2
    end.

Definition scythe_picked_up : Game := update scythe_round 12 (start 0 new_Game).

(** A sequence of frame updates, each with its random source and elapsed
    time. *)
Definition run_frames (frames : list ((nat -> Q) * Q)) (g : Game) : Game :=
  fold_left (fun g f => update (fst f) (snd f) g) frames g.

(** ** Vocabulary of the further properties *)

(** The two scarecrows [reset] places. *)
Definition scarecrows : list Scarecrow :=
  [new_Scarecrow 200 220; new_Scarecrow 650 160].

(** The player's box lies in the playfield. *)
Definition in_field (f : Farmer) : Prop :=
  0 <= x f /\ x f <= WIDTH - w f /\ 0 <= y f /\ y f <= HEIGHT - h f.

(** A round nobody has played in yet. *)
Definition pristine (g : Game) : Prop :=
  score g = 0 /\ timeLeft g = GAME_LEN /\
  crops g = [] /\ powerUps g = [] /\ pointTexts g = [] /\
  player g = new_Farmer (WIDTH / 2 - 17) (HEIGHT - 80) /\
  accumSpawn g = 0 /\ accumPowerUpSpawn g = 0.

(** What every game of a run satisfies besides [Game_ok]: the shape and
    place of the player, the obstacles, the key set, the accumulators, the
    floating texts, and what each state says about score and timer. *)
Definition Round_ok (g : Game) : Prop :=
  (baseSpeed (player g) = 260 /\ w (player g) = 34 /\ h (player g) = 34) /\
  in_field (player g) /\
  hits (player g) (obstacles g) = false /\
  (obstacles g = scarecrows \/ (obstacles g = [] /\ state g = MENU)) /\
  NoDup (keys (input g)) /\
  (accumSpawn g < spawnEvery g /\ accumPowerUpSpawn g < powerUpSpawnEvery g) /\
  Forall (fun pt => 0 < life pt) (pointTexts g) /\
  (state g = GAME_OVER -> timeLeft g == 0 /\ score g < goal g) /\
  (state g = WIN -> goal g <= score g) /\
  (state g = MENU -> pristine g).

(** The elapsed time [tick] hands to [update]. *)
Definition tick_dt (ts : Q) (g : Game) : Q :=
  Qmin ((ts - lastTime g) / 1000) (33 # 1000).

(** Events that are not key presses or releases. *)
Definition not_key (e : Event) : bool :=
  match e with
  | EKeyDown _ | EKeyUp _ => false
  | _ => true
  end.


(** A crop or power-up box that lies wholly on the canvas. *)
Definition on_canvas (e : Entity) : Prop :=
  0 <= x e /\ x e + w e <= WIDTH /\ 0 <= y e /\ y e + h e <= HEIGHT.

(** A random source as [Math.random] is: every value in [0, 1). *)
Definition unit_range (rnd : nat -> Q) : Prop :=
  forall i, 0 <= rnd i /\ rnd i < 1.

(** A crop or a power-up where and as the game spawns it. *)
Definition crop_placed (c : Crop) : Prop :=
  well_placed c /\ w c = 20 /\ h c = 26.

Definition powerUp_placed (p : PowerUp) : Prop :=
  well_placed p /\ w p = 24 /\ h p = 24.

Definition placed_inv (g : Game) : Prop :=
  Forall crop_placed (crops g) /\ Forall powerUp_placed (powerUps g).

(** The frames of a run draw their random values from [0, 1). *)
Definition unit_event (e : Event) : Prop :=
  match e with
  | EUpdate rnd _ | ETick rnd _ => unit_range rnd
  | _ => True
  end.

(** ** Game.js: the read-outs

    The text the game writes into the page, for a page that has every
    read-out element.  The read-outs are written and never read, so they
    are kept beside the game: each operation gets the game it starts from
    and the read-outs as they are, and returns the read-outs as it leaves
    them. *)

From Stdlib Require Import DecimalString.

(** The text of a whole number, as [String(n)] and a template literal give
    it and as assigning a number to [textContent] shows it (below 10^21 in
    size; a negative zero shows as 0). *)
Definition number_text (z : Z) : string := NilZero.string_of_int (Z.to_int z).

(** [String(this.score)] and [String(this.goal)]: both are whole numbers. *)
Definition whole_text (q : Q) : string := number_text (Qfloor q).

(** [Math.ceil(t)], shown. *)
Definition ceil_text (t : Q) : string := number_text (Qceiling t).

Record UI : Type := mkUI {
  ui_score : string;
  ui_time : string;
  ui_goal : string;
  ui_status : string;
  ui_powerUpStatus : string;
  ui_powerUpClass : string
}.

Definition set_ui_status (s : string) (u : UI) : UI :=
  mkUI (ui_score u) (ui_time u) (ui_goal u) s (ui_powerUpStatus u) (ui_powerUpClass u).

Definition set_ui_score (s : string) (u : UI) : UI :=
  mkUI s (ui_time u) (ui_goal u) (ui_status u) (ui_powerUpStatus u) (ui_powerUpClass u).

Definition set_ui_time (s : string) (u : UI) : UI :=
  mkUI (ui_score u) s (ui_goal u) (ui_status u) (ui_powerUpStatus u) (ui_powerUpClass u).

Definition set_ui_goal (s : string) (u : UI) : UI :=
  mkUI (ui_score u) (ui_time u) s (ui_status u) (ui_powerUpStatus u) (ui_powerUpClass u).

(** One entry of the power-up read-out: [`${powerUp.data.effect}: ${timeLeft}s`]. *)
Definition powerUp_segment (e : string * ActivePowerUp) : string :=
  (effect (a_data (snd e)) ++ ": " ++ ceil_text (a_timeLeft (snd e)) ++ "s")%string.

(** [Game.updatePowerUpUI] *)
Definition updatePowerUpUI (g : Game) (u : UI) : UI :=
  match activePowerUps (player g) with
  | [] =>
      mkUI (ui_score u) (ui_time u) (ui_goal u) (ui_status u) "" "power-up-status"
  | m =>
      mkUI (ui_score u) (ui_time u) (ui_goal u) (ui_status u)
        (String.concat " | " (map powerUp_segment m)) "power-up-status active"
  end.

(** [Game.syncUI] *)
Definition syncUI (g : Game) (u : UI) : UI :=
  updatePowerUpUI g
    (set_ui_goal (whole_text (goal g))
       (set_ui_time (ceil_text (timeLeft g))
          (set_ui_score (whole_text (score g)) u))).

(** The read-outs once the constructor has run over a page showing [html]. *)
Definition new_UI (html : UI) : UI := set_ui_goal (whole_text GOAL) html.

(** What [Game.reset] writes. *)
Definition reset_ui (now : Q) (g : Game) (u : UI) : UI :=
  set_ui_status "Menu" (syncUI (reset now g) u).

(** What [Game.start] writes. *)
Definition start_ui (now : Q) (g : Game) (u : UI) : UI :=
  match state g with
  | MENU | GAME_OVER | WIN => set_ui_status "Playing…" (reset_ui now g u)
  | PAUSED => set_ui_status "Playing…" u
  | PLAYING => u
  end.

(** What [Game.togglePause] writes. *)
Definition togglePause_ui (g : Game) (u : UI) : UI :=
  match state g with
  | PLAYING => set_ui_status "Paused" u
  | PAUSED => set_ui_status "Playing…" u
  | _ => u
  end.

(** What the crop-collection block of [update] writes, [g] being the game
    as that block finds it. *)
Definition collect_crops_ui (g : Game) (u : UI) : UI :=
  match filter (collects (player g)) (crops g) with
  | [] => u
  | _ :: _ =>
      let g' := collect_crops g in
      let u1 := set_ui_score (whole_text (score g')) u in
      if Qle_bool (goal g') (score g') then set_ui_status "You Win!" u1 else u1
  end.

(** What [Game.update] writes. *)
Definition update_ui (rnd : nat -> Q) (dt : Q) (g : Game) (u : UI) : UI :=
  match state g with
  | PLAYING =>
      let g1 := set_timeLeft (clamp (timeLeft g - dt) 0 GAME_LEN) g in
      if Qle_bool (timeLeft g1) 0 then
        let g2 := set_state (if Qle_bool (goal g1) (score g1) then WIN else GAME_OVER) g1 in
        syncUI g2
          (set_ui_status (if State_eqb (state g2) WIN then "You Win!" else "Game Over") u)
      else
        let u1 := collect_crops_ui (after_spawn rnd dt g) u in
        let g' := update rnd dt g in
        updatePowerUpUI g' (set_ui_time (ceil_text (timeLeft g')) u1)
  | _ => u
  end.

(** What each event writes. *)
Definition step_ui (e : Event) (g : Game) (u : UI) : UI :=
  match e with
  | EStart now => start_ui now g u
  | EReset now => reset_ui now g u
  | ETogglePause => togglePause_ui g u
  | EKeyDown key =>
      if (String.eqb key "p" || String.eqb key "P")%bool then togglePause_ui g u else u
  | EKeyUp _ => u
  | EUpdate rnd dt => update_ui rnd dt g u
  | ETick rnd ts => update_ui rnd (tick_dt ts g) (set_lastTime ts g) u
  end.

(** The status line that belongs to a state. *)
Definition status_of (s : State) : string :=
  match s with
  | MENU => "Menu"
  | PLAYING => "Playing…"
  | PAUSED => "Paused"
  | GAME_OVER => "Game Over"
  | WIN => "You Win!"
  end.

(** The read-outs show the game: score, seconds left rounded up, goal,
    status line and active power-ups. *)
Definition shows (g : Game) (u : UI) : Prop :=
  ui_score u = whole_text (score g) /\
  ui_time u = ceil_text (timeLeft g) /\
  ui_goal u = whole_text (goal g) /\
  ui_status u = status_of (state g) /\
  ui_powerUpStatus u = ui_powerUpStatus (updatePowerUpUI g u) /\
  ui_powerUpClass u = ui_powerUpClass (updatePowerUpUI g u).

(** The read-outs through the events of a run that starts at [g]. *)
Fixpoint run_ui (es : list Event) (g : Game) (u : UI) : UI :=
  match es with
  | [] => u
  | e :: es' => run_ui es' (step e g) (step_ui e g u)
  end.

(** A number that is whole. *)
Definition whole (q : Q) : Prop := exists z : Z, q == inject_Z z.

(** * Properties

    From here on nothing is defined: the lemmas below are about the
    definitions above. *)

(** ** Comparisons *)

Lemma Qltb_lt a b : Qltb a b = true <-> a < b.
Proof.
  unfold Qltb. rewrite negb_true_iff.
  split; intro H.
  - apply Qnot_le_lt. intro Hle. apply Qle_bool_iff in Hle. congruence.
  - destruct (Qle_bool b a) eqn:E; [|reflexivity].
    apply Qle_bool_iff in E. exfalso. apply (Qlt_not_le _ _ H E).
Qed.

Lemma Qltb_ge a b : Qltb a b = false <-> b <= a.
Proof.
  unfold Qltb. rewrite negb_false_iff. apply Qle_bool_iff.
Qed.

(** * Commands *)

(** C1, as stated, fails: in PLAYING, a state for which section 4.1 lists no
    reset transition, [reset] takes the game back to MENU; and in GAME_OVER,
    where no start transition is listed, [start] begins a new round. *)
Lemma reset_while_playing_changes_game :
  let g := start 0 new_Game in
  let over := update (fun _ => 0) 60 g in
  state g = PLAYING /\
  spec_transition (state g) CmdReset = None /\
  state (exec CmdReset 1 g) = MENU /\
  exec CmdReset 1 g <> g /\
  state over = GAME_OVER /\
  spec_transition (state over) CmdStart = None /\
  state (exec CmdStart 1 over) = PLAYING /\
  exec CmdStart 1 over <> over.
Proof.
  cbv zeta.
  assert (E1 : state (start 0 new_Game) = PLAYING) by reflexivity.
  assert (E2 : state (exec CmdReset 1 (start 0 new_Game)) = MENU) by reflexivity.
  assert (E3 : state (update (fun _ => 0) 60 (start 0 new_Game)) = GAME_OVER)
    by (vm_compute; reflexivity).
  assert (E4 : state (exec CmdStart 1 (update (fun _ => 0) 60 (start 0 new_Game)))
               = PLAYING) by (vm_compute; reflexivity).
  split; [exact E1 |].
  split; [rewrite E1; reflexivity |].
  split; [exact E2 |].
  split; [intro H; rewrite H, E1 in E2; discriminate |].
  split; [exact E3 |].
  split; [rewrite E3; reflexivity |].
  split; [exact E4 |].
  intro H. rewrite H, E3 in E4. discriminate.
Qed.

(** C1, amended.  Every transition section 4.1 lists is taken.  The commands
    without effect are pause/resume outside PLAYING and PAUSED, and start in
    PLAYING: these leave the whole game unchanged.  [reset] has no guard: from
    every state it leads to MENU with a fresh round.  [start] in MENU,
    GAME_OVER and WIN resets and enters PLAYING; in PAUSED it only resumes. *)
Theorem commands_effect (c : Command) (now : Q) (g : Game) :
  (forall s', spec_transition (state g) c = Some s' -> state (exec c now g) = s') /\
  (spec_transition (state g) c = None ->
   c = CmdPause \/ (c = CmdStart /\ state g = PLAYING) ->
   exec c now g = g) /\
  (state (reset now g) = MENU /\ fresh_round (reset now g)) /\
  (state g = MENU \/ state g = GAME_OVER \/ state g = WIN ->
   start now g = set_state PLAYING (reset now g)) /\
  (state g = PAUSED -> start now g = set_state PLAYING g).
Proof.
  repeat split.
  - intros s' H. destruct c; simpl; unfold start, togglePause;
      destruct (state g) eqn:E; simpl in *; congruence.
  - intros Hn [-> | [-> Hp]]; simpl.
    + unfold togglePause. destruct (state g); simpl in Hn; congruence.
    + unfold start. rewrite Hp. reflexivity.
  - intros [H | [H | H]]; unfold start; rewrite H; reflexivity.
  - intros H. unfold start. rewrite H. reflexivity.
Qed.

Lemma commands_effect_witness :
  exec CmdPause 0 new_Game = new_Game /\
  state (exec CmdStart 0 new_Game) = PLAYING /\
  start 3 (set_state WIN new_Game) = set_state PLAYING (reset 3 (set_state WIN new_Game)) /\
  start 3 (set_state PAUSED new_Game) = set_state PLAYING (set_state PAUSED new_Game).
Proof.
  split; [| split; [| split]].
  - apply (proj1 (proj2 (commands_effect CmdPause 0 new_Game))).
    + reflexivity.
    + left. reflexivity.
  - apply (proj1 (commands_effect CmdStart 0 new_Game)). reflexivity.
  - apply (proj1 (proj2 (proj2 (proj2 (commands_effect CmdStart 3 (set_state WIN new_Game)))))).
    right. right. reflexivity.
  - apply (proj2 (proj2 (proj2 (proj2 (commands_effect CmdStart 3 (set_state PAUSED new_Game)))))).
    reflexivity.
Defined.

(** C8: from every game (reachable or not, whatever the last round's
    outcome), [reset] followed by [start] gives a game in PLAYING with score
    0, the full timer, no crops, power-ups or floating texts, the player at
    its start position and the two scarecrows at their fixed places; two such
    games differ at most in what the round does not own (the held keys and
    the clock value taken at reset). *)
Theorem reset_then_start (now1 now2 : Q) (g : Game) :
  let g' := start now2 (reset now1 g) in
  state g' = PLAYING /\ fresh_round g' /\
  g' = mkGame PLAYING (new_Farmer (WIDTH / 2 - 17) (HEIGHT - 80)) [] []
         [new_Scarecrow 200 220; new_Scarecrow 650 160] []
         now2 GAME_LEN (spawnEvery g) (powerUpSpawnEvery g) 0 0 0 (goal g) (input g).
Proof.
  cbv zeta. unfold fresh_round. repeat split.
Qed.

(** * What each block of [update] leaves alone *)

Lemma same_core_refl g : same_core g g.
Proof. unfold same_core. repeat split. Qed.

Lemma same_core_trans g1 g2 g3 :
  same_core g1 g2 -> same_core g2 g3 -> same_core g1 g3.
Proof.
  unfold same_core. intros H1 H2.
  decompose [and] H1. decompose [and] H2.
  repeat split; congruence.
Qed.

Lemma crop_spawn_loop_core fuel rnd : forall n g,
  same_core g (fst (crop_spawn_loop fuel rnd n g)) /\
  powerUps (fst (crop_spawn_loop fuel rnd n g)) = powerUps g /\
  accumPowerUpSpawn (fst (crop_spawn_loop fuel rnd n g)) = accumPowerUpSpawn g.
Proof.
  induction fuel as [|k IH]; intros n g; simpl.
  - split; [apply same_core_refl | split; reflexivity].
  - destruct (Qle_bool (spawnEvery g) (accumSpawn g)).
    + unfold spawnCrop.
      match goal with |- context [crop_spawn_loop k rnd ?m ?g'] =>
        destruct (IH m g') as (Hc & Hp & Ha); split; [| split];
        [ eapply same_core_trans; [| exact Hc]; unfold same_core; repeat split
        | rewrite Hp; reflexivity | rewrite Ha; reflexivity ]
      end.
    + split; [apply same_core_refl | split; reflexivity].
Qed.

Lemma powerUp_spawn_loop_core fuel rnd : forall n g,
  same_core g (fst (powerUp_spawn_loop fuel rnd n g)) /\
  crops (fst (powerUp_spawn_loop fuel rnd n g)) = crops g /\
  accumSpawn (fst (powerUp_spawn_loop fuel rnd n g)) = accumSpawn g.
Proof.
  induction fuel as [|k IH]; intros n g; simpl.
  - split; [apply same_core_refl | split; reflexivity].
  - destruct (Qle_bool (powerUpSpawnEvery g) (accumPowerUpSpawn g)).
    + unfold spawnPowerUp.
      match goal with |- context [powerUp_spawn_loop k rnd ?m ?g'] =>
        destruct (IH m g') as (Hc & Hp & Ha); split; [| split];
        [ eapply same_core_trans; [| exact Hc]; unfold same_core; repeat split
        | rewrite Hp; reflexivity | rewrite Ha; reflexivity ]
      end.
    + split; [apply same_core_refl | split; reflexivity].
Qed.

Lemma spawn_phase_core rnd dt g : same_core g (spawn_phase rnd dt g).
Proof.
  unfold spawn_phase.
  destruct (crop_spawn_loop _ rnd 0%nat (set_accumSpawn (accumSpawn g + dt) g))
    as [g2 n] eqn:E.
  pose proof (crop_spawn_loop_core
                (loop_fuel (accumSpawn (set_accumSpawn (accumSpawn g + dt) g))
                   (spawnEvery (set_accumSpawn (accumSpawn g + dt) g)))
                rnd 0%nat (set_accumSpawn (accumSpawn g + dt) g)) as (Hc & _).
  rewrite E in Hc. simpl in Hc.
  eapply same_core_trans; [| eapply same_core_trans; [exact Hc|]].
  - unfold same_core. repeat split.
  - eapply same_core_trans; [| apply powerUp_spawn_loop_core].
    unfold same_core. repeat split.
Qed.

(** Field by field, through the blocks after spawning. *)
Lemma collect_crops_fields g :
  player (collect_crops g) = player g /\ obstacles (collect_crops g) = obstacles g /\
  timeLeft (collect_crops g) = timeLeft g /\ powerUps (collect_crops g) = powerUps g /\
  goal (collect_crops g) = goal g /\ input (collect_crops g) = input g /\
  spawnEvery (collect_crops g) = spawnEvery g /\
  powerUpSpawnEvery (collect_crops g) = powerUpSpawnEvery g /\
  lastTime (collect_crops g) = lastTime g.
Proof.
  unfold collect_crops.
  destruct (filter (collects (player g)) (crops g)); [repeat split|].
  cbv zeta.
  match goal with |- context [if ?b then _ else _] => destruct b end; repeat split.
Qed.

Lemma tail_fields dt g :
  let g' := age_pointTexts dt (cleanup dt (collect_powerUps g)) in
  state g' = state g /\ score g' = score g /\ timeLeft g' = timeLeft g /\
  obstacles g' = obstacles g /\ goal g' = goal g /\ input g' = input g /\
  spawnEvery g' = spawnEvery g /\ powerUpSpawnEvery g' = powerUpSpawnEvery g /\
  lastTime g' = lastTime g /\
  accumSpawn g' = accumSpawn g /\ accumPowerUpSpawn g' = accumPowerUpSpawn g /\
  crops g' = map (Crop_update dt) (filter (fun c : Crop => negb (dead c)) (crops g)) /\
  player g' = fold_left (fun f p => addPowerUp (PowerUp_kill p) f)
                (filter (fun p : PowerUp => aabb (player g) p) (powerUps g))
                (player g).
Proof.
  cbv zeta. repeat split.
Qed.

(** [addPowerUp] writes the power-up mapping and nothing else. *)
Lemma addPowerUps_fields (ps : list PowerUp) : forall f,
  let f' := fold_left (fun f p => addPowerUp (PowerUp_kill p) f) ps f in
  f_ent f' = f_ent f /\ speed f' = speed f /\ baseSpeed f' = baseSpeed f /\
  vx f' = vx f /\ vy f' = vy f /\ hasScythe f' = hasScythe f.
Proof.
  induction ps as [|p ps IH]; intro f; simpl.
  - repeat split.
  - destruct (IH (addPowerUp (PowerUp_kill p) f)) as (H1 & H2 & H3 & H4 & H5 & H6).
    rewrite H1, H2, H3, H4, H5, H6. repeat split.
Qed.

Lemma update_playing rnd dt g :
  state g = PLAYING ->
  Qle_bool (clamp (timeLeft g - dt) 0 GAME_LEN) 0 = false ->
  update rnd dt g = playing_frame rnd dt g.
Proof.
  intros Hs Ht. unfold update. rewrite Hs. cbv zeta.
  change (timeLeft (set_timeLeft (clamp (timeLeft g - dt) 0 GAME_LEN) g))
    with (clamp (timeLeft g - dt) 0 GAME_LEN).
  rewrite Ht. reflexivity.
Qed.

Lemma update_timeout rnd dt g :
  state g = PLAYING ->
  Qle_bool (clamp (timeLeft g - dt) 0 GAME_LEN) 0 = true ->
  update rnd dt g =
  set_state (if Qle_bool (goal g) (score g) then WIN else GAME_OVER)
    (set_timeLeft (clamp (timeLeft g - dt) 0 GAME_LEN) g).
Proof.
  intros Hs Ht. unfold update. rewrite Hs. cbv zeta.
  change (timeLeft (set_timeLeft (clamp (timeLeft g - dt) 0 GAME_LEN) g))
    with (clamp (timeLeft g - dt) 0 GAME_LEN).
  rewrite Ht. reflexivity.
Qed.

Lemma update_not_playing rnd dt g :
  state g <> PLAYING -> update rnd dt g = g.
Proof.
  intro H. unfold update. destruct (state g); congruence.
Qed.

(** The player and the other core fields after a full frame. *)
Lemma playing_frame_fields rnd dt g :
  let g' := playing_frame rnd dt g in
  let p1 := Farmer_update dt (obstacles g) (handleInput (input g) (player g)) in
  timeLeft g' = clamp (timeLeft g - dt) 0 GAME_LEN /\
  obstacles g' = obstacles g /\
  f_ent (player g') = f_ent p1 /\ speed (player g') = speed p1 /\
  vx (player g') = vx p1 /\ vy (player g') = vy p1 /\
  hasScythe (player g') = hasScythe p1 /\
  goal g' = goal g /\ input g' = input g.
Proof.
  cbv zeta. unfold playing_frame.
  set (g1 := set_timeLeft (clamp (timeLeft g - dt) 0 GAME_LEN) g).
  set (g2 := move_player dt g1).
  pose proof (spawn_phase_core rnd dt g2) as Hc.
  set (g3 := spawn_phase rnd dt g2) in *.
  pose proof (collect_crops_fields g3) as Hf.
  set (g4 := collect_crops g3) in *.
  pose proof (tail_fields dt g4) as Ht. cbv zeta in Ht.
  set (g5 := age_pointTexts dt (cleanup dt (collect_powerUps g4))) in *.
  unfold same_core in Hc. decompose [and] Hc. decompose [and] Hf. decompose [and] Ht.
  pose proof (addPowerUps_fields
                (filter (fun p : PowerUp => aabb (player g4) p) (powerUps g4))
                (player g4)) as Ha. cbv zeta in Ha. decompose [and] Ha.
  assert (Hp : player g4 = Farmer_update dt (obstacles g) (handleInput (input g) (player g))).
  { transitivity (player g3); [assumption|]. transitivity (player g2); [assumption|].
    reflexivity. }
  rewrite <- Hp.
  assert (E1 : timeLeft g2 = clamp (timeLeft g - dt) 0 GAME_LEN) by reflexivity.
  assert (E2 : obstacles g2 = obstacles g) by reflexivity.
  assert (E3 : goal g2 = goal g) by reflexivity.
  assert (E4 : input g2 = input g) by reflexivity.
  repeat split; congruence.
Qed.

(** * The countdown *)

Lemma clamp_bounds v lo hi : lo <= hi -> lo <= clamp v lo hi /\ clamp v lo hi <= hi.
Proof.
  intro H. unfold clamp. split.
  - apply Q.min_glb; [exact H | apply Q.le_max_l].
  - apply Q.le_min_l.
Qed.

Lemma clamp_below v hi : v <= hi -> 0 <= hi -> clamp v 0 hi == Qmax 0 v.
Proof.
  intros Hv Hh. unfold clamp. apply Q.min_r. apply Q.max_lub; assumption.
Qed.

Lemma Qmax0_le0 v : Qmax 0 v <= 0 <-> v <= 0.
Proof.
  split; intro H.
  - eapply Qle_trans; [apply Q.le_max_r | exact H].
  - apply Q.max_lub; [apply Qle_refl | exact H].
Qed.

Lemma clamp_le0 v hi : v <= hi -> 0 <= hi -> (clamp v 0 hi <= 0 <-> v <= 0).
Proof.
  intros Hv Hh. pose proof (clamp_below v hi Hv Hh) as Hc.
  split; intro H.
  - apply Qmax0_le0. apply Qle_lteq. right.
    apply Qeq_sym in Hc. eapply Qeq_trans; [exact Hc|].
    apply Qle_antisym; [exact H | apply (clamp_bounds v 0 hi Hh)].
  - apply Qmax0_le0 in H. eapply Qle_trans; [| exact H].
    apply Qle_lteq. right. exact Hc.
Qed.

(** The state a collection can leave: the one it found, or WIN. *)
Lemma collect_crops_state g :
  state (collect_crops g) = state g \/ state (collect_crops g) = WIN.
Proof.
  unfold collect_crops.
  destruct (filter (collects (player g)) (crops g)); [left; reflexivity|].
  cbv zeta.
  match goal with |- context [if ?b then _ else _] => destruct b end;
    [right | left]; reflexivity.
Qed.

Lemma playing_frame_state rnd dt g :
  state (playing_frame rnd dt g) = state g \/ state (playing_frame rnd dt g) = WIN.
Proof.
  unfold playing_frame.
  set (g2 := move_player dt (set_timeLeft (clamp (timeLeft g - dt) 0 GAME_LEN) g)).
  pose proof (spawn_phase_core rnd dt g2) as (Hs & _).
  pose proof (collect_crops_state (spawn_phase rnd dt g2)) as Hc.
  pose proof (tail_fields dt (collect_crops (spawn_phase rnd dt g2))) as (Ht & _).
  rewrite Ht. change (state g2) with (state g) in Hs. rewrite Hs in Hc. exact Hc.
Qed.

(** C4: in a PLAYING frame the timer becomes [max 0 (timeLeft - dt)].  When
    that is zero the state becomes WIN if the score has reached the goal and
    GAME_OVER otherwise, and nothing else of the game changes: no movement,
    no spawning, no collection.  ([dt] is an elapsed time, so not negative;
    the timer is at most the round length, as in every reachable game.) *)
Theorem timer_countdown (rnd : nat -> Q) (dt : Q) (g : Game) :
  state g = PLAYING -> 0 <= dt -> timeLeft g <= GAME_LEN ->
  let g' := update rnd dt g in
  timeLeft g' == Qmax 0 (timeLeft g - dt) /\
  (timeLeft g - dt <= 0 ->
     timeLeft g' == 0 /\
     (goal g <= score g -> state g' = WIN) /\
     (score g < goal g -> state g' = GAME_OVER) /\
     player g' = player g /\ crops g' = crops g /\ powerUps g' = powerUps g /\
     obstacles g' = obstacles g /\ pointTexts g' = pointTexts g /\
     score g' = score g /\ accumSpawn g' = accumSpawn g /\
     accumPowerUpSpawn g' = accumPowerUpSpawn g) /\
  (0 < timeLeft g - dt -> state g' <> GAME_OVER).
Proof.
  intros Hs Hdt Hle. cbv zeta.
  assert (Hv : timeLeft g - dt <= GAME_LEN) by lra.
  assert (H60 : 0 <= GAME_LEN) by (unfold GAME_LEN; lra).
  pose proof (clamp_below _ _ Hv H60) as Hc.
  destruct (Qle_bool (clamp (timeLeft g - dt) 0 GAME_LEN) 0) eqn:E.
  - rewrite (update_timeout rnd dt g Hs E).
    apply Qle_bool_iff in E.
    split; [exact Hc|]. split.
    + intros _. split.
      { change (clamp (timeLeft g - dt) 0 GAME_LEN == 0).
        apply Qle_antisym; [exact E | apply (clamp_bounds _ 0 _ H60)]. }
      split.
      { intro Hg. apply Qle_bool_iff in Hg.
        change (state (set_state (if Qle_bool (goal g) (score g) then WIN else GAME_OVER)
                         (set_timeLeft (clamp (timeLeft g - dt) 0 GAME_LEN) g)))
          with (if Qle_bool (goal g) (score g) then WIN else GAME_OVER).
        rewrite Hg. reflexivity. }
      split.
      { intro Hg.
        change (state (set_state (if Qle_bool (goal g) (score g) then WIN else GAME_OVER)
                         (set_timeLeft (clamp (timeLeft g - dt) 0 GAME_LEN) g)))
          with (if Qle_bool (goal g) (score g) then WIN else GAME_OVER).
        destruct (Qle_bool (goal g) (score g)) eqn:Eg; [|reflexivity].
        apply Qle_bool_iff in Eg. lra. }
      repeat split.
    + intro Hpos. apply (clamp_le0 _ _ Hv H60) in E. lra.
  - rewrite (update_playing rnd dt g Hs E).
    assert (Hgt : ~ clamp (timeLeft g - dt) 0 GAME_LEN <= 0).
    { intro H. apply Qle_bool_iff in H. congruence. }
    rewrite (clamp_le0 _ _ Hv H60) in Hgt.
    pose proof (playing_frame_fields rnd dt g) as (Ht & _).
    split; [rewrite Ht; exact Hc|]. split.
    + intro H. contradiction.
    + intros _. destruct (playing_frame_state rnd dt g) as [H | H];
        rewrite H; [rewrite Hs|]; discriminate.
Qed.

Lemma timer_countdown_witness :
  timeLeft (update (fun _ => 0) 60 (start 0 new_Game)) == Qmax 0 (60 - 60) /\
  state (update (fun _ => 0) 60 (start 0 new_Game)) = GAME_OVER.
Proof.
  assert (H1 : state (start 0 new_Game) = PLAYING) by reflexivity.
  assert (H2 : 0 <= 60) by (vm_compute; discriminate).
  assert (H3 : timeLeft (start 0 new_Game) <= GAME_LEN) by (vm_compute; discriminate).
  pose proof (timer_countdown (fun _ => 0) 60 (start 0 new_Game) H1 H2 H3) as H.
  cbv zeta in H. destruct H as (Ha & Hb & _).
  split; [exact Ha|].
  assert (H4 : timeLeft (start 0 new_Game) - 60 <= 0) by (vm_compute; discriminate).
  destruct (Hb H4) as (_ & _ & Hover & _).
  apply Hover. vm_compute. reflexivity.
Defined.

(** * Movement and obstacles *)

Lemma hits_ent f f' obs : f_ent f = f_ent f' -> hits f obs = hits f' obs.
Proof. unfold hits. intro H. rewrite H. reflexivity. Qed.

Lemma updatePowerUps_fields dt f :
  f_ent (updatePowerUps dt f) = f_ent f /\ vx (updatePowerUps dt f) = vx f /\
  vy (updatePowerUps dt f) = vy f /\ baseSpeed (updatePowerUps dt f) = baseSpeed f.
Proof.
  unfold updatePowerUps.
  destruct (tickPowerUps dt (baseSpeed f) (activePowerUps f) (baseSpeed f) false)
    as [[m sp] sc].
  repeat split.
Qed.

Lemma Farmer_update_position dt obs f :
  let f' := Farmer_update dt obs f in
  let moved := Farmer_set_xy (proposed_x dt f) (proposed_y dt f) (updatePowerUps dt f) in
  (hits moved obs = true -> x f' = x f /\ y f' = y f) /\
  (hits moved obs = false -> x f' = proposed_x dt f /\ y f' = proposed_y dt f) /\
  w f' = w f /\ h f' = h f /\
  vx f' = vx f /\ vy f' = vy f /\
  speed f' = speed (updatePowerUps dt f) /\
  hasScythe f' = hasScythe (updatePowerUps dt f).
Proof.
  cbv zeta. unfold Farmer_update, proposed_x, proposed_y.
  destruct (updatePowerUps_fields dt f) as (He & Hvx & Hvy & _).
  set (f1 := updatePowerUps dt f) in *.
  assert (Hx : x f1 = x f) by (rewrite He; reflexivity).
  assert (Hy : y f1 = y f) by (rewrite He; reflexivity).
  assert (Hw : w f1 = w f) by (rewrite He; reflexivity).
  assert (Hh : h f1 = h f) by (rewrite He; reflexivity).
  cbv zeta.
  set (f2 := Farmer_set_xy (clamp (x f1 + vx f1 * dt) 0 (WIDTH - w f1)) (y f1) f1).
  set (f3 := Farmer_set_xy (x f2) (clamp (y f2 + vy f2 * dt) 0 (HEIGHT - h f2)) f2).
  assert (E3 : f3 = Farmer_set_xy (clamp (x f + vx f * dt) 0 (WIDTH - w f))
                      (clamp (y f + vy f * dt) 0 (HEIGHT - h f)) f1).
  { unfold f3, f2, Farmer_set_xy. simpl. rewrite Hx, Hy, Hw, Hh, Hvx, Hvy. reflexivity. }
  rewrite <- E3.
  destruct (hits f3 obs) eqn:Eh.
  - split; [intros _; simpl; split; assumption|].
    split; [discriminate|].
    simpl. repeat split; assumption.
  - split; [discriminate|].
    split; [intros _; rewrite E3; split; reflexivity|].
    rewrite E3. simpl. repeat split; assumption.
Qed.

Lemma Entity_eta (e : Entity) : mkEntity (x e) (y e) (w e) (h e) (dead e) = e.
Proof. destruct e. reflexivity. Qed.

Lemma Farmer_update_ent dt obs f :
  let moved := Farmer_set_xy (proposed_x dt f) (proposed_y dt f) (updatePowerUps dt f) in
  f_ent (Farmer_update dt obs f) = if hits moved obs then f_ent f else f_ent moved.
Proof.
  cbv zeta.
  pose proof (Farmer_update_position dt obs f) as H. cbv zeta in H.
  destruct H as (Hhit & Hfree & Hw & Hh & _).
  assert (Hd : dead (Farmer_update dt obs f) = dead f).
  { unfold Farmer_update. cbv zeta.
    destruct (updatePowerUps_fields dt f) as (He & _).
    match goal with |- context [if ?b then _ else _] => destruct b end;
      simpl; rewrite He; reflexivity. }
  destruct (hits _ obs).
  - destruct (Hhit eq_refl) as (Hx & Hy).
    rewrite <- (Entity_eta (f_ent (Farmer_update dt obs f))), <- (Entity_eta (f_ent f)).
    rewrite Hx, Hy, Hw, Hh, Hd. reflexivity.
  - destruct (Hfree eq_refl) as (Hx & Hy).
    rewrite <- (Entity_eta (f_ent (Farmer_update dt obs f))).
    rewrite Hx, Hy, Hw, Hh, Hd.
    destruct (updatePowerUps_fields dt f) as (He & _).
    simpl. rewrite He. reflexivity.
Qed.

Lemma Farmer_update_stays_clear dt obs f :
  hits f obs = false -> hits (Farmer_update dt obs f) obs = false.
Proof.
  intro H. pose proof (Farmer_update_ent dt obs f) as He. cbv zeta in He.
  destruct (hits (Farmer_set_xy (proposed_x dt f) (proposed_y dt f)
                    (updatePowerUps dt f)) obs) eqn:E.
  - rewrite (hits_ent _ f obs He). exact H.
  - rewrite (hits_ent _ _ obs He). exact E.
Qed.

(** C5: when the position a frame proposes for the player (the velocity
    applied to both coordinates, each clamped to the playfield) overlaps an
    obstacle, the player ends the frame with both coordinates as they were;
    and a player clear of every obstacle before a frame is clear of every
    obstacle after it.  Both hold for [Farmer.update] alone and for the whole
    of [Game.update], in every state. *)
Theorem obstacle_blocks_move (rnd : nat -> Q) (dt : Q) (g : Game) :
  let g' := update rnd dt g in
  let p0 := handleInput (input g) (player g) in
  let moved := Farmer_set_xy (proposed_x dt p0) (proposed_y dt p0) (updatePowerUps dt p0) in
  (hits moved (obstacles g) = true ->
   x (player g') = x (player g) /\ y (player g') = y (player g)) /\
  (hits (player g) (obstacles g) = false ->
   hits (player g') (obstacles g') = false) /\
  (forall f obs,
     (hits (Farmer_set_xy (proposed_x dt f) (proposed_y dt f) (updatePowerUps dt f)) obs
      = true ->
      x (Farmer_update dt obs f) = x f /\ y (Farmer_update dt obs f) = y f) /\
     (hits f obs = false -> hits (Farmer_update dt obs f) obs = false)).
Proof.
  cbv zeta.
  assert (Hfarmer : forall f obs,
     (hits (Farmer_set_xy (proposed_x dt f) (proposed_y dt f) (updatePowerUps dt f)) obs
      = true ->
      x (Farmer_update dt obs f) = x f /\ y (Farmer_update dt obs f) = y f) /\
     (hits f obs = false -> hits (Farmer_update dt obs f) obs = false)).
  { intros f obs. split.
    - apply (Farmer_update_position dt obs f).
    - apply Farmer_update_stays_clear. }
  split; [| split; [| exact Hfarmer]].
  - intro Hhit.
    destruct (state g) eqn:Es;
      try (rewrite update_not_playing by congruence; split; reflexivity).
    destruct (Qle_bool (clamp (timeLeft g - dt) 0 GAME_LEN) 0) eqn:Et.
    + rewrite (update_timeout rnd dt g Es Et). split; reflexivity.
    + rewrite (update_playing rnd dt g Es Et).
      pose proof (playing_frame_fields rnd dt g) as H. cbv zeta in H.
      destruct H as (_ & _ & He & _).
      destruct (proj1 (Hfarmer (handleInput (input g) (player g)) (obstacles g)) Hhit)
        as (Hx & Hy).
      rewrite He. split; assumption.
  - intro Hclear.
    destruct (state g) eqn:Es;
      try (rewrite update_not_playing by congruence; exact Hclear).
    destruct (Qle_bool (clamp (timeLeft g - dt) 0 GAME_LEN) 0) eqn:Et.
    + rewrite (update_timeout rnd dt g Es Et). exact Hclear.
    + rewrite (update_playing rnd dt g Es Et).
      pose proof (playing_frame_fields rnd dt g) as H. cbv zeta in H.
      destruct H as (_ & Ho & He & _).
      rewrite Ho. rewrite (hits_ent _ _ (obstacles g) He).
      apply Farmer_update_stays_clear.
      rewrite (hits_ent _ (player g)); [exact Hclear | reflexivity].
Qed.

Lemma obstacle_blocks_move_witness :
  x (player (update (fun _ => 0) (33 # 1000) beside_scarecrow)) = 165 /\
  y (player (update (fun _ => 0) (33 # 1000) beside_scarecrow)) = 220 /\
  hits (player (update (fun _ => 0) (33 # 1000) beside_scarecrow))
       (obstacles (update (fun _ => 0) (33 # 1000) beside_scarecrow)) = false.
Proof.
  pose proof (obstacle_blocks_move (fun _ => 0) (33 # 1000) beside_scarecrow) as H.
  cbv zeta in H. destruct H as (H1 & H2 & _).
  split; [| split].
  - apply H1. vm_compute. reflexivity.
  - apply H1. vm_compute. reflexivity.
  - apply H2. vm_compute. reflexivity.
Defined.

(** * Which speed moves the player *)

Lemma updatePowerUps_handleInput dt input f :
  speed (updatePowerUps dt (handleInput input f)) = speed (updatePowerUps dt f) /\
  hasScythe (updatePowerUps dt (handleInput input f)) = hasScythe (updatePowerUps dt f) /\
  activePowerUps (updatePowerUps dt (handleInput input f))
  = activePowerUps (updatePowerUps dt f).
Proof.
  unfold updatePowerUps, handleInput. simpl.
  destruct (tickPowerUps dt (baseSpeed f) (activePowerUps f) (baseSpeed f) false)
    as [[m sp] sc].
  repeat split.
Qed.

(** C9: in a PLAYING frame that the timer lets run, the velocity is the held
    direction times the speed the game had when the frame began (the value
    the previous frame's [updatePowerUps] left), the move the frame proposes
    applies that velocity, and the speed the frame leaves behind is the one
    [updatePowerUps] recomputes in this frame, first read by the next one. *)
Theorem velocity_uses_previous_speed (rnd : nat -> Q) (dt : Q) (g : Game) :
  state g = PLAYING ->
  Qle_bool (clamp (timeLeft g - dt) 0 GAME_LEN) 0 = false ->
  let g' := update rnd dt g in
  let p := player g in
  let vx0 := axis "ArrowRight" "ArrowLeft" (input g) * speed p in
  let vy0 := axis "ArrowDown" "ArrowUp" (input g) * speed p in
  vx (player g') = vx0 /\ vy (player g') = vy0 /\
  ((x (player g') = x p /\ y (player g') = y p) \/
   (x (player g') = clamp (x p + vx0 * dt) 0 (WIDTH - w p) /\
    y (player g') = clamp (y p + vy0 * dt) 0 (HEIGHT - h p))) /\
  speed (player g') = speed (updatePowerUps dt p).
Proof.
  intros Hs Ht. cbv zeta.
  rewrite (update_playing rnd dt g Hs Ht).
  pose proof (playing_frame_fields rnd dt g) as H. cbv zeta in H.
  destruct H as (_ & _ & He & Hsp & Hvx & Hvy & _).
  pose proof (Farmer_update_position dt (obstacles g) (handleInput (input g) (player g)))
    as H. cbv zeta in H.
  destruct H as (Hhit & Hfree & _ & _ & Hvx' & Hvy' & Hsp' & _).
  rewrite Hvx, Hvy, Hsp, He, Hvx', Hvy', Hsp'.
  split; [reflexivity|]. split; [reflexivity|]. split.
  - destruct (hits _ (obstacles g)).
    + left. apply Hhit. reflexivity.
    + right. apply Hfree. reflexivity.
  - apply updatePowerUps_handleInput.
Qed.

Lemma velocity_uses_previous_speed_witness :
  let g' := update (fun _ => 0) (33 # 1000) boost_expiring in
  vx (player g') = 1 * (260 * (18 # 10)) /\
  speed (player g') == 260 /\
  x (player g') == 100 + 468 * (33 # 1000).
Proof.
  cbv zeta.
  assert (Hs : state boost_expiring = PLAYING) by reflexivity.
  assert (Ht : Qle_bool (clamp (timeLeft boost_expiring - (33 # 1000)) 0 GAME_LEN) 0 = false)
    by (vm_compute; reflexivity).
  pose proof (velocity_uses_previous_speed (fun _ => 0) (33 # 1000) boost_expiring Hs Ht)
    as H. cbv zeta in H. destruct H as (Hvx & _ & _ & Hsp).
  split; [| split].
  - rewrite Hvx. vm_compute. reflexivity.
  - rewrite Hsp. vm_compute. reflexivity.
  - vm_compute. reflexivity.
Defined.

(** * Spawn positions *)

Lemma floor_range (v : Q) (n : Z) :
  0 <= v -> v < inject_Z n -> (0 <= Qfloor v < n)%Z.
Proof.
  intros H0 Hn. split.
  - change 0%Z with (Qfloor 0). apply Qfloor_resp_le. exact H0.
  - pose proof (Qfloor_le v) as Hf.
    assert (H : inject_Z (Qfloor v) < inject_Z n) by (eapply Qle_lt_trans; eassumption).
    rewrite <- Zlt_Qlt in H. exact H.
Qed.

Lemma spawn_coord_WIDTH r :
  0 <= r -> r < 1 ->
  on_grid 28 (spawn_coord r WIDTH) /\
  TILE <= spawn_coord r WIDTH /\ spawn_coord r WIDTH < WIDTH - TILE.
Proof.
  intros H0 H1. unfold spawn_coord, floor.
  set (v := r * ((WIDTH - 2 * TILE) / TILE)).
  assert (Ev : v == r * 28) by (unfold v, WIDTH, TILE; field).
  assert (Hk : (0 <= Qfloor v < 28)%Z).
  { apply floor_range; [rewrite Ev; lra | rewrite Ev; unfold inject_Z; lra]. }
  destruct Hk as [Hk0 Hk1].
  assert (Hq0 : 0 <= inject_Z (Qfloor v)) by (change 0 with (inject_Z 0); rewrite <- Zle_Qle; exact Hk0).
  assert (Hq1 : inject_Z (Qfloor v) <= 27).
  { change 27 with (inject_Z 27). rewrite <- Zle_Qle. lia. }
  split; [exists (Qfloor v); split; [lia | reflexivity] |].
  unfold WIDTH, TILE. split; lra.
Qed.

Lemma spawn_coord_HEIGHT r :
  0 <= r -> r < 1 ->
  on_grid 16 (spawn_coord r HEIGHT) /\
  TILE <= spawn_coord r HEIGHT /\ spawn_coord r HEIGHT < HEIGHT - TILE.
Proof.
  intros H0 H1. unfold spawn_coord, floor.
  set (v := r * ((HEIGHT - 2 * TILE) / TILE)).
  assert (Ev : v == r * 16) by (unfold v, HEIGHT, TILE; field).
  assert (Hk : (0 <= Qfloor v < 16)%Z).
  { apply floor_range; [rewrite Ev; lra | rewrite Ev; unfold inject_Z; lra]. }
  destruct Hk as [Hk0 Hk1].
  assert (Hq0 : 0 <= inject_Z (Qfloor v)) by (change 0 with (inject_Z 0); rewrite <- Zle_Qle; exact Hk0).
  assert (Hq1 : inject_Z (Qfloor v) <= 15).
  { change 15 with (inject_Z 15). rewrite <- Zle_Qle. lia. }
  split; [exists (Qfloor v); split; [lia | reflexivity] |].
  unfold HEIGHT, TILE. split; lra.
Qed.

(** C10: whatever values in [0, 1) the random source returns, [spawnCrop]
    and [spawnPowerUp] append exactly one entity to their collection, at
    coordinates [TILE * k + TILE] for integers k (0 <= k < 28 across,
    0 <= k < 16 down), hence inside [TILE, WIDTH - TILE) x
    [TILE, HEIGHT - TILE). *)
Theorem spawn_positions (rnd : nat -> Q) (n : nat) (g : Game) :
  (forall i, 0 <= rnd i /\ rnd i < 1) ->
  (exists c : Crop,
     crops (fst (spawnCrop rnd n g)) = crops g ++ [c] /\ well_placed c) /\
  (exists p : PowerUp,
     powerUps (fst (spawnPowerUp rnd n g)) = powerUps g ++ [p] /\ well_placed p).
Proof.
  intro Hr.
  destruct (Hr n) as [Ha0 Ha1]. destruct (Hr (n + 1)%nat) as [Hb0 Hb1].
  destruct (spawn_coord_WIDTH _ Ha0 Ha1) as (Gx & Lx & Ux).
  destruct (spawn_coord_HEIGHT _ Hb0 Hb1) as (Gy & Ly & Uy).
  split.
  - eexists. split; [reflexivity|].
    unfold well_placed. simpl. repeat split; assumption.
  - eexists. split; [reflexivity|].
    unfold well_placed. simpl. repeat split; assumption.
Qed.

Lemma spawn_positions_witness :
  exists c : Crop,
    crops (fst (spawnCrop (fun _ => 1 # 2) 0 new_Game)) = crops new_Game ++ [c] /\
    well_placed c.
Proof.
  apply (spawn_positions (fun _ => 1 # 2) 0 new_Game).
  intro i. split; [vm_compute; discriminate | reflexivity].
Defined.

(** * The spawning loops end *)

Lemma Qfloor_pred (q : Q) : Qfloor (q - 1) = (Qfloor q - 1)%Z.
Proof.
  pose proof (Qfloor_le q) as A1. pose proof (Qlt_floor q) as A2.
  pose proof (Qfloor_le (q - 1)) as B1. pose proof (Qlt_floor (q - 1)) as B2.
  rewrite inject_Z_plus in A2, B2.
  change (inject_Z 1) with 1 in A2, B2.
  assert (H1 : inject_Z (Qfloor (q - 1)) < inject_Z (Qfloor q)) by lra.
  assert (H2 : inject_Z (Qfloor q) < inject_Z (Qfloor (q - 1) + 2)).
  { rewrite inject_Z_plus. change (inject_Z 2) with 2. lra. }
  rewrite <- Zlt_Qlt in H1, H2. lia.
Qed.

Lemma loop_fuel_step (acc every : Q) (k : nat) :
  0 < every -> every <= acc ->
  (Z.to_nat (Qfloor (acc / every)) < S k)%nat ->
  (Z.to_nat (Qfloor ((acc - every) / every)) < k)%nat.
Proof.
  intros He Ha Hk.
  assert (E : (acc - every) / every == acc / every - 1) by (field; lra).
  rewrite E, Qfloor_pred.
  assert (H1 : 1 <= acc / every).
  { apply Qle_shift_div_l; [exact He | lra]. }
  assert (Hf : (1 <= Qfloor (acc / every))%Z).
  { change 1%Z with (Qfloor 1). apply Qfloor_resp_le. exact H1. }
  lia.
Qed.

(** With the fuel [spawn_phase] supplies, each loop stops because its
    condition fails: the accumulator it leaves is below the interval. *)
Lemma crop_spawn_loop_exits rnd : forall fuel n g,
  0 < spawnEvery g ->
  (Z.to_nat (Qfloor (accumSpawn g / spawnEvery g)) < fuel)%nat ->
  accumSpawn (fst (crop_spawn_loop fuel rnd n g))
  < spawnEvery (fst (crop_spawn_loop fuel rnd n g)).
Proof.
  induction fuel as [|k IH]; intros n g He Hk; [lia|].
  simpl. destruct (Qle_bool (spawnEvery g) (accumSpawn g)) eqn:E.
  - apply Qle_bool_iff in E. unfold spawnCrop.
    apply IH; simpl; [exact He | apply loop_fuel_step; assumption].
  - simpl. apply Qnot_le_lt. intro H. apply Qle_bool_iff in H. congruence.
Qed.

Lemma powerUp_spawn_loop_exits rnd : forall fuel n g,
  0 < powerUpSpawnEvery g ->
  (Z.to_nat (Qfloor (accumPowerUpSpawn g / powerUpSpawnEvery g)) < fuel)%nat ->
  accumPowerUpSpawn (fst (powerUp_spawn_loop fuel rnd n g))
  < powerUpSpawnEvery (fst (powerUp_spawn_loop fuel rnd n g)).
Proof.
  induction fuel as [|k IH]; intros n g He Hk; [lia|].
  simpl. destruct (Qle_bool (powerUpSpawnEvery g) (accumPowerUpSpawn g)) eqn:E.
  - apply Qle_bool_iff in E. unfold spawnPowerUp.
    apply IH; simpl; [exact He | apply loop_fuel_step; assumption].
  - simpl. apply Qnot_le_lt. intro H. apply Qle_bool_iff in H. congruence.
Qed.

(** Fuel beyond what a loop needs changes nothing. *)
Lemma crop_spawn_loop_fuel rnd : forall fuel extra n g,
  0 < spawnEvery g ->
  (Z.to_nat (Qfloor (accumSpawn g / spawnEvery g)) < fuel)%nat ->
  crop_spawn_loop (fuel + extra) rnd n g = crop_spawn_loop fuel rnd n g.
Proof.
  induction fuel as [|k IH]; intros extra n g He Hk; [lia|].
  simpl. destruct (Qle_bool (spawnEvery g) (accumSpawn g)) eqn:E; [|reflexivity].
  apply Qle_bool_iff in E. unfold spawnCrop.
  apply IH; simpl; [exact He | apply loop_fuel_step; assumption].
Qed.

Lemma powerUp_spawn_loop_fuel rnd : forall fuel extra n g,
  0 < powerUpSpawnEvery g ->
  (Z.to_nat (Qfloor (accumPowerUpSpawn g / powerUpSpawnEvery g)) < fuel)%nat ->
  powerUp_spawn_loop (fuel + extra) rnd n g = powerUp_spawn_loop fuel rnd n g.
Proof.
  induction fuel as [|k IH]; intros extra n g He Hk; [lia|].
  simpl. destruct (Qle_bool (powerUpSpawnEvery g) (accumPowerUpSpawn g)) eqn:E;
    [|reflexivity].
  apply Qle_bool_iff in E. unfold spawnPowerUp.
  apply IH; simpl; [exact He | apply loop_fuel_step; assumption].
Qed.

Lemma spawn_phase_exits rnd dt g :
  0 < spawnEvery g -> 0 < powerUpSpawnEvery g ->
  accumSpawn (spawn_phase rnd dt g) < spawnEvery g /\
  accumPowerUpSpawn (spawn_phase rnd dt g) < powerUpSpawnEvery g.
Proof.
  intros H1 H2. unfold spawn_phase.
  set (g1 := set_accumSpawn (accumSpawn g + dt) g).
  pose proof (crop_spawn_loop_exits rnd (loop_fuel (accumSpawn g1) (spawnEvery g1))
                0%nat g1 H1) as Hc.
  pose proof (crop_spawn_loop_core (loop_fuel (accumSpawn g1) (spawnEvery g1))
                rnd 0%nat g1) as (Hcore & _ & _).
  destruct (crop_spawn_loop (loop_fuel (accumSpawn g1) (spawnEvery g1)) rnd 0%nat g1)
    as [g2 n].
  cbv beta iota zeta. change (fst (g2, n)) with g2 in *.
  set (g3 := set_accumPowerUpSpawn (accumPowerUpSpawn g2 + dt) g2).
  assert (E2 : powerUpSpawnEvery g3 = powerUpSpawnEvery g).
  { unfold same_core in Hcore. decompose [and] Hcore. simpl. assumption. }
  assert (E1 : spawnEvery g2 = spawnEvery g).
  { unfold same_core in Hcore. decompose [and] Hcore. assumption. }
  assert (H2' : 0 < powerUpSpawnEvery g3) by (rewrite E2; exact H2).
  pose proof (powerUp_spawn_loop_exits rnd
                (loop_fuel (accumPowerUpSpawn g3) (powerUpSpawnEvery g3)) n g3 H2') as Hp.
  pose proof (powerUp_spawn_loop_core
                (loop_fuel (accumPowerUpSpawn g3) (powerUpSpawnEvery g3)) rnd n g3)
    as (Hcore' & _ & Hacc).
  unfold same_core in Hcore'. decompose [and] Hcore'.
  split.
  - rewrite Hacc. change (accumSpawn g3) with (accumSpawn g2).
    rewrite <- E1. apply Hc. unfold loop_fuel. lia.
  - eapply Qlt_le_trans; [apply Hp; unfold loop_fuel; lia |].
    match goal with H : powerUpSpawnEvery _ = powerUpSpawnEvery g3 |- _ =>
      rewrite H end.
    rewrite E2. apply Qle_refl.
Qed.

(** * The power-up mapping *)

Section JsMapFacts.

Context {V : Type}.
Implicit Types (m : JsMap.t V) (k : string) (v : V).

Lemma has_cons k k' v m :
  JsMap.has k ((k', v) :: m) = if String.eqb k k' then true else JsMap.has k m.
Proof. unfold JsMap.has. simpl. destruct (String.eqb k k'); reflexivity. Qed.

Lemma has_In k m : JsMap.has k m = true <-> exists v, In (k, v) m.
Proof.
  induction m as [|[k' v'] m IH].
  - split; [discriminate | intros [v []]].
  - rewrite has_cons. destruct (String.eqb k k') eqn:E.
    + apply String.eqb_eq in E. subst k'. split; [|reflexivity].
      intros _. exists v'. left. reflexivity.
    + apply String.eqb_neq in E. rewrite IH. split.
      * intros [v H]. exists v. right. exact H.
      * intros [v [H | H]]; [inversion H; congruence | exists v; exact H].
Qed.

Lemma keys_set k v m :
  JsMap.keys (JsMap.set k v m)
  = if JsMap.has k m then JsMap.keys m else JsMap.keys m ++ [k].
Proof.
  induction m as [|[k' v'] m IH]; [reflexivity|].
  simpl JsMap.set. rewrite has_cons. destruct (String.eqb k k') eqn:E.
  - reflexivity.
  - unfold JsMap.keys in *. simpl. rewrite IH.
    destruct (JsMap.has k m); reflexivity.
Qed.

Lemma has_keys k m : JsMap.has k m = true <-> In k (JsMap.keys m).
Proof.
  rewrite has_In. unfold JsMap.keys. rewrite in_map_iff. split.
  - intros [v H]. exists (k, v). split; [reflexivity | exact H].
  - intros [[k' v] [E H]]. simpl in E. subst k'. exists v. exact H.
Qed.

Lemma NoDup_keys_set k v m :
  NoDup (JsMap.keys m) -> NoDup (JsMap.keys (JsMap.set k v m)).
Proof.
  intro H. rewrite keys_set. destruct (JsMap.has k m) eqn:E; [exact H|].
  apply NoDup_app; [exact H | constructor; [intros [] | constructor] |].
  intros a Ha [Hb | []]. subst a.
  apply has_keys in Ha. congruence.
Qed.


Lemma has_set_mono k k0 v m :
  JsMap.has k0 m = true -> JsMap.has k0 (JsMap.set k v m) = true.
Proof.
  induction m as [|[k' v'] m IH]; [discriminate|].
  simpl JsMap.set. rewrite has_cons.
  destruct (String.eqb k k'); rewrite has_cons;
    destruct (String.eqb k0 k'); auto.
Qed.

Lemma In_set k v m e :
  In e (JsMap.set k v m) -> e = (k, v) \/ In e m.
Proof.
  induction m as [|[k' v'] m IH]; simpl.
  - intros [H | []]. left. symmetry. exact H.
  - destruct (String.eqb k k') eqn:E.
    + apply String.eqb_eq in E. subst k'.
      intros [H | H]; [left; symmetry; exact H | right; right; exact H].
    + intros [H | H]; [right; left; exact H |].
      destruct (IH H) as [H' | H']; [left; exact H' | right; right; exact H'].
Qed.





End JsMapFacts.

Lemma tickPowerUps_map dt base m : forall sp sc,
  fst (fst (tickPowerUps dt base m sp sc)) = ticked dt m.
Proof.
  induction m as [|[k a] m IH]; intros sp sc; [reflexivity|].
  unfold ticked in *. simpl.
  destruct (Qle_bool (a_timeLeft a - dt) 0); simpl.
  - apply IH.
  - match goal with |- context [tickPowerUps dt base m ?s ?c] =>
      specialize (IH s c); destruct (tickPowerUps dt base m s c) as [[m' sp'] sc'] end.
    simpl in *. rewrite IH. reflexivity.
Qed.

Lemma live_after_cons dt k k' a m :
  live_after dt k ((k', a) :: m) <->
  (k = k' /\ dt < a_timeLeft a) \/ live_after dt k m.
Proof.
  unfold live_after. split.
  - intros [a' [[H | H] Hl]].
    + inversion H; subst. left. split; [reflexivity | exact Hl].
    + right. exists a'. split; assumption.
  - intros [[-> Hl] | [a' [H Hl]]].
    + exists a. split; [left; reflexivity | exact Hl].
    + exists a'. split; [right; exact H | exact Hl].
Qed.

(** The flag after the loop: raised before it, or raised by a scythe entry
    that outlives the tick. *)
Lemma tickPowerUps_scythe dt base m : forall sp sc,
  snd (tickPowerUps dt base m sp sc) = true <->
  sc = true \/ live_after dt "scythe" m.
Proof.
  induction m as [|[k a] m IH]; intros sp sc.
  - simpl. split; [intro H; left; exact H |].
    intros [H | [a [[] _]]]. exact H.
  - rewrite live_after_cons. simpl.
    destruct (Qle_bool (a_timeLeft a - dt) 0) eqn:E.
    + apply Qle_bool_iff in E. rewrite IH. split.
      * intros [H | H]; [left; exact H | right; right; exact H].
      * intros [H | [[_ H] | H]]; [left; exact H | lra | right; exact H].
    + assert (Hl : dt < a_timeLeft a).
      { apply Qnot_le_lt. intro H.
        assert (H' : a_timeLeft a - dt <= 0) by lra.
        apply Qle_bool_iff in H'. congruence. }
      match goal with |- context [tickPowerUps dt base m ?s ?c] =>
        specialize (IH s c); destruct (tickPowerUps dt base m s c) as [[m' sp'] sc'] end.
      simpl in *. rewrite IH.
      destruct (String.eqb k "speed") eqn:E1.
      * apply String.eqb_eq in E1. subst k. split.
        -- intros [H | H]; [left; exact H | right; right; exact H].
        -- intros [H | [[H _] | H]];
             [left; exact H | discriminate | right; exact H].
      * destruct (String.eqb k "scythe") eqn:E2.
        -- apply String.eqb_eq in E2. subst k. split.
           ++ intros _. right. left. split; [reflexivity | exact Hl].
           ++ intros _. left. reflexivity.
        -- apply String.eqb_neq in E2. split.
           ++ intros [H | H]; [left; exact H | right; right; exact H].
           ++ intros [H | [[H _] | H]];
                [left; exact H | congruence | right; exact H].
Qed.

(** The speed after the loop: the one before it, or the boost of a speed
    entry that outlives the tick. *)
Lemma tickPowerUps_speed dt base m : forall sp sc,
  snd (fst (tickPowerUps dt base m sp sc)) = sp \/
  exists a, In ("speed"%string, a) m /\ dt < a_timeLeft a /\
            snd (fst (tickPowerUps dt base m sp sc)) = boosted base (a_data a).
Proof.
  induction m as [|[k a] m IH]; intros sp sc.
  - left. reflexivity.
  - simpl. destruct (Qle_bool (a_timeLeft a - dt) 0) eqn:E.
    + destruct (IH sp sc) as [H | [a' (H1 & H2 & H3)]]; [left; exact H|].
      right. exists a'. split; [right; exact H1 | split; assumption].
    + assert (Hl : dt < a_timeLeft a).
      { apply Qnot_le_lt. intro H.
        assert (H' : a_timeLeft a - dt <= 0) by lra.
        apply Qle_bool_iff in H'. congruence. }
      match goal with |- context [tickPowerUps dt base m ?s ?c] =>
        specialize (IH s c); destruct (tickPowerUps dt base m s c) as [[m' sp'] sc'] end.
      simpl in *.
      destruct IH as [H | [a' (H1 & H2 & H3)]].
      * destruct (String.eqb k "speed") eqn:E1; [|left; exact H].
        apply String.eqb_eq in E1. subst k. right. exists a.
        split; [left; reflexivity | split; [exact Hl | exact H]].
      * right. exists a'. split; [right; exact H1 | split; assumption].
Qed.

(** ** The invariant of the player *)

Lemma NoDup_keys_ticked dt m :
  NoDup (JsMap.keys m) -> NoDup (JsMap.keys (ticked dt m)).
Proof.
  unfold ticked, JsMap.keys.
  induction m as [|[k a] m IH]; intro H; simpl; [constructor|].
  inversion H as [|? ? Hn Hd]; subst.
  destruct (negb (Qle_bool (a_timeLeft a - dt) 0)); simpl; [|apply IH; exact Hd].
  constructor; [|apply IH; exact Hd].
  intro Hin. apply Hn. apply in_map_iff in Hin.
  destruct Hin as [[k' a'] [E Hin]]. simpl in E. subst k'.
  apply filter_In in Hin. destruct Hin as [Hin _].
  apply in_map_iff in Hin. destruct Hin as [[k2 a2] [E Hin]].
  inversion E; subst. apply in_map_iff. exists (k, a2). split; [reflexivity | exact Hin].
Qed.

Lemma In_ticked dt k a m :
  In (k, a) m -> dt < a_timeLeft a ->
  In (k, mkActive (a_timeLeft a - dt) (a_data a)) (ticked dt m).
Proof.
  intros Hin Hl. unfold ticked. apply filter_In. split.
  - apply in_map_iff. exists (k, a). split; [reflexivity | exact Hin].
  - simpl. apply negb_true_iff.
    destruct (Qle_bool (a_timeLeft a - dt) 0) eqn:E; [|reflexivity].
    apply Qle_bool_iff in E. lra.
Qed.

Lemma ticked_In dt e m :
  In e (ticked dt m) ->
  0 < a_timeLeft (snd e) /\
  exists a, In (fst e, a) m /\ a_data (snd e) = a_data a /\
            a_timeLeft (snd e) = a_timeLeft a - dt.
Proof.
  unfold ticked. intro H. apply filter_In in H. destruct H as [Hin Hf].
  apply in_map_iff in Hin. destruct Hin as [[k a] [E Hin]]. subst e. simpl in *.
  split.
  - apply negb_true_iff in Hf. apply Qnot_le_lt. intro H.
    apply Qle_bool_iff in H. congruence.
  - exists a. repeat split. exact Hin.
Qed.

Lemma updatePowerUps_map dt f : activePowerUps (updatePowerUps dt f) = ticked dt (activePowerUps f).
Proof.
  unfold updatePowerUps.
  pose proof (tickPowerUps_map dt (baseSpeed f) (activePowerUps f) (baseSpeed f) false) as H.
  destruct (tickPowerUps dt (baseSpeed f) (activePowerUps f) (baseSpeed f) false)
    as [[m sp] sc].
  exact H.
Qed.

Lemma updatePowerUps_scythe dt f :
  hasScythe (updatePowerUps dt f) = true <-> live_after dt "scythe" (activePowerUps f).
Proof.
  unfold updatePowerUps.
  pose proof (tickPowerUps_scythe dt (baseSpeed f) (activePowerUps f) (baseSpeed f) false)
    as H.
  destruct (tickPowerUps dt (baseSpeed f) (activePowerUps f) (baseSpeed f) false)
    as [[m sp] sc].
  simpl in *. rewrite H. split; [intros [H' | H']; [discriminate | exact H'] | auto].
Qed.

Lemma updatePowerUps_speed dt f :
  speed (updatePowerUps dt f) = baseSpeed f \/
  exists a, In ("speed"%string, a) (activePowerUps f) /\ dt < a_timeLeft a /\
            speed (updatePowerUps dt f) = boosted (baseSpeed f) (a_data a).
Proof.
  unfold updatePowerUps.
  pose proof (tickPowerUps_speed dt (baseSpeed f) (activePowerUps f) (baseSpeed f) false)
    as H.
  destruct (tickPowerUps dt (baseSpeed f) (activePowerUps f) (baseSpeed f) false)
    as [[m sp] sc].
  exact H.
Qed.

Lemma live_after_ticked dt k m :
  live_after dt k m -> live_after 0 k (ticked dt m).
Proof.
  intros [a [Hin Hl]].
  exists (mkActive (a_timeLeft a - dt) (a_data a)). split.
  - apply In_ticked; assumption.
  - simpl. lra.
Qed.

Lemma updatePowerUps_ok dt f :
  NoDup (JsMap.keys (activePowerUps f)) ->
  Forall entry_data_ok (activePowerUps f) ->
  Farmer_ok (updatePowerUps dt f).
Proof.
  intros Hn Hd. unfold Farmer_ok.
  destruct (updatePowerUps_fields dt f) as (_ & _ & _ & Hb).
  rewrite updatePowerUps_map, Hb.
  split; [apply NoDup_keys_ticked; exact Hn|].
  split.
  { apply Forall_forall. intros e He.
    destruct (ticked_In dt e _ He) as (Hpos & a & Hin & Hda & _).
    split; [exact Hpos|]. rewrite Hda.
    rewrite Forall_forall in Hd. apply (Hd _ Hin). }
  split.
  { intro H. apply live_after_ticked. apply updatePowerUps_scythe. exact H. }
  destruct (updatePowerUps_speed dt f) as [H | [a (Hin & Hl & H)]]; [left; exact H|].
  right. split.
  - apply live_after_ticked. exists a. split; assumption.
  - rewrite H. rewrite Forall_forall in Hd. specialize (Hd _ Hin).
    unfold entry_data_ok in Hd. simpl in Hd. rewrite Hd. reflexivity.
Qed.

Lemma In_set_new {V : Type} (k : string) (v : V) (m : JsMap.t V) :
  In (k, v) (JsMap.set k v m).
Proof.
  induction m as [|[k' v'] m IH]; simpl; [left; reflexivity|].
  destruct (String.eqb k k') eqn:E.
  - apply String.eqb_eq in E. subst k'. left. reflexivity.
  - right. exact IH.
Qed.

Lemma In_set_other {V : Type} (k k0 : string) (v v0 : V) (m : JsMap.t V) :
  k0 <> k -> In (k0, v0) m -> In (k0, v0) (JsMap.set k v m).
Proof.
  intros Hne. induction m as [|[k' v'] m IH]; simpl; [intros []|].
  destruct (String.eqb k k') eqn:E.
  - apply String.eqb_eq in E. subst k'.
    intros [H | H]; [inversion H; congruence | right; exact H].
  - intros [H | H]; [left; exact H | right; apply IH; exact H].
Qed.

Lemma live_after_set k k0 a m :
  0 < a_timeLeft a -> live_after 0 k0 m -> live_after 0 k0 (JsMap.set k a m).
Proof.
  intros Ha [a0 [Hin Hl]].
  destruct (string_dec k0 k) as [-> | Hne].
  - exists a. split; [apply In_set_new | exact Ha].
  - exists a0. split; [apply In_set_other; assumption | exact Hl].
Qed.

Lemma addPowerUp_ok p f :
  powerUp_data_ok p -> Farmer_ok f -> Farmer_ok (addPowerUp p f).
Proof.
  intros [Hdur Hdata] (Hn & Hf & Hs & Hsp). unfold Farmer_ok, addPowerUp. simpl.
  assert (Hpos : 0 < a_timeLeft (mkActive (duration p) (p_data p))).
  { simpl. rewrite Hdur. reflexivity. }
  split; [apply NoDup_keys_set; exact Hn|].
  split.
  { apply Forall_forall. intros e He. apply In_set in He.
    destruct He as [-> | He].
    - split; [exact Hpos | exact Hdata].
    - rewrite Forall_forall in Hf. apply Hf. exact He. }
  split.
  { intro H. apply live_after_set; [exact Hpos | apply Hs; exact H]. }
  destruct Hsp as [H | [Hl H]]; [left; exact H|].
  right. split; [apply live_after_set; [exact Hpos | exact Hl] | exact H].
Qed.

Lemma addPowerUps_ok (ps : list PowerUp) : forall f,
  Forall powerUp_data_ok ps -> Farmer_ok f ->
  Farmer_ok (fold_left (fun f p => addPowerUp (PowerUp_kill p) f) ps f).
Proof.
  induction ps as [|p ps IH]; intros f Hp Hf; [exact Hf|].
  inversion Hp as [|? ? Hp1 Hp2]; subst. simpl. apply IH; [exact Hp2|].
  apply addPowerUp_ok; [|exact Hf].
  destruct Hp1 as [H1 H2]. split; assumption.
Qed.

Lemma entry_ok_data m : Forall entry_ok m -> Forall entry_data_ok m.
Proof.
  intro H. eapply Forall_impl; [|exact H]. intros e [_ He]. exact He.
Qed.

Lemma Farmer_update_ok dt obs input f :
  Farmer_ok f -> Farmer_ok (Farmer_update dt obs (handleInput input f)).
Proof.
  intros (Hn & Hf & _).
  assert (Hu : Farmer_ok (updatePowerUps dt (handleInput input f))).
  { apply updatePowerUps_ok; [exact Hn | apply entry_ok_data; exact Hf]. }
  unfold Farmer_update. cbv zeta.
  match goal with |- context [if ?b then _ else _] => destruct b end; exact Hu.
Qed.

(** * Crops and power-ups through a frame *)

Section SpawnedEntities.

Variable PC : Crop -> Prop.
Variable PP : PowerUp -> Prop.
Hypothesis PC_new : forall x0 y0 t r, PC (new_Crop x0 y0 t r).
Hypothesis PP_new : forall x0 y0 t, PP (new_PowerUp x0 y0 t).

Lemma crop_spawn_loop_entities rnd : forall fuel n g,
  entities_ok PC PP g -> entities_ok PC PP (fst (crop_spawn_loop fuel rnd n g)).
Proof.
  induction fuel as [|k IH]; intros n g H; [exact H|].
  simpl. destruct (Qle_bool (spawnEvery g) (accumSpawn g)); [|exact H].
  unfold spawnCrop. apply IH. destruct H as [Hc Hp]. split; simpl; [|exact Hp].
  apply Forall_app. split; [exact Hc|]. constructor; [apply PC_new | constructor].
Qed.

Lemma powerUp_spawn_loop_entities rnd : forall fuel n g,
  entities_ok PC PP g -> entities_ok PC PP (fst (powerUp_spawn_loop fuel rnd n g)).
Proof.
  induction fuel as [|k IH]; intros n g H; [exact H|].
  simpl. destruct (Qle_bool (powerUpSpawnEvery g) (accumPowerUpSpawn g)); [|exact H].
  unfold spawnPowerUp. apply IH. destruct H as [Hc Hp]. split; simpl; [exact Hc|].
  apply Forall_app. split; [exact Hp|]. constructor; [apply PP_new | constructor].
Qed.

Lemma spawn_phase_entities rnd dt g :
  entities_ok PC PP g -> entities_ok PC PP (spawn_phase rnd dt g).
Proof.
  intro H. unfold spawn_phase.
  set (g1 := set_accumSpawn (accumSpawn g + dt) g).
  assert (H1 : entities_ok PC PP g1) by exact H.
  pose proof (crop_spawn_loop_entities rnd
                (loop_fuel (accumSpawn g1) (spawnEvery g1)) 0%nat g1 H1) as H2.
  destruct (crop_spawn_loop (loop_fuel (accumSpawn g1) (spawnEvery g1)) rnd 0%nat g1)
    as [g2 n].
  cbv beta iota zeta. change (fst (g2, n)) with g2 in H2.
  apply powerUp_spawn_loop_entities. exact H2.
Qed.

End SpawnedEntities.

Lemma filter_nil_map {A : Type} (f : A -> bool) (k : A -> A) (l : list A) :
  filter f l = [] -> map (fun a => if f a then k a else a) l = l.
Proof.
  induction l as [|a l IH]; [reflexivity|]. simpl.
  destruct (f a); [discriminate|]. intro H. rewrite (IH H). reflexivity.
Qed.

Lemma sum_values_acc (cs : list Crop) : forall a,
  fold_left (fun sum c => sum + value c) cs a == a + sum_values cs.
Proof.
  unfold sum_values. induction cs as [|c cs IH]; intro a; simpl.
  - ring.
  - rewrite IH. rewrite (IH (0 + value c)). ring.
Qed.

Lemma sum_values_nonneg (cs : list Crop) :
  Forall (fun c => 0 <= value c) cs -> 0 <= sum_values cs.
Proof.
  induction cs as [|c cs IH]; intro H.
  - apply Qle_refl.
  - inversion H; subst. unfold sum_values. simpl. rewrite sum_values_acc.
    specialize (IH ltac:(assumption)). lra.
Qed.

Lemma collect_crops_spec g :
  let collected := filter (collects (player g)) (crops g) in
  crops (collect_crops g) = mark_crops (player g) (crops g) /\
  score (collect_crops g) == score g + sum_values collected /\
  (collected = [] -> collect_crops g = g) /\
  (goal g <= score (collect_crops g) -> collected <> [] ->
   state (collect_crops g) = WIN) /\
  (score (collect_crops g) < goal g -> state (collect_crops g) = state g) /\
  pointTexts (collect_crops g) = pointTexts g ++ map pointText_of collected.
Proof.
  cbv zeta. unfold collect_crops, mark_crops.
  destruct (filter (collects (player g)) (crops g)) as [|c cs] eqn:E.
  - split; [symmetry; apply filter_nil_map; exact E|].
    split; [unfold sum_values; simpl; ring|].
    split; [reflexivity|].
    split; [intros _ H; congruence|].
    split; [reflexivity|].
    rewrite app_nil_r. reflexivity.
  - cbv zeta.
    set (g3 := set_score _ _).
    assert (Es : score g3 = score g + sum_values (c :: cs)) by reflexivity.
    assert (Eg : goal g3 = goal g) by reflexivity.
    destruct (Qle_bool (goal g3) (score g3)) eqn:Eb.
    + split; [reflexivity|]. split; [rewrite <- Es; reflexivity|].
      split; [discriminate|]. split; [reflexivity|]. split; [|reflexivity].
      intro H. apply Qle_bool_iff in Eb. rewrite Eg in Eb.
      change (score (set_state WIN g3)) with (score g3) in H. lra.
    + split; [reflexivity|]. split; [rewrite <- Es; reflexivity|].
      split; [discriminate|]. split; [|split; reflexivity].
      intros H _. rewrite <- Eg in H. apply Qle_bool_iff in H. congruence.
Qed.

Lemma after_spawn_player rnd dt g :
  player (after_spawn rnd dt g)
  = Farmer_update dt (obstacles g) (handleInput (input g) (player g)) /\
  score (after_spawn rnd dt g) = score g /\ goal (after_spawn rnd dt g) = goal g /\
  state (after_spawn rnd dt g) = state g /\
  pointTexts (after_spawn rnd dt g) = pointTexts g.
Proof.
  unfold after_spawn.
  pose proof (spawn_phase_core rnd dt
                (move_player dt (set_timeLeft (clamp (timeLeft g - dt) 0 GAME_LEN) g)))
    as H.
  unfold same_core in H. decompose [and] H.
  repeat split; assumption.
Qed.

Lemma playing_frame_spec rnd dt g :
  let mid := after_spawn rnd dt g in
  let g' := playing_frame rnd dt g in
  crops g' = map (Crop_update dt)
               (filter (fun c : Crop => negb (dead c))
                  (mark_crops (player mid) (crops mid))) /\
  powerUps g' = map (PowerUp_update dt)
                  (filter (fun p : PowerUp => negb (dead p))
                     (map (fun p : PowerUp =>
                             if aabb (player mid) p then PowerUp_kill p else p)
                        (powerUps mid))) /\
  player g' = fold_left (fun f p => addPowerUp (PowerUp_kill p) f)
                (filter (fun p : PowerUp => aabb (player mid) p) (powerUps mid))
                (player mid) /\
  score g' = score (collect_crops mid) /\
  state g' = state (collect_crops mid) /\
  pointTexts g' = filter (fun pt => Qltb 0 (life pt))
                    (map (age dt) (pointTexts (collect_crops mid))).
Proof.
  cbv zeta. unfold playing_frame. fold (after_spawn rnd dt g).
  set (mid := after_spawn rnd dt g).
  destruct (collect_crops_spec mid) as (Hc & _).
  destruct (collect_crops_fields mid) as (Hp & _ & _ & Hpu & _).
  split.
  { change (crops (age_pointTexts dt (cleanup dt (collect_powerUps (collect_crops mid)))))
      with (map (Crop_update dt)
              (filter (fun c : Crop => negb (dead c)) (crops (collect_crops mid)))).
    rewrite Hc. reflexivity. }
  split.
  { change (powerUps (age_pointTexts dt (cleanup dt (collect_powerUps (collect_crops mid)))))
      with (map (PowerUp_update dt)
              (filter (fun p : PowerUp => negb (dead p))
                 (map (fun p : PowerUp =>
                         if aabb (player (collect_crops mid)) p then PowerUp_kill p else p)
                    (powerUps (collect_crops mid))))).
    rewrite Hp, Hpu. reflexivity. }
  split.
  { change (player (age_pointTexts dt (cleanup dt (collect_powerUps (collect_crops mid)))))
      with (fold_left (fun f p => addPowerUp (PowerUp_kill p) f)
              (filter (fun p : PowerUp => aabb (player (collect_crops mid)) p)
                 (powerUps (collect_crops mid)))
              (player (collect_crops mid))).
    rewrite Hp, Hpu. reflexivity. }
  repeat split.
Qed.

(** With every crop alive, the crops that survive the marking and the
    clean-up are those the collection predicate rejects. *)
Lemma filter_mark_crops p (cs : list Crop) :
  Forall (fun c : Crop => dead c = false) cs ->
  filter (fun c : Crop => negb (dead c)) (mark_crops p cs)
  = filter (fun c => negb (collects p c)) cs.
Proof.
  unfold mark_crops. induction cs as [|c cs IH]; intro H; [reflexivity|].
  inversion H as [|? ? Ha Hr]; subst. simpl.
  destruct (collects p c); simpl.
  - apply IH. exact Hr.
  - rewrite Ha. simpl. rewrite (IH Hr). reflexivity.
Qed.

Lemma filter_mark_powerUps (p : Farmer) (ps : list PowerUp) :
  Forall (fun q : PowerUp => dead q = false) ps ->
  filter (fun q : PowerUp => negb (dead q))
    (map (fun q : PowerUp => if aabb p q then PowerUp_kill q else q) ps)
  = filter (fun q : PowerUp => negb (aabb p q)) ps.
Proof.
  induction ps as [|q ps IH]; intro H; [reflexivity|].
  inversion H as [|? ? Ha Hr]; subst. simpl.
  destruct (aabb p q); simpl.
  - apply IH. exact Hr.
  - rewrite Ha. simpl. rewrite (IH Hr). reflexivity.
Qed.

(** * The invariant of the game *)

Lemma cropData_value_pos t : 0 < cd_value (cropData t).
Proof.
  unfold cropData.
  destruct (String.eqb t "wheat"); [reflexivity|].
  destruct (String.eqb t "pumpkin"); [reflexivity|].
  destruct (String.eqb t "goldenApple"); reflexivity.
Qed.

(** A crop is worth 1, 3 or 5 points. *)
Lemma cropData_values t :
  cd_value (cropData t) = 1 \/ cd_value (cropData t) = 3 \/ cd_value (cropData t) = 5.
Proof.
  unfold cropData.
  destruct (String.eqb t "wheat"); [left; reflexivity|].
  destruct (String.eqb t "pumpkin"); [right; left; reflexivity|].
  destruct (String.eqb t "goldenApple"); [right; right | left]; reflexivity.
Qed.

Lemma crop_ok_value c : crop_ok c -> 0 <= value c.
Proof.
  intros (_ & Hv & _). rewrite Hv. apply Qlt_le_weak. apply cropData_value_pos.
Qed.

Lemma new_Crop_ok x0 y0 t r : crop_ok (new_Crop x0 y0 t r).
Proof. repeat split. Qed.

Lemma new_PowerUp_ok x0 y0 t : powerUp_ok (new_PowerUp x0 y0 t).
Proof. repeat split. Qed.

Lemma Farmer_ok_new x0 y0 : Farmer_ok (new_Farmer x0 y0).
Proof.
  unfold Farmer_ok. simpl. split; [constructor|]. split; [constructor|].
  split; [discriminate | left; reflexivity].
Qed.

Lemma Game_ok_new : Game_ok new_Game.
Proof.
  unfold Game_ok. simpl.
  split; [apply Farmer_ok_new|].
  repeat split; try constructor; try discriminate.
  all: destruct H; discriminate.
Qed.

Lemma Game_ok_reset now g : Game_ok g -> Game_ok (reset now g).
Proof.
  intros (_ & _ & _ & H1 & H2 & H3 & _). unfold Game_ok. simpl.
  split; [apply Farmer_ok_new|].
  repeat split; try constructor; try assumption; try discriminate.
  all: destruct H; discriminate.
Qed.

Lemma Game_ok_set_state s g :
  Game_ok g ->
  (s = PLAYING \/ s = PAUSED -> score g < goal g /\ 0 < timeLeft g) ->
  Game_ok (set_state s g).
Proof.
  intros (H1 & H2 & H3 & H4 & H5 & H6 & H7 & H8 & H9 & _) Hs.
  unfold Game_ok. simpl. split; [exact H1|].
  repeat split; try assumption; apply Hs; assumption.
Qed.

Lemma Game_ok_started now g : Game_ok g -> Game_ok (set_state PLAYING (reset now g)).
Proof.
  intro H. apply Game_ok_set_state; [apply Game_ok_reset; exact H|].
  intros _. simpl. destruct H as (_ & _ & _ & _ & _ & Hg & _). rewrite Hg.
  split; reflexivity.
Qed.

Lemma Game_ok_start now g : Game_ok g -> Game_ok (start now g).
Proof.
  intro H. unfold start. destruct (state g) eqn:E;
    try (apply Game_ok_started; exact H); [exact H|].
  apply Game_ok_set_state; [exact H|]. intros _.
  destruct H as (_ & _ & _ & _ & _ & _ & _ & _ & _ & Hp). apply Hp. right. exact E.
Qed.

Lemma Game_ok_togglePause g : Game_ok g -> Game_ok (togglePause g).
Proof.
  intro H. unfold togglePause. destruct (state g) eqn:E; try exact H;
    (apply Game_ok_set_state; [exact H|]; intros _;
     destruct H as (_ & _ & _ & _ & _ & _ & _ & _ & _ & Hp); apply Hp; auto).
Qed.

Lemma Game_ok_set_input i g : Game_ok g -> Game_ok (set_input i g).
Proof. intro H. exact H. Qed.

Lemma Game_ok_set_lastTime t g : Game_ok g -> Game_ok (set_lastTime t g).
Proof. intro H. exact H. Qed.

Lemma playing_frame_consts rnd dt g :
  spawnEvery (playing_frame rnd dt g) = spawnEvery g /\
  powerUpSpawnEvery (playing_frame rnd dt g) = powerUpSpawnEvery g.
Proof.
  unfold playing_frame.
  set (g2 := move_player dt (set_timeLeft (clamp (timeLeft g - dt) 0 GAME_LEN) g)).
  pose proof (spawn_phase_core rnd dt g2) as Hc.
  pose proof (collect_crops_fields (spawn_phase rnd dt g2)) as Hf.
  pose proof (tail_fields dt (collect_crops (spawn_phase rnd dt g2))) as Ht.
  cbv zeta in Ht. unfold same_core in Hc.
  decompose [and] Hc. decompose [and] Hf. decompose [and] Ht.
  assert (E1 : spawnEvery g2 = spawnEvery g) by reflexivity.
  assert (E2 : powerUpSpawnEvery g2 = powerUpSpawnEvery g) by reflexivity.
  split; congruence.
Qed.

Lemma after_spawn_entities rnd dt g :
  Forall crop_ok (crops g) -> Forall powerUp_ok (powerUps g) ->
  Forall crop_ok (crops (after_spawn rnd dt g)) /\
  Forall powerUp_ok (powerUps (after_spawn rnd dt g)).
Proof.
  intros Hc Hp. unfold after_spawn.
  apply (spawn_phase_entities crop_ok powerUp_ok new_Crop_ok new_PowerUp_ok).
  split; assumption.
Qed.

Lemma Forall_filter {A : Type} (P : A -> Prop) (f : A -> bool) (l : list A) :
  Forall P l -> Forall P (filter f l).
Proof.
  intro H. apply Forall_forall. intros a Ha. apply filter_In in Ha.
  rewrite Forall_forall in H. apply H. apply Ha.
Qed.

Lemma Forall_map_same {A : Type} (P : A -> Prop) (f : A -> A) (l : list A) :
  (forall a, P a -> P (f a)) -> Forall P l -> Forall P (map f l).
Proof.
  intros Hf H. induction H; simpl; constructor; auto.
Qed.

(** The score a running frame leaves. *)
Lemma playing_frame_score rnd dt g :
  let mid := after_spawn rnd dt g in
  score (playing_frame rnd dt g)
  == score g + sum_values (filter (collects (player mid)) (crops mid)).
Proof.
  cbv zeta.
  destruct (playing_frame_spec rnd dt g) as (_ & _ & _ & Hs & _).
  destruct (collect_crops_spec (after_spawn rnd dt g)) as (_ & Hsum & _).
  destruct (after_spawn_player rnd dt g) as (_ & Hsc & _).
  cbv zeta in *. rewrite Hs, Hsum, Hsc. reflexivity.
Qed.

Lemma Game_ok_playing_frame rnd dt g :
  Game_ok g -> state g = PLAYING ->
  Qle_bool (clamp (timeLeft g - dt) 0 GAME_LEN) 0 = false ->
  Game_ok (playing_frame rnd dt g) /\ score g <= score (playing_frame rnd dt g).
Proof.
  intros (Hf & Hc & Hp & H1 & H2 & H3 & H4 & H5 & H6 & H7) Hs Ht.
  destruct (playing_frame_spec rnd dt g) as (Ec & Ep & Epl & Esc & Est & _).
  destruct (playing_frame_fields rnd dt g) as (Etl & _ & _ & _ & _ & _ & _ & Eg & _).
  destruct (playing_frame_consts rnd dt g) as (Ese & Epe).
  destruct (after_spawn_entities rnd dt g Hc Hp) as (Hc' & Hp').
  destruct (after_spawn_player rnd dt g) as (Emp & Emsc & Emg & Emst & _).
  cbv zeta in *.
  set (mid := after_spawn rnd dt g) in *.
  set (g' := playing_frame rnd dt g) in *.
  assert (Hsum : 0 <= sum_values (filter (collects (player mid)) (crops mid))).
  { apply sum_values_nonneg. apply Forall_filter.
    eapply Forall_impl; [|exact Hc']. intros c. apply crop_ok_value. }
  pose proof (playing_frame_score rnd dt g) as Hscore. cbv zeta in Hscore.
  fold mid in Hscore. fold g' in Hscore.
  assert (Hmono : score g <= score g') by lra.
  split; [|exact Hmono].
  unfold Game_ok.
  split.
  { rewrite Epl. apply addPowerUps_ok.
    - apply Forall_filter. eapply Forall_impl; [|exact Hp']. intros p [_ H]. exact H.
    - rewrite Emp. apply Farmer_update_ok. exact Hf. }
  assert (Hca : Forall (fun c : Crop => dead c = false) (crops mid)).
  { eapply Forall_impl; [|exact Hc']. intros c H. apply H. }
  assert (Hpa : Forall (fun q : PowerUp => dead q = false) (powerUps mid)).
  { eapply Forall_impl; [|exact Hp']. intros q H. apply H. }
  split.
  { rewrite Ec, (filter_mark_crops _ _ Hca).
    apply Forall_map_same; [intros c H; exact H | apply Forall_filter; exact Hc']. }
  split.
  { rewrite Ep, (filter_mark_powerUps _ _ Hpa).
    apply Forall_map_same; [intros q H; exact H | apply Forall_filter; exact Hp']. }
  split; [rewrite Ese; exact H1|].
  split; [rewrite Epe; exact H2|].
  split; [rewrite Eg; exact H3|].
  assert (H60 : 0 <= GAME_LEN) by (unfold GAME_LEN; lra).
  destruct (clamp_bounds (timeLeft g - dt) 0 GAME_LEN H60) as (Hlo & Hhi).
  split; [rewrite Etl; exact Hlo|].
  split; [rewrite Etl; exact Hhi|].
  split; [lra|].
  intro Hst. split.
  - destruct (collect_crops_spec mid) as (_ & _ & Hnil & Hwin & _).
    cbv zeta in Hnil, Hwin.
    apply Qnot_le_lt. intro Hge. rewrite Eg in Hge.
    destruct (filter (collects (player mid)) (crops mid)) as [|c cs] eqn:E.
    + rewrite Esc, (Hnil eq_refl), Emsc in Hge.
      destruct (H7 (or_introl Hs)) as (Hlt & _). lra.
    + rewrite Esc, <- Emg in Hge.
      assert (Hw : state (collect_crops mid) = WIN) by (apply Hwin; [exact Hge | discriminate]).
      rewrite <- Est in Hw. destruct Hst as [Hst | Hst]; congruence.
  - rewrite Etl. apply Qnot_le_lt. intro H. apply Qle_bool_iff in H. congruence.
Qed.

Lemma Game_ok_update rnd dt g :
  Game_ok g -> Game_ok (update rnd dt g) /\ score g <= score (update rnd dt g).
Proof.
  intro H.
  destruct (State_eqb (state g) PLAYING) eqn:Es.
  - assert (Hs : state g = PLAYING) by (destruct (state g); try discriminate; reflexivity).
    destruct (Qle_bool (clamp (timeLeft g - dt) 0 GAME_LEN) 0) eqn:Et.
    + rewrite (update_timeout rnd dt g Hs Et). split; [|apply Qle_refl].
      destruct H as (H1 & H2 & H3 & H4 & H5 & H6 & H7 & H8 & H9 & _).
      assert (H60 : 0 <= GAME_LEN) by (unfold GAME_LEN; lra).
      destruct (clamp_bounds (timeLeft g - dt) 0 GAME_LEN H60) as (Hlo & Hhi).
      unfold Game_ok. simpl. split; [exact H1|].
      repeat split; try assumption.
      all: destruct (Qle_bool (goal g) (score g));
        match goal with Hx : _ \/ _ |- _ => destruct Hx; discriminate end.
    + rewrite (update_playing rnd dt g Hs Et).
      apply Game_ok_playing_frame; assumption.
  - rewrite update_not_playing; [split; [exact H | apply Qle_refl]|].
    intro Hs. rewrite Hs in Es. discriminate.
Qed.

Lemma Game_ok_step e g : Game_ok g -> Game_ok (step e g).
Proof.
  intro H. destruct e; simpl.
  - apply Game_ok_start. exact H.
  - apply Game_ok_reset. exact H.
  - apply Game_ok_togglePause. exact H.
  - unfold onKeyDown.
    destruct (String.eqb key "p" || String.eqb key "P")%bool;
      apply Game_ok_set_input; [apply Game_ok_togglePause|]; exact H.
  - apply Game_ok_set_input. exact H.
  - apply Game_ok_update. exact H.
  - unfold tick. apply Game_ok_update. apply Game_ok_set_lastTime. exact H.
Qed.

Theorem reachable_ok g : reachable g -> Game_ok g.
Proof.
  induction 1 as [|e g _ IH]; [apply Game_ok_new | apply Game_ok_step; exact IH].
Qed.

(** * Power-up effects *)

Lemma first_frame_reachable : reachable first_frame.
Proof.
  exact (reach_step (EUpdate (fun _ => 1 # 2) (33 # 1000)) _
           (reach_step (EStart 0) _ reach_new)).
Qed.



(** * Reaching the goal *)

(** C3: a PLAYING frame that takes the score from below the goal to the goal
    or beyond ends in WIN, with time left on the clock: the timer takes no
    part in it. *)
Theorem goal_reached_wins (rnd : nat -> Q) (dt : Q) (g : Game) :
  state g = PLAYING -> score g < goal g ->
  let g' := update rnd dt g in
  goal g <= score g' ->
  state g' = WIN /\ 0 < timeLeft g'.
Proof.
  intros Hs Hlt. cbv zeta. intro Hge.
  destruct (Qle_bool (clamp (timeLeft g - dt) 0 GAME_LEN) 0) eqn:Et.
  - rewrite (update_timeout rnd dt g Hs Et) in Hge. simpl in Hge. lra.
  - rewrite (update_playing rnd dt g Hs Et) in *.
    destruct (playing_frame_spec rnd dt g) as (_ & _ & _ & Esc & Est & _).
    destruct (playing_frame_fields rnd dt g) as (Etl & _).
    destruct (after_spawn_player rnd dt g) as (_ & Emsc & Emg & _).
    cbv zeta in *.
    destruct (collect_crops_spec (after_spawn rnd dt g)) as (_ & _ & Hnil & Hwin & _).
    cbv zeta in *.
    split.
    + rewrite Est. rewrite Esc, <- Emg in Hge. apply Hwin; [exact Hge|].
      intro E. rewrite (Hnil E), Emsc, Emg in Hge. lra.
    + rewrite Etl. apply Qnot_le_lt. intro H. apply Qle_bool_iff in H. congruence.
Qed.

(** The scenario of C3: a round begun at score 0 with goal 15; five golden
    apples (5 points each) are collected in one frame, which ends in WIN with
    56 of the 60 seconds left.  Collected one per frame, the third apple
    already ends the round. *)
Lemma goal_reached_wins_witness :
  let g := start 0 new_Game in
  let g' := update golden_here 4 g in
  (score g == 0 /\ goal g == 15) /\
  (state g' = WIN /\ 0 < timeLeft g') /\
  (score g' == 25 /\ timeLeft g' == 56) /\
  state (update golden_here (8 # 10) (update golden_here (8 # 10) g)) = PLAYING /\
  state (update golden_here (8 # 10)
           (update golden_here (8 # 10) (update golden_here (8 # 10) g))) = WIN.
Proof.
  cbv zeta.
  split; [split; reflexivity|].
  split.
  - apply (goal_reached_wins golden_here 4 (start 0 new_Game)).
    + reflexivity.
    + reflexivity.
    + vm_compute. discriminate.
  - split; [split; vm_compute; reflexivity|].
    split; vm_compute; reflexivity.
Defined.

(** * Which crops a frame collects *)


Lemma aabb_iff (a b : Entity) :
  aabb a b = true <->
  x a < x b + w b /\ x b < x a + w a /\ y a < y b + h b /\ y b < y a + h a.
Proof.
  unfold aabb. rewrite !andb_true_iff, !Qltb_lt. tauto.
Qed.



Lemma scythe_picked_up_reachable : reachable scythe_picked_up.
Proof.
  exact (reach_step (EUpdate scythe_round 12) _ (reach_step (EStart 0) _ reach_new)).
Qed.


(** * The score *)

Lemma run_frames_score frames : forall g,
  Game_ok g -> score g <= score (run_frames frames g).
Proof.
  induction frames as [|[rnd dt] frames IH]; intros g H; [apply Qle_refl|].
  simpl. destruct (Game_ok_update rnd dt g H) as (H' & Hle).
  eapply Qle_trans; [exact Hle | apply IH; exact H'].
Qed.

(** C7: from a reachable game, no sequence of frame updates lowers the
    score, each frame adding the sum of the values of the crops it collects,
    which is not negative; and a frame update of a game that is not in
    PLAYING returns the game as it was. *)
Theorem score_monotone (g : Game) :
  reachable g ->
  (forall frames, score g <= score (run_frames frames g)) /\
  (forall rnd dt,
     state g = PLAYING ->
     Qle_bool (clamp (timeLeft g - dt) 0 GAME_LEN) 0 = false ->
     let mid := after_spawn rnd dt g in
     let collected := filter (collects (player mid)) (crops mid) in
     score (update rnd dt g) == score g + sum_values collected /\
     0 <= sum_values collected) /\
  (forall rnd dt, state g <> PLAYING -> update rnd dt g = g).
Proof.
  intro Hr. pose proof (reachable_ok g Hr) as Hok.
  split; [intro frames; apply run_frames_score; exact Hok|].
  split; [|intros rnd dt; apply update_not_playing].
  intros rnd dt Hs Ht. cbv zeta.
  rewrite (update_playing rnd dt g Hs Ht).
  split; [apply playing_frame_score|].
  destruct Hok as (_ & Hc & Hp & _).
  destruct (after_spawn_entities rnd dt g Hc Hp) as (Hc' & _).
  apply sum_values_nonneg. apply Forall_filter.
  eapply Forall_impl; [|exact Hc']. intros c. apply crop_ok_value.
Qed.

Lemma score_monotone_witness :
  score first_frame
  <= score (run_frames [(golden_here, 8 # 10); (golden_here, 8 # 10)] first_frame) /\
  update golden_here 1 new_Game = new_Game.
Proof.
  pose proof (score_monotone first_frame first_frame_reachable) as (H1 & _).
  pose proof (score_monotone new_Game reach_new) as (_ & _ & H3).
  split; [apply H1|].
  apply H3. discriminate.
Defined.

(** * Further properties of the geometry helpers *)

(** X1: [clamp] with [lo <= hi] returns a value of [lo, hi], returns a value
    already in the range unchanged (as a number), the lower bound for values
    below and the upper bound for values above; with [hi < lo] it returns
    [hi] whatever the value. *)
Theorem clamp_cases (v lo hi : Q) :
  (lo <= hi -> lo <= clamp v lo hi /\ clamp v lo hi <= hi) /\
  (lo <= v -> v <= hi -> clamp v lo hi == v) /\
  (lo <= hi -> v <= lo -> clamp v lo hi == lo) /\
  (hi <= v -> clamp v lo hi == hi) /\
  (hi < lo -> clamp v lo hi == hi).
Proof.
  unfold clamp.
  split; [apply clamp_bounds|].
  split.
  { intros H1 H2. rewrite (Q.max_r lo v H1). apply Q.min_r. exact H2. }
  split.
  { intros H1 H2. rewrite (Q.max_l lo v H2). apply Q.min_r. exact H1. }
  split.
  { intro H. apply Q.min_l. eapply Qle_trans; [exact H | apply Q.le_max_r]. }
  intro H. apply Q.min_l. eapply Qle_trans; [apply Qlt_le_weak; exact H | apply Q.le_max_l].
Qed.

Lemma clamp_cases_witness :
  clamp 950 0 866 == 866 /\ clamp (-3) 0 866 == 0 /\ clamp 5 10 2 == 2.
Proof.
  split; [| split].
  - apply (proj1 (proj2 (proj2 (proj2 (clamp_cases 950 0 866))))).
    vm_compute. discriminate.
  - apply (proj1 (proj2 (proj2 (clamp_cases (-3) 0 866)))); vm_compute; discriminate.
  - apply (proj2 (proj2 (proj2 (proj2 (clamp_cases 5 10 2))))). reflexivity.
Defined.

(** X2: the overlap test is symmetric and strict: two boxes that only touch
    along an edge do not overlap, and a box overlaps itself exactly when its
    width and height are positive. *)
Theorem aabb_symmetric_strict (a b : Entity) :
  aabb a b = aabb b a /\
  (x a + w a <= x b -> aabb a b = false) /\
  (y a + h a <= y b -> aabb a b = false) /\
  (aabb a a = true <-> 0 < w a /\ 0 < h a).
Proof.
  split.
  { unfold aabb.
    destruct (Qltb (x a) (x b + w b)), (Qltb (x b) (x a + w a)),
             (Qltb (y a) (y b + h b)), (Qltb (y b) (y a + h a)); reflexivity. }
  split.
  { intro H. destruct (aabb a b) eqn:E; [|reflexivity].
    apply aabb_iff in E. lra. }
  split.
  { intro H. destruct (aabb a b) eqn:E; [|reflexivity].
    apply aabb_iff in E. lra. }
  rewrite aabb_iff. split; intro H; lra.
Qed.

Lemma aabb_symmetric_strict_witness :
  aabb (new_Entity 0 0 34 34) (new_Entity 34 0 20 26) = false.
Proof.
  apply (proj1 (proj2 (aabb_symmetric_strict (new_Entity 0 0 34 34) (new_Entity 34 0 20 26)))).
  vm_compute. discriminate.
Defined.

(** * Further properties of the keyboard *)

Lemma keys_has_In k i : keys_has k i = true <-> In k (keys i).
Proof.
  unfold keys_has. rewrite existsb_exists. split.
  - intros [k' [Hin E]]. apply String.eqb_eq in E. subst k'. exact Hin.
  - intro H. exists k. split; [exact H | apply String.eqb_refl].
Qed.

Lemma keys_has_false k i : keys_has k i = false <-> ~ In k (keys i).
Proof.
  rewrite <- keys_has_In. destruct (keys_has k i); split; congruence.
Qed.

Lemma keys_add_In k k' i : In k' (keys (keys_add k i)) <-> k' = k \/ In k' (keys i).
Proof.
  unfold keys_add. destruct (keys_has k i) eqn:E.
  - apply keys_has_In in E. split; [intro H; right; exact H|].
    intros [-> | H]; assumption.
  - simpl. rewrite in_app_iff. simpl. split.
    + intros [H | [H | []]]; [right; exact H | left; symmetry; exact H].
    + intros [H | H]; [right; left; symmetry; exact H | left; exact H].
Qed.

Lemma keys_delete_In k k' i : In k' (keys (keys_delete k i)) <-> k' <> k /\ In k' (keys i).
Proof.
  unfold keys_delete. simpl. rewrite filter_In, negb_true_iff. split.
  - intros [H E]. apply String.eqb_neq in E. split; [congruence | exact H].
  - intros [Hne H]. split; [exact H|]. apply String.eqb_neq. congruence.
Qed.

Lemma NoDup_keys_add k i : NoDup (keys i) -> NoDup (keys (keys_add k i)).
Proof.
  intro H. unfold keys_add. destruct (keys_has k i) eqn:E; [exact H|].
  simpl. apply NoDup_app; [exact H | constructor; [intros [] | constructor] |].
  intros a Ha [Hb | []]. subst a. apply keys_has_false in E. contradiction.
Qed.

Lemma NoDup_keys_delete k i : NoDup (keys i) -> NoDup (keys (keys_delete k i)).
Proof. intro H. unfold keys_delete. simpl. apply List.NoDup_filter. exact H. Qed.

Lemma togglePause_input g : input (togglePause g) = input g.
Proof. unfold togglePause. destruct (state g); reflexivity. Qed.

Lemma onKeyDown_input key g : input (onKeyDown key g) = keys_add key (input g).
Proof.
  unfold onKeyDown.
  destruct (String.eqb key "p" || String.eqb key "P")%bool; simpl;
    [rewrite togglePause_input|]; reflexivity.
Qed.

Lemma has_bool_ext k i i' :
  (In k (keys i) <-> In k (keys i')) -> keys_has k i = keys_has k i'.
Proof.
  intro H. destruct (keys_has k i') eqn:E.
  - apply keys_has_In. apply H. apply keys_has_In. exact E.
  - apply keys_has_false. intro Hin. apply keys_has_false in E. apply E, H, Hin.
Qed.

(** X3: the held-key set behaves as a set.  After a key-down the key is
    held, after a key-up it is not, neither touches another key, a key-down
    for a key already held leaves the set as it is, and a set without
    duplicates stays without duplicates. *)
Theorem held_keys (k : string) (g : Game) :
  keys_has k (input (onKeyDown k g)) = true /\
  keys_has k (input (onKeyUp k g)) = false /\
  (forall k', k' <> k ->
     keys_has k' (input (onKeyDown k g)) = keys_has k' (input g) /\
     keys_has k' (input (onKeyUp k g)) = keys_has k' (input g)) /\
  (keys_has k (input g) = true -> input (onKeyDown k g) = input g) /\
  (NoDup (keys (input g)) ->
   NoDup (keys (input (onKeyDown k g))) /\ NoDup (keys (input (onKeyUp k g)))).
Proof.
  rewrite onKeyDown_input.
  change (input (onKeyUp k g)) with (keys_delete k (input g)).
  split; [apply keys_has_In, keys_add_In; left; reflexivity|].
  split.
  { apply keys_has_false. rewrite keys_delete_In. intros [H _]. apply H. reflexivity. }
  split.
  { intros k' Hne. split; apply has_bool_ext.
    - rewrite keys_add_In. split; [intros [H | H]; [contradiction | exact H] | auto].
    - rewrite keys_delete_In. split; [intros [_ H]; exact H | auto]. }
  split.
  { intro H. unfold keys_add. rewrite H. reflexivity. }
  intro H. split; [apply NoDup_keys_add | apply NoDup_keys_delete]; exact H.
Qed.

Lemma held_keys_witness :
  keys_has "ArrowUp" (input (onKeyDown "ArrowLeft" new_Game))
  = keys_has "ArrowUp" (input new_Game) /\
  NoDup (keys (input (onKeyDown "ArrowLeft" new_Game))).
Proof.
  pose proof (held_keys "ArrowLeft" new_Game) as (_ & _ & H3 & _ & H5).
  split.
  - apply (H3 "ArrowUp"%string). discriminate.
  - apply H5. constructor.
Defined.

(** * Pausing *)





(** * The invariant of a round *)

Lemma Farmer_update_baseSpeed dt obs f :
  baseSpeed (Farmer_update dt obs f) = baseSpeed f.
Proof.
  unfold Farmer_update. cbv zeta.
  destruct (updatePowerUps_fields dt f) as (_ & _ & _ & Hb).
  match goal with |- context [if ?b then _ else _] => destruct b end;
    simpl; exact Hb.
Qed.

Lemma collect_crops_accum g :
  accumSpawn (collect_crops g) = accumSpawn g /\
  accumPowerUpSpawn (collect_crops g) = accumPowerUpSpawn g.
Proof.
  unfold collect_crops.
  destruct (filter (collects (player g)) (crops g)); [split; reflexivity|].
  cbv zeta.
  match goal with |- context [if ?b then _ else _] => destruct b end; split; reflexivity.
Qed.

Lemma playing_frame_accum rnd dt g :
  accumSpawn (playing_frame rnd dt g) = accumSpawn (after_spawn rnd dt g) /\
  accumPowerUpSpawn (playing_frame rnd dt g) = accumPowerUpSpawn (after_spawn rnd dt g) /\
  lastTime (playing_frame rnd dt g) = lastTime g /\
  baseSpeed (player (playing_frame rnd dt g)) = baseSpeed (player g).
Proof.
  unfold playing_frame. fold (after_spawn rnd dt g).
  destruct (collect_crops_accum (after_spawn rnd dt g)) as (H1 & H2).
  destruct (collect_crops_fields (after_spawn rnd dt g))
    as (Hp & _ & _ & Hpu & _ & _ & _ & _ & Hl).
  destruct (after_spawn_player rnd dt g) as (Emp & _).
  pose proof (spawn_phase_core rnd dt
                (move_player dt (set_timeLeft (clamp (timeLeft g - dt) 0 GAME_LEN) g)))
    as Hc.
  fold (after_spawn rnd dt g) in Hc.
  destruct Hc as (_ & _ & _ & _ & Hlt & _).
  set (X := collect_crops (after_spawn rnd dt g)) in *.
  split; [exact H1|]. split; [exact H2|]. split.
  - change (lastTime X = lastTime g). rewrite Hl. exact Hlt.
  - change (baseSpeed
              (fold_left (fun f p => addPowerUp (PowerUp_kill p) f)
                 (filter (fun p : PowerUp => aabb (player X) p) (powerUps X))
                 (player X)) = baseSpeed (player g)).
    destruct (addPowerUps_fields
                (filter (fun p : PowerUp => aabb (player X) p) (powerUps X))
                (player X)) as (_ & _ & Hb & _).
    rewrite Hb, Hp, Emp, Farmer_update_baseSpeed. reflexivity.
Qed.

Lemma in_field_update dt obs (f : Farmer) :
  0 <= WIDTH - w f -> 0 <= HEIGHT - h f ->
  in_field f -> in_field (Farmer_update dt obs f).
Proof.
  intros Hw Hh (H1 & H2 & H3 & H4).
  pose proof (Farmer_update_position dt obs f) as H. cbv zeta in H.
  destruct H as (Hhit & Hfree & Ew & Eh & _).
  unfold in_field. rewrite Ew, Eh.
  destruct (hits (Farmer_set_xy (proposed_x dt f) (proposed_y dt f)
                    (updatePowerUps dt f)) obs).
  - destruct (Hhit eq_refl) as (Ex & Ey). rewrite Ex, Ey. repeat split; assumption.
  - destruct (Hfree eq_refl) as (Ex & Ey). rewrite Ex, Ey.
    unfold proposed_x, proposed_y.
    destruct (clamp_bounds (x f + vx f * dt) 0 (WIDTH - w f) Hw).
    destruct (clamp_bounds (y f + vy f * dt) 0 (HEIGHT - h f) Hh).
    repeat split; assumption.
Qed.

Lemma Round_ok_new : Round_ok new_Game.
Proof.
  unfold Round_ok, in_field, pristine. simpl.
  split; [repeat split|].
  split; [repeat split; vm_compute; discriminate|].
  split; [reflexivity|].
  split; [right; split; reflexivity|].
  split; [constructor|].
  split; [split; reflexivity|].
  split; [constructor|].
  split; [discriminate|].
  split; [discriminate|].
  intros _. repeat split.
Qed.

Lemma Round_ok_reset now g : Game_ok g -> Round_ok g -> Round_ok (reset now g).
Proof.
  intros (_ & _ & _ & He & Hpe & _) (_ & _ & _ & _ & Hk & _).
  unfold Round_ok, in_field, pristine. simpl.
  split; [repeat split|].
  split; [repeat split; vm_compute; discriminate|].
  split; [vm_compute; reflexivity|].
  split; [left; reflexivity|].
  split; [exact Hk|].
  split; [rewrite He, Hpe; split; reflexivity|].
  split; [constructor|].
  split; [discriminate|].
  split; [discriminate|].
  intros _. repeat split.
Qed.

(** A change of state that keeps what the new state promises. *)
Lemma Round_ok_set_state s g :
  Round_ok g -> s <> MENU -> s <> GAME_OVER -> s <> WIN ->
  obstacles g = scarecrows ->
  Round_ok (set_state s g).
Proof.
  intros (H1 & H2 & H3 & H4 & H5 & H6 & H7 & _) Hm Ho Hw Hobs.
  unfold Round_ok. simpl.
  split; [exact H1|]. split; [exact H2|]. split; [exact H3|].
  split; [left; exact Hobs|].
  split; [exact H5|]. split; [exact H6|]. split; [exact H7|].
  split; [intro; contradiction|]. split; intro; contradiction.
Qed.

Lemma Round_ok_obstacles g :
  Round_ok g -> state g <> MENU -> obstacles g = scarecrows.
Proof.
  intros (_ & _ & _ & [H | [_ H]] & _) Hm; [exact H | contradiction].
Qed.

Lemma Round_ok_start now g : Game_ok g -> Round_ok g -> Round_ok (start now g).
Proof.
  intros Hg Hr.
  assert (Hfresh : Round_ok (set_state PLAYING (reset now g))).
  { apply Round_ok_set_state; try discriminate; [|reflexivity].
    apply Round_ok_reset; assumption. }
  unfold start. destruct (state g) eqn:E; try exact Hfresh; [exact Hr|].
  apply Round_ok_set_state; try discriminate; [exact Hr|].
  apply Round_ok_obstacles; [exact Hr | rewrite E; discriminate].
Qed.

Lemma Round_ok_togglePause g : Round_ok g -> Round_ok (togglePause g).
Proof.
  intro Hr. unfold togglePause. destruct (state g) eqn:E; try exact Hr;
    (apply Round_ok_set_state; try discriminate; [exact Hr|];
     apply Round_ok_obstacles; [exact Hr | rewrite E; discriminate]).
Qed.

Lemma Round_ok_set_input i g :
  NoDup (keys i) -> Round_ok g -> Round_ok (set_input i g).
Proof.
  intros Hi (H1 & H2 & H3 & H4 & _ & H6).
  unfold Round_ok. simpl.
  split; [exact H1|]. split; [exact H2|]. split; [exact H3|].
  split; [exact H4|]. split; [exact Hi | exact H6].
Qed.

Lemma Round_ok_set_lastTime t g : Round_ok g -> Round_ok (set_lastTime t g).
Proof. intro H. exact H. Qed.

Lemma Round_ok_timeout g dt :
  Game_ok g -> Round_ok g -> state g = PLAYING ->
  Qle_bool (clamp (timeLeft g - dt) 0 GAME_LEN) 0 = true ->
  Round_ok (set_state (if Qle_bool (goal g) (score g) then WIN else GAME_OVER)
              (set_timeLeft (clamp (timeLeft g - dt) 0 GAME_LEN) g)).
Proof.
  intros Hg Hr Hs Ht.
  pose proof (Round_ok_obstacles g Hr ltac:(rewrite Hs; discriminate)) as Hobs.
  destruct Hr as (H1 & H2 & H3 & _ & H5 & H6 & H7 & _).
  apply Qle_bool_iff in Ht.
  assert (H60 : 0 <= GAME_LEN) by (unfold GAME_LEN; lra).
  destruct (clamp_bounds (timeLeft g - dt) 0 GAME_LEN H60) as (Hlo & _).
  unfold Round_ok. simpl.
  split; [exact H1|]. split; [exact H2|]. split; [exact H3|].
  split; [left; exact Hobs|].
  split; [exact H5|]. split; [exact H6|]. split; [exact H7|].
  destruct (Qle_bool (goal g) (score g)) eqn:Eg.
  - apply Qle_bool_iff in Eg.
    split; [discriminate|]. split; [intros _; exact Eg | discriminate].
  - split; [|split; discriminate].
    intros _. split; [apply Qle_antisym; assumption|].
    apply Qnot_le_lt. intro H. apply Qle_bool_iff in H. congruence.
Qed.

Lemma Forall_life_filter (pts : list PointText) :
  Forall (fun pt => 0 < life pt) (filter (fun pt => Qltb 0 (life pt)) pts).
Proof.
  apply Forall_forall. intros pt H. apply filter_In in H.
  apply Qltb_lt. apply H.
Qed.

Lemma Round_ok_playing_frame rnd dt g :
  Game_ok g -> Round_ok g -> state g = PLAYING ->
  Qle_bool (clamp (timeLeft g - dt) 0 GAME_LEN) 0 = false ->
  Round_ok (playing_frame rnd dt g).
Proof.
  intros Hg Hr Hs Ht.
  pose proof (Round_ok_obstacles g Hr ltac:(rewrite Hs; discriminate)) as Hobs.
  destruct Hr as ((Hb & Hw & Hh) & Hin & Hhit & _ & Hk & _).
  destruct Hg as (_ & _ & _ & He & Hpe & _).
  destruct (playing_frame_fields rnd dt g)
    as (_ & Eo & Eent & _ & _ & _ & _ & Eg & Ei).
  destruct (playing_frame_accum rnd dt g) as (Ea & Eap & _ & Eb).
  destruct (playing_frame_consts rnd dt g) as (Ese & Epe).
  destruct (playing_frame_spec rnd dt g) as (_ & _ & _ & Esc & Est & Ept).
  destruct (after_spawn_player rnd dt g) as (_ & Emsc & Emg & Emst & _).
  cbv zeta in *.
  set (p0 := handleInput (input g) (player g)) in *.
  assert (Hw0 : w p0 = 34) by exact Hw.
  assert (Hh0 : h p0 = 34) by exact Hh.
  pose proof (Farmer_update_position dt (obstacles g) p0) as Hpos.
  cbv zeta in Hpos. destruct Hpos as (_ & _ & Ew & Eh & _).
  unfold Round_ok.
  split.
  { rewrite Eb, Eent, Ew, Eh. repeat split; assumption. }
  split.
  { assert (Hf : in_field (Farmer_update dt (obstacles g) p0)).
    { apply in_field_update.
      - rewrite Hw0. vm_compute. discriminate.
      - rewrite Hh0. vm_compute. discriminate.
      - exact Hin. }
    unfold in_field in *. rewrite Eent. exact Hf. }
  split.
  { rewrite Eo. rewrite (hits_ent _ _ (obstacles g) Eent).
    apply Farmer_update_stays_clear. exact Hhit. }
  split; [left; rewrite Eo; exact Hobs|].
  split; [rewrite Ei; exact Hk|].
  split.
  { rewrite Ea, Eap, Ese, Epe.
    assert (P1 : 0 < spawnEvery (move_player dt
                       (set_timeLeft (clamp (timeLeft g - dt) 0 GAME_LEN) g)))
      by (simpl; rewrite He; reflexivity).
    assert (P2 : 0 < powerUpSpawnEvery (move_player dt
                       (set_timeLeft (clamp (timeLeft g - dt) 0 GAME_LEN) g)))
      by (simpl; rewrite Hpe; reflexivity).
    exact (spawn_phase_exits rnd dt _ P1 P2). }
  split; [rewrite Ept; apply Forall_life_filter|].
  destruct (playing_frame_state rnd dt g) as [E | E].
  - rewrite E, Hs. split; [discriminate|]. split; discriminate.
  - rewrite E. split; [discriminate|]. split; [|discriminate].
    intros _. rewrite Eg, Esc.
    destruct (collect_crops_spec (after_spawn rnd dt g)) as (_ & _ & _ & _ & Hlt & _).
    cbv zeta in Hlt.
    apply Qnot_lt_le. intro Hc. rewrite <- Emg in Hc.
    specialize (Hlt Hc). rewrite <- Est, E, Emst, Hs in Hlt. discriminate.
Qed.

Lemma Round_ok_update rnd dt g :
  Game_ok g -> Round_ok g -> Round_ok (update rnd dt g).
Proof.
  intros Hg Hr.
  destruct (State_eqb (state g) PLAYING) eqn:Es.
  - assert (Hs : state g = PLAYING) by (destruct (state g); try discriminate; reflexivity).
    destruct (Qle_bool (clamp (timeLeft g - dt) 0 GAME_LEN) 0) eqn:Et.
    + rewrite (update_timeout rnd dt g Hs Et). apply Round_ok_timeout; assumption.
    + rewrite (update_playing rnd dt g Hs Et). apply Round_ok_playing_frame; assumption.
  - rewrite update_not_playing; [exact Hr|].
    intro Hs. rewrite Hs in Es. discriminate.
Qed.

Lemma Round_ok_step e g : Game_ok g -> Round_ok g -> Round_ok (step e g).
Proof.
  intros Hg Hr. destruct e; simpl.
  - apply Round_ok_start; assumption.
  - apply Round_ok_reset; assumption.
  - apply Round_ok_togglePause. exact Hr.
  - assert (Hk : NoDup (keys (input g))) by apply Hr.
    unfold onKeyDown.
    destruct (String.eqb key "p" || String.eqb key "P")%bool.
    + apply Round_ok_set_input; [|apply Round_ok_togglePause; exact Hr].
      rewrite togglePause_input. apply NoDup_keys_add. exact Hk.
    + apply Round_ok_set_input; [apply NoDup_keys_add; exact Hk | exact Hr].
  - apply Round_ok_set_input; [|exact Hr].
    apply NoDup_keys_delete. apply Hr.
  - apply Round_ok_update; assumption.
  - unfold tick. apply Round_ok_update; [apply Game_ok_set_lastTime; exact Hg|].
    apply Round_ok_set_lastTime. exact Hr.
Qed.

Lemma reachable_round g : reachable g -> Game_ok g /\ Round_ok g.
Proof.
  induction 1 as [|e g _ [Hg Hr]].
  - split; [apply Game_ok_new | apply Round_ok_new].
  - split; [apply Game_ok_step; exact Hg | apply Round_ok_step; assumption].
Qed.

(** * Further properties of the player *)

(** X5: [handleInput] writes the velocity and nothing else.  On each axis
    the velocity is the speed when only the positive key is held, minus the
    speed when only the negative key is held, and zero when both or neither
    are held; a diagonal is not normalised, both components having the full
    speed. *)
Theorem handleInput_axes (i : Input) (f : Farmer) :
  let f' := handleInput i f in
  let L := keys_has "ArrowLeft" i in
  let R := keys_has "ArrowRight" i in
  let U := keys_has "ArrowUp" i in
  let D := keys_has "ArrowDown" i in
  (f_ent f' = f_ent f /\ speed f' = speed f /\ baseSpeed f' = baseSpeed f /\
   activePowerUps f' = activePowerUps f /\ hasScythe f' = hasScythe f) /\
  (R = true -> L = false -> vx f' == speed f) /\
  (L = true -> R = false -> vx f' == - speed f) /\
  (L = R -> vx f' == 0) /\
  (D = true -> U = false -> vy f' == speed f) /\
  (U = true -> D = false -> vy f' == - speed f) /\
  (U = D -> vy f' == 0) /\
  (L <> R -> U <> D -> vx f' * vx f' + vy f' * vy f' == 2 * (speed f * speed f)).
Proof.
  cbv zeta. unfold handleInput. simpl.
  split; [repeat split|].
  destruct (keys_has "ArrowLeft" i), (keys_has "ArrowRight" i),
           (keys_has "ArrowUp" i), (keys_has "ArrowDown" i);
    unfold num_of_bool;
    repeat split; intros; try discriminate; try congruence; ring.
Qed.

Lemma handleInput_axes_witness :
  vx (handleInput (mkInput ["ArrowLeft"; "ArrowRight"]%string) (new_Farmer 0 0)) == 0 /\
  vx (handleInput (mkInput ["ArrowLeft"]%string) (new_Farmer 0 0)) == - 260.
Proof.
  split.
  - apply (proj1 (proj2 (proj2 (proj2
             (handleInput_axes (mkInput ["ArrowLeft"; "ArrowRight"]%string)
                (new_Farmer 0 0)))))).
    reflexivity.
  - apply (proj1 (proj2 (proj2
             (handleInput_axes (mkInput ["ArrowLeft"]%string) (new_Farmer 0 0)))));
      reflexivity.
Defined.

Lemma hits_false_iff (f : Farmer) obs :
  hits f obs = false <-> forall o : Scarecrow, In o obs -> aabb f o = false.
Proof.
  unfold hits. split.
  - intros H o Hin. destruct (aabb f o) eqn:E; [|reflexivity].
    assert (Ht : existsb (fun o0 : Scarecrow => aabb f o0) obs = true)
      by (apply existsb_exists; exists o; split; assumption).
    congruence.
  - intro H. destruct (existsb (fun o : Scarecrow => aabb f o) obs) eqn:E; [|reflexivity].
    apply existsb_exists in E. destruct E as [o [Hin Ho]].
    rewrite (H o Hin) in Ho. discriminate.
Qed.

(** X6: in every reachable game the player is a 34 by 34 box that lies in
    the playfield (0 <= x <= 866, 0 <= y <= 506) and overlaps no obstacle. *)
Theorem player_in_playfield (g : Game) :
  reachable g ->
  w (player g) = 34 /\ h (player g) = 34 /\
  0 <= x (player g) /\ x (player g) <= 866 /\
  0 <= y (player g) /\ y (player g) <= 506 /\
  (forall o : Scarecrow, In o (obstacles g) -> aabb (player g) o = false).
Proof.
  intro H. destruct (reachable_round g H) as (_ & (_ & Hw & Hh) & Hin & Hhit & _).
  destruct Hin as (H1 & H2 & H3 & H4). rewrite Hw in H2. rewrite Hh in H4.
  unfold WIDTH in H2. unfold HEIGHT in H4.
  split; [exact Hw|]. split; [exact Hh|].
  split; [exact H1|]. split; [lra|]. split; [exact H3|]. split; [lra|].
  apply hits_false_iff. exact Hhit.
Qed.

Lemma player_in_playfield_witness :
  x (player scythe_picked_up) <= 866 /\
  (forall o : Scarecrow, In o (obstacles scythe_picked_up) ->
                         aabb (player scythe_picked_up) o = false).
Proof.
  pose proof (player_in_playfield scythe_picked_up scythe_picked_up_reachable)
    as (_ & _ & _ & H4 & _ & _ & H7).
  split; [exact H4 | exact H7].
Defined.

Lemma reachable_speed (g : Game) :
  reachable g ->
  baseSpeed (player g) = 260 /\
  (speed (player g) = 260 \/ speed (player g) = 260 * (18 # 10)).
Proof.
  intro H. destruct (reachable_round g H) as ((Hf & _) & (Hb & _) & _).
  destruct Hf as (_ & _ & _ & Hsp). rewrite Hb in Hsp.
  split; [exact Hb|].
  destruct Hsp as [E | [_ E]]; [left | right]; exact E.
Qed.

(** X7: in every reachable game the base speed is 260 and the speed is 260
    or 1.8 times 260, that is 468. *)
Theorem speed_values (g : Game) :
  reachable g ->
  baseSpeed (player g) = 260 /\
  (speed (player g) = 260 \/ speed (player g) = 260 * (18 # 10)) /\
  (speed (player g) == 260 \/ speed (player g) == 468).
Proof.
  intro H. destruct (reachable_speed g H) as (Hb & Hsp).
  split; [exact Hb|].
  destruct Hsp as [E | E]; rewrite E.
  - split; left; reflexivity.
  - split; right; reflexivity.
Qed.

Lemma speed_values_witness :
  speed (player first_frame) == 260 \/ speed (player first_frame) == 468.
Proof.
  apply (proj2 (proj2 (speed_values first_frame first_frame_reachable))).
Defined.

Lemma clamp_step (v e d lo hi : Q) :
  lo <= v -> v <= hi -> - d <= e -> e <= d ->
  v - d <= clamp (v + e) lo hi /\ clamp (v + e) lo hi <= v + d.
Proof.
  intros H1 H2 Hd1 Hd2. unfold clamp.
  pose proof (Q.max_spec lo (v + e)) as Hm.
  pose proof (Q.min_spec hi (Qmax lo (v + e))) as Hn.
  set (m := Qmax lo (v + e)) in *. set (n := Qmin hi m) in *.
  destruct Hm as [[Hm1 Hm2] | [Hm1 Hm2]]; destruct Hn as [[Hn1 Hn2] | [Hn1 Hn2]];
    split; lra.
Qed.

Lemma axis_bound (b1 b2 : bool) (sp dt : Q) :
  0 <= sp * dt ->
  - (sp * dt) <= (num_of_bool b1 - num_of_bool b2) * sp * dt /\
  (num_of_bool b1 - num_of_bool b2) * sp * dt <= sp * dt.
Proof.
  intro H. set (P := sp * dt) in *.
  assert (E : (num_of_bool b1 - num_of_bool b2) * sp * dt
              == (num_of_bool b1 - num_of_bool b2) * P) by (unfold P; ring).
  rewrite E. destruct b1, b2; unfold num_of_bool; split; lra.
Qed.

(** X8: a frame of a reachable game moves the player by at most the speed
    the frame began with times the elapsed time, on each axis. *)
Theorem frame_displacement (rnd : nat -> Q) (dt : Q) (g : Game) :
  reachable g -> 0 <= dt ->
  let p := player g in
  let p' := player (update rnd dt g) in
  let d := speed p * dt in
  (x p - d <= x p' /\ x p' <= x p + d) /\
  (y p - d <= y p' /\ y p' <= y p + d).
Proof.
  intros Hr Hdt. cbv zeta.
  destruct (reachable_speed g Hr) as (_ & Hsp).
  assert (Hs0 : 0 <= speed (player g))
    by (destruct Hsp as [E | E]; rewrite E; vm_compute; discriminate).
  assert (Hd : 0 <= speed (player g) * dt) by (apply Qmult_le_0_compat; assumption).
  assert (Hsame : forall p' : Farmer,
            f_ent p' = f_ent (player g) ->
            (x (player g) - speed (player g) * dt <= x p' /\
             x p' <= x (player g) + speed (player g) * dt) /\
            (y (player g) - speed (player g) * dt <= y p' /\
             y p' <= y (player g) + speed (player g) * dt)).
  { intros p' E. rewrite E. repeat split; lra. }
  destruct (State_eqb (state g) PLAYING) eqn:Es.
  - assert (Hs : state g = PLAYING) by (destruct (state g); try discriminate; reflexivity).
    destruct (Qle_bool (clamp (timeLeft g - dt) 0 GAME_LEN) 0) eqn:Et.
    + rewrite (update_timeout rnd dt g Hs Et). apply Hsame. reflexivity.
    + rewrite (update_playing rnd dt g Hs Et).
      destruct (playing_frame_fields rnd dt g) as (_ & _ & Eent & _).
      cbv zeta in Eent. rewrite Eent.
      destruct (reachable_round g Hr) as (_ & (_ & Hw & Hh) & Hin & _).
      destruct Hin as (I1 & I2 & I3 & I4).
      set (p0 := handleInput (input g) (player g)).
      pose proof (Farmer_update_position dt (obstacles g) p0) as Hpos.
      cbv zeta in Hpos. destruct Hpos as (Hhit & Hfree & _).
      destruct (hits (Farmer_set_xy (proposed_x dt p0) (proposed_y dt p0)
                        (updatePowerUps dt p0)) (obstacles g)).
      * destruct (Hhit eq_refl) as (Ex & Ey). rewrite Ex, Ey.
        change (x p0) with (x (player g)). change (y p0) with (y (player g)).
        repeat split; lra.
      * destruct (Hfree eq_refl) as (Ex & Ey). rewrite Ex, Ey.
        unfold proposed_x, proposed_y.
        change (x p0) with (x (player g)). change (y p0) with (y (player g)).
        change (w p0) with (w (player g)). change (h p0) with (h (player g)).
        change (vx p0) with ((num_of_bool (keys_has "ArrowRight" (input g))
                              - num_of_bool (keys_has "ArrowLeft" (input g)))
                             * speed (player g)).
        change (vy p0) with ((num_of_bool (keys_has "ArrowDown" (input g))
                              - num_of_bool (keys_has "ArrowUp" (input g)))
                             * speed (player g)).
        split; apply clamp_step; try assumption; apply axis_bound; exact Hd.
  - rewrite update_not_playing; [apply Hsame; reflexivity|].
    intro Hs. rewrite Hs in Es. discriminate.
Qed.

Lemma frame_displacement_witness :
  x (player first_frame) - speed (player first_frame) * (33 # 1000)
  <= x (player (update golden_here (33 # 1000) first_frame)).
Proof.
  apply (frame_displacement golden_here (33 # 1000) first_frame first_frame_reachable).
  vm_compute. discriminate.
Defined.

(** * Further properties of the state machine *)

(** X9: what each state of a reachable game says about the round.  The
    timer is within [0, 60], the score is not negative and the goal is 15; in
    PLAYING and PAUSED there is time left and the score is below the goal; in
    GAME_OVER the timer is zero and the score is below the goal; in WIN the
    score has reached the goal; in MENU the round is untouched (score 0, full
    timer, no crops, power-ups or texts, the player at its start). *)
Theorem state_meaning (g : Game) :
  reachable g ->
  (0 <= timeLeft g /\ timeLeft g <= 60 /\ 0 <= score g /\ goal g = 15) /\
  (state g = PLAYING \/ state g = PAUSED -> 0 < timeLeft g /\ score g < 15) /\
  (state g = GAME_OVER -> timeLeft g == 0 /\ score g < 15) /\
  (state g = WIN -> 15 <= score g) /\
  (state g = MENU -> pristine g).
Proof.
  intro H. destruct (reachable_round g H) as (Hg & Hr).
  destruct Hg as (_ & _ & _ & _ & _ & Eg & T1 & T2 & S0 & Hp).
  destruct Hr as (_ & _ & _ & _ & _ & _ & _ & Ho & Hw & Hm).
  rewrite Eg in *.
  split; [repeat split; assumption|].
  split; [intro Hs; destruct (Hp Hs); split; assumption|].
  split; [exact Ho|]. split; assumption.
Qed.

Lemma state_meaning_witness :
  0 < timeLeft first_frame /\ score first_frame < 15.
Proof.
  apply (proj1 (proj2 (state_meaning first_frame first_frame_reachable))).
  left. vm_compute. reflexivity.
Defined.

(** X10: a reachable round is never won on the clock.  The frame in which
    the timer runs out ends in GAME_OVER, so the branch of [update] that sets
    WIN at time zero is never taken; and a PLAYING frame that ends in WIN has
    time left and a score that this frame took from below the goal to the
    goal or beyond. *)
Theorem no_win_on_timeout (rnd : nat -> Q) (dt : Q) (g : Game) :
  reachable g -> state g = PLAYING ->
  let g' := update rnd dt g in
  (timeLeft g <= dt -> state g' = GAME_OVER /\ timeLeft g' == 0) /\
  (state g' = WIN -> 0 < timeLeft g' /\ score g < goal g /\ goal g <= score g').
Proof.
  intros Hr Hs. cbv zeta.
  destruct (reachable_round g Hr) as (Hg & _).
  destruct Hg as (_ & _ & _ & _ & _ & _ & T1 & T2 & _ & Hp).
  destruct (Hp (or_introl Hs)) as (Hlt & Hpos).
  assert (H60 : 0 <= GAME_LEN) by (unfold GAME_LEN; lra).
  destruct (Qle_bool (clamp (timeLeft g - dt) 0 GAME_LEN) 0) eqn:Et.
  - rewrite (update_timeout rnd dt g Hs Et).
    assert (Eg : Qle_bool (goal g) (score g) = false).
    { destruct (Qle_bool (goal g) (score g)) eqn:E; [|reflexivity].
      apply Qle_bool_iff in E. lra. }
    rewrite Eg. split; [|discriminate].
    intros _. split; [reflexivity|]. simpl.
    apply Qle_bool_iff in Et. apply Qle_antisym; [exact Et|].
    apply (clamp_bounds _ 0 _ H60).
  - split.
    + intro Hle. exfalso.
      assert (Hv : timeLeft g - dt <= GAME_LEN) by lra.
      assert (Hc : clamp (timeLeft g - dt) 0 GAME_LEN <= 0)
        by (apply (clamp_le0 _ _ Hv H60); lra).
      apply Qle_bool_iff in Hc. congruence.
    + intro Hw. rewrite (update_playing rnd dt g Hs Et) in *.
      destruct (reachable_round _ (reach_step (EUpdate rnd dt) g Hr)) as (_ & Hr').
      simpl in Hr'. rewrite (update_playing rnd dt g Hs Et) in Hr'.
      destruct Hr' as (_ & _ & _ & _ & _ & _ & _ & _ & Hwin & _).
      destruct (playing_frame_fields rnd dt g) as (Etl & _ & _ & _ & _ & _ & _ & Eg & _).
      cbv zeta in *.
      split; [|split; [exact Hlt | rewrite <- Eg; apply Hwin; exact Hw]].
      rewrite Etl. apply Qnot_le_lt. intro H. apply Qle_bool_iff in H. congruence.
Qed.

Lemma no_win_on_timeout_witness :
  state (update golden_here 100 first_frame) = GAME_OVER.
Proof.
  apply (no_win_on_timeout golden_here 100 first_frame first_frame_reachable).
  - vm_compute. reflexivity.
  - vm_compute. discriminate.
Defined.

(** X11: the obstacles of a reachable game are the two scarecrows at
    (200, 220) and (650, 160), except that a game nobody has started or
    reset yet, still in MENU, may have none; and no frame changes them. *)
Theorem obstacles_fixed (g : Game) :
  reachable g ->
  (obstacles g = scarecrows \/ (obstacles g = [] /\ state g = MENU)) /\
  (state g <> MENU -> obstacles g = scarecrows) /\
  (forall rnd dt, obstacles (update rnd dt g) = obstacles g) /\
  (forall rnd ts, obstacles (tick rnd ts g) = obstacles g).
Proof.
  intro H. destruct (reachable_round g H) as (_ & Hr).
  assert (Hu : forall rnd dt g0, obstacles (update rnd dt g0) = obstacles g0).
  { intros rnd dt g0. destruct (State_eqb (state g0) PLAYING) eqn:Es.
    - assert (Hs : state g0 = PLAYING)
        by (destruct (state g0); try discriminate; reflexivity).
      destruct (Qle_bool (clamp (timeLeft g0 - dt) 0 GAME_LEN) 0) eqn:Et.
      + rewrite (update_timeout rnd dt g0 Hs Et). reflexivity.
      + rewrite (update_playing rnd dt g0 Hs Et).
        apply (playing_frame_fields rnd dt g0).
    - rewrite update_not_playing; [reflexivity|].
      intro Hs. rewrite Hs in Es. discriminate. }
  split; [apply Hr|]. split; [apply Round_ok_obstacles; exact Hr|].
  split; [intros rnd dt; apply Hu|].
  intros rnd ts. unfold tick. rewrite Hu. reflexivity.
Qed.

Lemma obstacles_fixed_witness : obstacles first_frame = scarecrows.
Proof.
  apply (proj1 (proj2 (obstacles_fixed first_frame first_frame_reachable))).
  vm_compute. discriminate.
Defined.

(** * Further properties of spawning *)

Lemma floor_count_zero (acc every : Q) :
  0 < every -> acc < every -> Z.to_nat (Qfloor (acc / every)) = 0%nat.
Proof.
  intros He Ha.
  assert (H1 : acc / every < 1) by (apply Qlt_shift_div_r; [exact He | lra]).
  pose proof (Qfloor_le (acc / every)) as Hf.
  assert (H : inject_Z (Qfloor (acc / every)) < inject_Z 1)
    by (change (inject_Z 1) with 1; lra).
  rewrite <- Zlt_Qlt in H. lia.
Qed.

Lemma floor_count_step (acc every : Q) :
  0 < every -> every <= acc ->
  Z.to_nat (Qfloor (acc / every)) = S (Z.to_nat (Qfloor ((acc - every) / every))).
Proof.
  intros He Ha.
  assert (E : (acc - every) / every == acc / every - 1) by (field; lra).
  rewrite E, Qfloor_pred.
  assert (H1 : 1 <= acc / every) by (apply Qle_shift_div_l; [exact He | lra]).
  assert (Hf : (1 <= Qfloor (acc / every))%Z).
  { change 1%Z with (Qfloor 1). apply Qfloor_resp_le. exact H1. }
  lia.
Qed.

Lemma crop_spawn_loop_count rnd : forall fuel n g,
  0 < spawnEvery g ->
  (Z.to_nat (Qfloor (accumSpawn g / spawnEvery g)) < fuel)%nat ->
  let k := Z.to_nat (Qfloor (accumSpawn g / spawnEvery g)) in
  let r := crop_spawn_loop fuel rnd n g in
  (exists news, crops (fst r) = crops g ++ news /\ List.length news = k) /\
  snd r = (n + 4 * k)%nat /\
  accumSpawn (fst r) == accumSpawn g - inject_Z (Z.of_nat k) * spawnEvery g.
Proof.
  induction fuel as [|f IH]; intros n g He Hk; [lia|].
  cbv zeta. simpl crop_spawn_loop.
  destruct (Qle_bool (spawnEvery g) (accumSpawn g)) eqn:E.
  - apply Qle_bool_iff in E. unfold spawnCrop.
    match goal with |- context [crop_spawn_loop f rnd ?m ?g2] =>
      specialize (IH m g2); set (G2 := g2) in * end.
    assert (Ea : accumSpawn G2 = accumSpawn g - spawnEvery g) by reflexivity.
    assert (Ee : spawnEvery G2 = spawnEvery g) by reflexivity.
    rewrite Ea, Ee in IH.
    pose proof (floor_count_step _ _ He E) as Hstep.
    specialize (IH He ltac:(lia)). cbv zeta in IH.
    destruct IH as ((news & Hc & Hl) & Hn & Hacc).
    rewrite Hstep. split; [|split].
    + eexists. split; [rewrite Hc; unfold G2; simpl; rewrite <- app_assoc; reflexivity|].
      simpl. rewrite Hl. reflexivity.
    + rewrite Hn. lia.
    + rewrite Hacc. rewrite Nat2Z.inj_succ. unfold Z.succ. rewrite inject_Z_plus.
      change (inject_Z 1) with 1. ring.
  - assert (Hlt : accumSpawn g < spawnEvery g).
    { apply Qnot_le_lt. intro H. apply Qle_bool_iff in H. congruence. }
    rewrite (floor_count_zero _ _ He Hlt). simpl.
    split; [exists []; split; [rewrite app_nil_r; reflexivity | reflexivity]|].
    split; [lia | ring].
Qed.

Lemma powerUp_spawn_loop_count rnd : forall fuel n g,
  0 < powerUpSpawnEvery g ->
  (Z.to_nat (Qfloor (accumPowerUpSpawn g / powerUpSpawnEvery g)) < fuel)%nat ->
  let k := Z.to_nat (Qfloor (accumPowerUpSpawn g / powerUpSpawnEvery g)) in
  let r := powerUp_spawn_loop fuel rnd n g in
  (exists news, powerUps (fst r) = powerUps g ++ news /\ List.length news = k) /\
  snd r = (n + 3 * k)%nat /\
  accumPowerUpSpawn (fst r)
  == accumPowerUpSpawn g - inject_Z (Z.of_nat k) * powerUpSpawnEvery g.
Proof.
  induction fuel as [|f IH]; intros n g He Hk; [lia|].
  cbv zeta. simpl powerUp_spawn_loop.
  destruct (Qle_bool (powerUpSpawnEvery g) (accumPowerUpSpawn g)) eqn:E.
  - apply Qle_bool_iff in E. unfold spawnPowerUp.
    match goal with |- context [powerUp_spawn_loop f rnd ?m ?g2] =>
      specialize (IH m g2); set (G2 := g2) in * end.
    assert (Ea : accumPowerUpSpawn G2 = accumPowerUpSpawn g - powerUpSpawnEvery g)
      by reflexivity.
    assert (Ee : powerUpSpawnEvery G2 = powerUpSpawnEvery g) by reflexivity.
    rewrite Ea, Ee in IH.
    pose proof (floor_count_step _ _ He E) as Hstep.
    specialize (IH He ltac:(lia)). cbv zeta in IH.
    destruct IH as ((news & Hc & Hl) & Hn & Hacc).
    rewrite Hstep. split; [|split].
    + eexists. split; [rewrite Hc; unfold G2; simpl; rewrite <- app_assoc; reflexivity|].
      simpl. rewrite Hl. reflexivity.
    + rewrite Hn. lia.
    + rewrite Hacc. rewrite Nat2Z.inj_succ. unfold Z.succ. rewrite inject_Z_plus.
      change (inject_Z 1) with 1. ring.
  - assert (Hlt : accumPowerUpSpawn g < powerUpSpawnEvery g).
    { apply Qnot_le_lt. intro H. apply Qle_bool_iff in H. congruence. }
    rewrite (floor_count_zero _ _ He Hlt). simpl.
    split; [exists []; split; [rewrite app_nil_r; reflexivity | reflexivity]|].
    split; [lia | ring].
Qed.

Lemma spawn_phase_count rnd dt g :
  0 < spawnEvery g -> 0 < powerUpSpawnEvery g ->
  let kc := Z.to_nat (Qfloor ((accumSpawn g + dt) / spawnEvery g)) in
  let kp := Z.to_nat (Qfloor ((accumPowerUpSpawn g + dt) / powerUpSpawnEvery g)) in
  let g' := spawn_phase rnd dt g in
  (exists news, crops g' = crops g ++ news /\ List.length news = kc) /\
  (exists news, powerUps g' = powerUps g ++ news /\ List.length news = kp) /\
  accumSpawn g' == accumSpawn g + dt - inject_Z (Z.of_nat kc) * spawnEvery g /\
  accumPowerUpSpawn g'
  == accumPowerUpSpawn g + dt - inject_Z (Z.of_nat kp) * powerUpSpawnEvery g.
Proof.
  intros H1 H2. cbv zeta. unfold spawn_phase.
  set (g1 := set_accumSpawn (accumSpawn g + dt) g).
  assert (F1 : (Z.to_nat (Qfloor (accumSpawn g1 / spawnEvery g1))
                < loop_fuel (accumSpawn g1) (spawnEvery g1))%nat)
    by (unfold loop_fuel; lia).
  pose proof (crop_spawn_loop_count rnd _ 0%nat g1 H1 F1) as Hc.
  pose proof (crop_spawn_loop_core (loop_fuel (accumSpawn g1) (spawnEvery g1))
                rnd 0%nat g1) as (Hcore & Hpu & Hap).
  cbv zeta in Hc.
  destruct (crop_spawn_loop (loop_fuel (accumSpawn g1) (spawnEvery g1)) rnd 0%nat g1)
    as [g2 n].
  cbv beta iota zeta. change (fst (g2, n)) with g2 in *.
  destruct Hc as (Hcr & _ & Hacc).
  set (g3 := set_accumPowerUpSpawn (accumPowerUpSpawn g2 + dt) g2).
  assert (Ee : powerUpSpawnEvery g3 = powerUpSpawnEvery g).
  { unfold same_core in Hcore. decompose [and] Hcore. simpl. assumption. }
  assert (Ea : accumPowerUpSpawn g3 = accumPowerUpSpawn g + dt).
  { simpl. rewrite Hap. reflexivity. }
  assert (H2' : 0 < powerUpSpawnEvery g3) by (rewrite Ee; exact H2).
  assert (F2 : (Z.to_nat (Qfloor (accumPowerUpSpawn g3 / powerUpSpawnEvery g3))
                < loop_fuel (accumPowerUpSpawn g3) (powerUpSpawnEvery g3))%nat)
    by (unfold loop_fuel; lia).
  pose proof (powerUp_spawn_loop_count rnd _ n g3 H2' F2) as Hp.
  pose proof (powerUp_spawn_loop_core
                (loop_fuel (accumPowerUpSpawn g3) (powerUpSpawnEvery g3)) rnd n g3)
    as (_ & Hcr' & Hac').
  cbv zeta in Hp. destruct Hp as (Hpr & _ & Hpacc).
  set (R := fst (powerUp_spawn_loop
                   (loop_fuel (accumPowerUpSpawn g3) (powerUpSpawnEvery g3)) rnd n g3))
    in *.
  rewrite Ea, Ee in Hpr, Hpacc.
  split; [rewrite Hcr'; exact Hcr|].
  split.
  { destruct Hpr as (news & E & L). exists news. split; [|exact L].
    rewrite E. change (powerUps g3) with (powerUps g2). rewrite Hpu. reflexivity. }
  split; [rewrite Hac'; exact Hacc | exact Hpacc].
Qed.



(** * The animation frame *)

Lemma tick_dt_le ts g : tick_dt ts g <= 33 # 1000.
Proof. unfold tick_dt. apply Q.le_min_r. Qed.

Lemma tick_dt_nonneg ts g : lastTime g <= ts -> 0 <= tick_dt ts g.
Proof.
  intro H. unfold tick_dt. apply Q.min_glb; [|vm_compute; discriminate].
  apply Qle_shift_div_l; [reflexivity | lra].
Qed.

Lemma update_timeLeft rnd dt g :
  state g = PLAYING -> timeLeft (update rnd dt g) = clamp (timeLeft g - dt) 0 GAME_LEN.
Proof.
  intro Hs. destruct (Qle_bool (clamp (timeLeft g - dt) 0 GAME_LEN) 0) eqn:Et.
  - rewrite (update_timeout rnd dt g Hs Et). reflexivity.
  - rewrite (update_playing rnd dt g Hs Et). apply (playing_frame_fields rnd dt g).
Qed.

Lemma update_lastTime rnd dt g : lastTime (update rnd dt g) = lastTime g.
Proof.
  destruct (State_eqb (state g) PLAYING) eqn:Es.
  - assert (Hs : state g = PLAYING) by (destruct (state g); try discriminate; reflexivity).
    destruct (Qle_bool (clamp (timeLeft g - dt) 0 GAME_LEN) 0) eqn:Et.
    + rewrite (update_timeout rnd dt g Hs Et). reflexivity.
    + rewrite (update_playing rnd dt g Hs Et). apply (playing_frame_accum rnd dt g).
  - rewrite update_not_playing; [reflexivity|].
    intro Hs. rewrite Hs in Es. discriminate.
Qed.

Lemma clamp_drop (t d c hi : Q) :
  0 <= t -> t <= hi -> d <= c -> 0 <= c ->
  (t - c <= clamp (t - d) 0 hi) /\ (0 <= d -> clamp (t - d) 0 hi <= t).
Proof.
  intros H0 H1 Hd Hc. unfold clamp.
  pose proof (Q.max_spec 0 (t - d)) as Hm.
  pose proof (Q.min_spec hi (Qmax 0 (t - d))) as Hn.
  set (m := Qmax 0 (t - d)) in *. set (n := Qmin hi m) in *.
  destruct Hm as [[Hm1 Hm2] | [Hm1 Hm2]]; destruct Hn as [[Hn1 Hn2] | [Hn1 Hn2]];
    (split; [| intro]; lra).
Qed.

(** X13: [tick] hands [update] the time since the last frame in seconds,
    capped at 0.033, and records the timestamp.  In a reachable game a tick
    lowers the timer by at most 0.033, never raises it when the timestamp is
    not before the recorded one, spawns at most one crop and one power-up,
    and outside PLAYING changes nothing but the recorded timestamp. *)
Theorem tick_capped (rnd : nat -> Q) (ts : Q) (g : Game) :
  reachable g ->
  let g' := tick rnd ts g in
  let mid := after_spawn rnd (tick_dt ts g) (set_lastTime ts g) in
  g' = update rnd (tick_dt ts g) (set_lastTime ts g) /\
  tick_dt ts g <= 33 # 1000 /\
  lastTime g' = ts /\
  timeLeft g - (33 # 1000) <= timeLeft g' /\
  (lastTime g <= ts -> timeLeft g' <= timeLeft g) /\
  (List.length (crops mid) <= List.length (crops g) + 1)%nat /\
  (List.length (powerUps mid) <= List.length (powerUps g) + 1)%nat /\
  (state g <> PLAYING -> g' = set_lastTime ts g).
Proof.
  intro Hr. cbv zeta.
  destruct (reachable_round g Hr) as (Hg & Hro).
  destruct Hg as (_ & _ & _ & He & Hpe & _ & T0 & T1 & _).
  destruct Hro as (_ & _ & _ & _ & _ & (Ha & Hap) & _).
  pose proof (tick_dt_le ts g) as Hdt.
  split; [reflexivity|]. split; [exact Hdt|].
  split; [unfold tick; rewrite update_lastTime; reflexivity|].
  assert (Htl : timeLeft g - (33 # 1000) <= timeLeft (tick rnd ts g) /\
                (lastTime g <= ts -> timeLeft (tick rnd ts g) <= timeLeft g)).
  { unfold tick. fold (tick_dt ts g).
    destruct (State_eqb (state g) PLAYING) eqn:Es.
    - assert (Hs : state (set_lastTime ts g) = PLAYING)
        by (simpl; destruct (state g); try discriminate; reflexivity).
      rewrite (update_timeLeft rnd _ _ Hs).
      change (timeLeft (set_lastTime ts g)) with (timeLeft g).
      assert (H33 : 0 <= 33 # 1000) by (vm_compute; discriminate).
      destruct (clamp_drop (timeLeft g) (tick_dt ts g) (33 # 1000) GAME_LEN T0 T1 Hdt H33)
        as (C1 & C2).
      split; [exact C1|]. intro Hle. apply C2. apply tick_dt_nonneg. exact Hle.
    - rewrite update_not_playing.
      + simpl. split; [lra | intros _; apply Qle_refl].
      + simpl. intro Hs. rewrite Hs in Es. discriminate. }
  split; [apply Htl|]. split; [apply Htl|].
  assert (Hcount : forall acc every : Q,
            every = 8 # 10 \/ every = 12 -> acc < every ->
            (Z.to_nat (Qfloor ((acc + tick_dt ts g) / every)) <= 1)%nat).
  { intros acc every Hev Hacc.
    assert (Hpos : 0 < every) by (destruct Hev as [-> | ->]; reflexivity).
    assert (H2 : (acc + tick_dt ts g) / every < 2).
    { apply Qlt_shift_div_r; [exact Hpos|]. destruct Hev as [-> | ->]; lra. }
    pose proof (Qfloor_le ((acc + tick_dt ts g) / every)) as Hf.
    assert (H : inject_Z (Qfloor ((acc + tick_dt ts g) / every)) < inject_Z 2)
      by (change (inject_Z 2) with 2; lra).
    rewrite <- Zlt_Qlt in H. lia. }
  set (g2 := move_player (tick_dt ts g)
               (set_timeLeft (clamp (timeLeft (set_lastTime ts g) - tick_dt ts g) 0 GAME_LEN)
                  (set_lastTime ts g))).
  assert (P1 : 0 < spawnEvery g2) by (simpl; rewrite He; reflexivity).
  assert (P2 : 0 < powerUpSpawnEvery g2) by (simpl; rewrite Hpe; reflexivity).
  pose proof (spawn_phase_count rnd (tick_dt ts g) g2 P1 P2) as Hc.
  cbv zeta in Hc. destruct Hc as ((nc & Ec & Lc) & (np & Ep & Lp) & _).
  split.
  { unfold after_spawn. fold g2. rewrite Ec, length_app, Lc.
    change (crops g2) with (crops g). change (accumSpawn g2) with (accumSpawn g).
    change (spawnEvery g2) with (spawnEvery g).
    pose proof (Hcount (accumSpawn g) (spawnEvery g) (or_introl He) Ha). lia. }
  split.
  { unfold after_spawn. fold g2. rewrite Ep, length_app, Lp.
    change (powerUps g2) with (powerUps g).
    change (accumPowerUpSpawn g2) with (accumPowerUpSpawn g).
    change (powerUpSpawnEvery g2) with (powerUpSpawnEvery g).
    pose proof (Hcount (accumPowerUpSpawn g) (powerUpSpawnEvery g) (or_intror Hpe) Hap).
    lia. }
  intro Hs. unfold tick. apply update_not_playing. exact Hs.
Qed.

Lemma tick_capped_witness :
  timeLeft first_frame - (33 # 1000) <= timeLeft (tick golden_here 5000 first_frame) /\
  lastTime (tick golden_here 5000 first_frame) = 5000.
Proof.
  pose proof (tick_capped golden_here 5000 first_frame first_frame_reachable) as H.
  cbv zeta in H. destruct H as (_ & _ & H3 & H4 & _).
  split; [exact H4 | exact H3].
Defined.

(** * Further properties of the power-up mapping *)


Lemma Qle_bool_false a b : Qle_bool a b = false <-> b < a.
Proof.
  split; intro H.
  - apply Qnot_le_lt. intro Hle. apply Qle_bool_iff in Hle. congruence.
  - destruct (Qle_bool a b) eqn:E; [|reflexivity].
    apply Qle_bool_iff in E. lra.
Qed.









(** * Further properties of the entities *)

(** X16: between the events of a run no dead crop or power-up is left in
    the game; every crop is worth 1, 3 or 5 points, the value of its kind;
    every power-up lasts 8 seconds and carries the data of its kind; every
    floating text has life left. *)
Theorem entities_clean (g : Game) :
  reachable g ->
  Forall (fun c : Crop =>
            dead c = false /\
            (value c = 1 \/ value c = 3 \/ value c = 5) /\
            value c = cd_value (cropData (c_type c)) /\
            c_data c = cropData (c_type c)) (crops g) /\
  Forall (fun p : PowerUp =>
            dead p = false /\ duration p = 8 /\ p_data p = powerData (p_type p))
         (powerUps g) /\
  Forall (fun pt => 0 < life pt) (pointTexts g).
Proof.
  intro H. destruct (reachable_round g H) as (Hg & Hr).
  destruct Hg as (_ & Hc & Hp & _).
  destruct Hr as (_ & _ & _ & _ & _ & _ & Hl & _).
  split; [|split; [|exact Hl]].
  - eapply Forall_impl; [|exact Hc]. intros c (Hd & Hv & Hda).
    split; [exact Hd|]. split; [rewrite Hv; apply cropData_values|].
    split; assumption.
  - eapply Forall_impl; [|exact Hp]. intros p (Hd & Hdu & Hda).
    repeat split; assumption.
Qed.

Lemma entities_clean_witness :
  Forall (fun c : Crop =>
            dead c = false /\
            (value c = 1 \/ value c = 3 \/ value c = 5) /\
            value c = cd_value (cropData (c_type c)) /\
            c_data c = cropData (c_type c)) (crops scythe_picked_up).
Proof.
  apply (entities_clean scythe_picked_up scythe_picked_up_reachable).
Defined.

Lemma crop_spawn_loop_placed rnd (Hr : unit_range rnd) : forall fuel n g,
  placed_inv g -> placed_inv (fst (crop_spawn_loop fuel rnd n g)).
Proof.
  induction fuel as [|k IH]; intros n g H; [exact H|].
  simpl. destruct (Qle_bool (spawnEvery g) (accumSpawn g)); [|exact H].
  unfold spawnCrop. apply IH. destruct H as [Hc Hp]. split; simpl; [|exact Hp].
  apply Forall_app. split; [exact Hc|]. constructor; [|constructor].
  destruct (Hr n) as [A0 A1]. destruct (Hr (n + 1)%nat) as [B0 B1].
  destruct (spawn_coord_WIDTH _ A0 A1) as (Gx & Lx & Ux).
  destruct (spawn_coord_HEIGHT _ B0 B1) as (Gy & Ly & Uy).
  unfold crop_placed, well_placed. simpl. repeat split; assumption.
Qed.

Lemma powerUp_spawn_loop_placed rnd (Hr : unit_range rnd) : forall fuel n g,
  placed_inv g -> placed_inv (fst (powerUp_spawn_loop fuel rnd n g)).
Proof.
  induction fuel as [|k IH]; intros n g H; [exact H|].
  simpl. destruct (Qle_bool (powerUpSpawnEvery g) (accumPowerUpSpawn g)); [|exact H].
  unfold spawnPowerUp. apply IH. destruct H as [Hc Hp]. split; simpl; [exact Hc|].
  apply Forall_app. split; [exact Hp|]. constructor; [|constructor].
  destruct (Hr n) as [A0 A1]. destruct (Hr (n + 1)%nat) as [B0 B1].
  destruct (spawn_coord_WIDTH _ A0 A1) as (Gx & Lx & Ux).
  destruct (spawn_coord_HEIGHT _ B0 B1) as (Gy & Ly & Uy).
  unfold powerUp_placed, well_placed. simpl. repeat split; assumption.
Qed.

Lemma spawn_phase_placed rnd dt g :
  unit_range rnd -> placed_inv g -> placed_inv (spawn_phase rnd dt g).
Proof.
  intros Hr H. unfold spawn_phase.
  set (g1 := set_accumSpawn (accumSpawn g + dt) g).
  assert (H1 : placed_inv g1) by exact H.
  pose proof (crop_spawn_loop_placed rnd Hr
                (loop_fuel (accumSpawn g1) (spawnEvery g1)) 0%nat g1 H1) as H2.
  destruct (crop_spawn_loop (loop_fuel (accumSpawn g1) (spawnEvery g1)) rnd 0%nat g1)
    as [g2 n].
  cbv beta iota zeta. change (fst (g2, n)) with g2 in H2.
  apply powerUp_spawn_loop_placed; [exact Hr | exact H2].
Qed.

Lemma placed_inv_update rnd dt g :
  unit_range rnd -> placed_inv g -> placed_inv (update rnd dt g).
Proof.
  intros Hr H.
  destruct (State_eqb (state g) PLAYING) eqn:Es.
  - assert (Hs : state g = PLAYING) by (destruct (state g); try discriminate; reflexivity).
    destruct (Qle_bool (clamp (timeLeft g - dt) 0 GAME_LEN) 0) eqn:Et.
    + rewrite (update_timeout rnd dt g Hs Et). exact H.
    + rewrite (update_playing rnd dt g Hs Et).
      destruct (playing_frame_spec rnd dt g) as (Ec & Ep & _). cbv zeta in *.
      assert (Hm : placed_inv (after_spawn rnd dt g)).
      { unfold after_spawn. apply spawn_phase_placed; [exact Hr | exact H]. }
      destruct Hm as (Hc & Hp).
      split.
      * rewrite Ec. apply Forall_map_same; [intros c Hc0; exact Hc0|].
        apply Forall_filter. unfold mark_crops.
        apply Forall_map_same; [|exact Hc].
        intros c Hc0. destruct (collects _ c); exact Hc0.
      * rewrite Ep. apply Forall_map_same; [intros p Hp0; exact Hp0|].
        apply Forall_filter. apply Forall_map_same; [|exact Hp].
        intros p Hp0. destruct (aabb _ p); exact Hp0.
  - rewrite update_not_playing; [exact H|].
    intro Hs. rewrite Hs in Es. discriminate.
Qed.

Lemma placed_inv_step e g : unit_event e -> placed_inv g -> placed_inv (step e g).
Proof.
  intros He H. destruct e; simpl in *.
  - unfold start. destruct (state g); try exact H; split; constructor.
  - split; constructor.
  - unfold togglePause. destruct (state g); exact H.
  - unfold onKeyDown.
    destruct (String.eqb key "p" || String.eqb key "P")%bool; [|exact H].
    unfold togglePause. destruct (state g); exact H.
  - exact H.
  - apply placed_inv_update; assumption.
  - unfold tick. apply placed_inv_update; assumption.
Qed.

Lemma placed_inv_run es : forall g,
  Forall unit_event es -> placed_inv g -> placed_inv (run es g).
Proof.
  induction es as [|e es IH]; intros g He H; [exact H|].
  inversion He; subst. simpl. apply IH; [assumption|].
  apply placed_inv_step; assumption.
Qed.

(** X17: in a run whose frames draw random values in [0, 1), every crop is
    a 20 by 26 box and every power-up a 24 by 24 box at a grid position
    (30k + 30, 30l + 30) with 0 <= k < 28 and 0 <= l < 16, for as long as it
    is in the game: frames never move them, and their boxes lie wholly on
    the 900 by 540 canvas. *)
Theorem entities_stay_placed (es : list Event) :
  Forall unit_event es ->
  let g := run es new_Game in
  Forall crop_placed (crops g) /\ Forall powerUp_placed (powerUps g) /\
  Forall (fun c : Crop => on_canvas c) (crops g) /\
  Forall (fun p : PowerUp => on_canvas p) (powerUps g).
Proof.
  intro He. cbv zeta.
  assert (H0 : placed_inv new_Game) by (split; constructor).
  destruct (placed_inv_run es new_Game He H0) as (Hc & Hp).
  split; [exact Hc|]. split; [exact Hp|]. split.
  - eapply Forall_impl; [|exact Hc].
    intros c ((_ & _ & X0 & X1 & Y0 & Y1) & Hw & Hh).
    unfold on_canvas. rewrite Hw, Hh. unfold WIDTH, HEIGHT, TILE in *.
    repeat split; lra.
  - eapply Forall_impl; [|exact Hp].
    intros p ((_ & _ & X0 & X1 & Y0 & Y1) & Hw & Hh).
    unfold on_canvas. rewrite Hw, Hh. unfold WIDTH, HEIGHT, TILE in *.
    repeat split; lra.
Qed.

Lemma entities_stay_placed_witness :
  Forall crop_placed
    (crops (run [EStart 0; EUpdate (fun _ => 1 # 2) 4] new_Game)).
Proof.
  apply (entities_stay_placed [EStart 0; EUpdate (fun _ => 1 # 2) 4]).
  constructor; [exact I|]. constructor; [|constructor].
  intro i. split; [vm_compute; discriminate | reflexivity].
Defined.

(** * How the commands compose *)

(** What [reset] keeps of a game. *)
Lemma reset_keeps now g g' :
  spawnEvery g' = spawnEvery g -> powerUpSpawnEvery g' = powerUpSpawnEvery g ->
  goal g' = goal g -> input g' = input g ->
  reset now g' = reset now g.
Proof. intros H1 H2 H3 H4. unfold reset. rewrite H1, H2, H3, H4. reflexivity. Qed.

Lemma update_settings rnd dt g :
  spawnEvery (update rnd dt g) = spawnEvery g /\
  powerUpSpawnEvery (update rnd dt g) = powerUpSpawnEvery g /\
  goal (update rnd dt g) = goal g /\ input (update rnd dt g) = input g.
Proof.
  destruct (State_eqb (state g) PLAYING) eqn:Es.
  - assert (Hs : state g = PLAYING) by (destruct (state g); try discriminate; reflexivity).
    destruct (Qle_bool (clamp (timeLeft g - dt) 0 GAME_LEN) 0) eqn:Et.
    + rewrite (update_timeout rnd dt g Hs Et). repeat split.
    + rewrite (update_playing rnd dt g Hs Et).
      destruct (playing_frame_consts rnd dt g) as (H1 & H2).
      destruct (playing_frame_fields rnd dt g) as (_ & _ & _ & _ & _ & _ & _ & H3 & H4).
      repeat split; assumption.
  - rewrite update_not_playing; [repeat split|].
    intro Hs. rewrite Hs in Es. discriminate.
Qed.

Lemma step_settings e g :
  not_key e = true ->
  spawnEvery (step e g) = spawnEvery g /\
  powerUpSpawnEvery (step e g) = powerUpSpawnEvery g /\
  goal (step e g) = goal g /\ input (step e g) = input g.
Proof.
  intro H. destruct e; simpl in *; try discriminate.
  - unfold start. destruct (state g); repeat split.
  - repeat split.
  - unfold togglePause. destruct (state g); repeat split.
  - apply update_settings.
  - unfold tick. apply (update_settings rnd _ (set_lastTime ts g)).
Qed.

Lemma run_settings es : forall g,
  forallb not_key es = true ->
  spawnEvery (run es g) = spawnEvery g /\
  powerUpSpawnEvery (run es g) = powerUpSpawnEvery g /\
  goal (run es g) = goal g /\ input (run es g) = input g.
Proof.
  induction es as [|e es IH]; intros g H; [repeat split|].
  simpl in H. apply andb_true_iff in H. destruct H as [He Hes]. simpl.
  destruct (IH (step e g) Hes) as (A1 & A2 & A3 & A4).
  destruct (step_settings e g He) as (B1 & B2 & B3 & B4).
  repeat split; congruence.
Qed.

(** X18: [reset] forgets the round: after any commands and frames, with no
    key event among them, [reset] gives the game that [reset] would have
    given at once (key events only change the held keys, which [reset]
    keeps).  [reset] twice is [reset] once, and [start] on a game that
    [start] has just returned changes nothing. *)
Theorem reset_forgets (es : list Event) (now now' : Q) (g : Game) :
  (forallb not_key es = true -> reset now (run es g) = reset now g) /\
  input (reset now g) = input g /\
  reset now (reset now' g) = reset now g /\
  start now (start now' g) = start now' g.
Proof.
  split.
  { intro H. destruct (run_settings es g H) as (A1 & A2 & A3 & A4).
    apply reset_keeps; assumption. }
  split; [reflexivity|]. split; [reflexivity|].
  unfold start. destruct (state g) eqn:E; simpl; try reflexivity.
  rewrite E. reflexivity.
Qed.

Lemma reset_forgets_witness :
  reset 9 (run [EStart 0; EUpdate golden_here 4; ETogglePause] new_Game)
  = reset 9 new_Game.
Proof.
  apply (proj1 (reset_forgets [EStart 0; EUpdate golden_here 4; ETogglePause]
                  9 0 new_Game)).
  reflexivity.
Defined.

(** * Which kind is spawned *)

Lemma Qfloor_eq (v : Q) (z : Z) :
  inject_Z z <= v -> v < inject_Z (z + 1) -> Qfloor v = z.
Proof.
  intros H1 H2.
  pose proof (Qfloor_le v) as A1. pose proof (Qlt_floor v) as A2.
  assert (B1 : inject_Z z < inject_Z (Qfloor v + 1)) by (eapply Qle_lt_trans; eassumption).
  assert (B2 : inject_Z (Qfloor v) < inject_Z (z + 1)) by (eapply Qle_lt_trans; eassumption).
  rewrite <- Zlt_Qlt in B1, B2. lia.
Qed.

(** X19: the kind a spawn gets from its random value [r] in [0, 1).  A
    crop is wheat (1 point) for r < 0.7, a pumpkin (3 points) for
    0.7 <= r < 0.9 and a golden apple (5 points) from 0.9 on; a power-up is a
    speed boost for r < 0.5 and a scythe from 0.5 on, so the index into the
    two-element array is never out of range.  Both are spawned alive, and a
    crop takes four random values, a power-up three. *)
Theorem spawn_kinds (rnd : nat -> Q) (n : nat) (g : Game) :
  0 <= rnd (n + 2)%nat -> rnd (n + 2)%nat < 1 ->
  let r := rnd (n + 2)%nat in
  (exists c : Crop,
     crops (fst (spawnCrop rnd n g)) = crops g ++ [c] /\ dead c = false /\
     (r < 7 # 10 -> c_type c = "wheat"%string /\ value c = 1) /\
     (7 # 10 <= r -> r < 9 # 10 -> c_type c = "pumpkin"%string /\ value c = 3) /\
     (9 # 10 <= r -> c_type c = "goldenApple"%string /\ value c = 5)) /\
  (exists p : PowerUp,
     powerUps (fst (spawnPowerUp rnd n g)) = powerUps g ++ [p] /\ dead p = false /\
     duration p = 8 /\
     (r < 1 # 2 -> p_type p = "speed"%string /\ p_data p = speedData) /\
     (1 # 2 <= r -> p_type p = "scythe"%string /\ p_data p = scytheData)) /\
  snd (spawnCrop rnd n g) = (n + 4)%nat /\ snd (spawnPowerUp rnd n g) = (n + 3)%nat.
Proof.
  intros H0 H1. cbv zeta.
  split; [|split; [|split; reflexivity]].
  - eexists. split; [reflexivity|]. split; [reflexivity|]. simpl.
    split; [|split].
    + intro H. apply Qltb_lt in H. rewrite H. split; reflexivity.
    + intros Ha Hb. apply Qltb_ge in Ha. apply Qltb_lt in Hb. rewrite Ha, Hb.
      split; reflexivity.
    + intro Ha.
      assert (Hb : 7 # 10 <= rnd (n + 2)%nat) by lra.
      apply Qltb_ge in Ha. apply Qltb_ge in Hb. rewrite Ha, Hb. split; reflexivity.
  - eexists. split; [reflexivity|]. split; [reflexivity|]. split; [reflexivity|].
    unfold floor. change (inject_Z (Z.of_nat (List.length power_types))) with 2.
    split.
    + intro H.
      assert (E : Qfloor (rnd (n + 2)%nat * 2) = 0%Z).
      { apply Qfloor_eq; [change (inject_Z 0) with 0; lra|].
        change (inject_Z (0 + 1)) with 1. lra. }
      rewrite E. split; reflexivity.
    + intro H.
      assert (E : Qfloor (rnd (n + 2)%nat * 2) = 1%Z).
      { apply Qfloor_eq; [change (inject_Z 1) with 1; lra|].
        change (inject_Z (1 + 1)) with 2. lra. }
      rewrite E. split; reflexivity.
Qed.

Lemma spawn_kinds_witness :
  exists p : PowerUp,
    powerUps (fst (spawnPowerUp (fun _ => 3 # 4) 0 new_Game)) = powerUps new_Game ++ [p] /\
    p_type p = "scythe"%string.
Proof.
  assert (A0 : 0 <= 3 # 4) by (vm_compute; discriminate).
  assert (A1 : (3 # 4) < 1) by reflexivity.
  destruct (spawn_kinds (fun _ => 3 # 4) 0 new_Game A0 A1) as (_ & (p & E & _ & _ & _ & Hs) & _).
  exists p. split; [exact E|].
  apply Hs. vm_compute. discriminate.
Defined.

(** * The read-outs *)

Lemma updatePowerUpUI_fields g u :
  ui_score (updatePowerUpUI g u) = ui_score u /\
  ui_time (updatePowerUpUI g u) = ui_time u /\
  ui_goal (updatePowerUpUI g u) = ui_goal u /\
  ui_status (updatePowerUpUI g u) = ui_status u.
Proof.
  unfold updatePowerUpUI. destruct (activePowerUps (player g)); repeat split.
Qed.

(** The power-up read-out depends on the mapping alone. *)
Lemma updatePowerUpUI_readout g u g' u' :
  activePowerUps (player g) = activePowerUps (player g') ->
  ui_powerUpStatus (updatePowerUpUI g u) = ui_powerUpStatus (updatePowerUpUI g' u') /\
  ui_powerUpClass (updatePowerUpUI g u) = ui_powerUpClass (updatePowerUpUI g' u').
Proof.
  intro H. unfold updatePowerUpUI. rewrite H.
  destruct (activePowerUps (player g')); split; reflexivity.
Qed.

Lemma shows_syncUI g u s :
  s = status_of (state g) -> shows g (set_ui_status s (syncUI g u)).
Proof.
  intro Hs. unfold shows, syncUI.
  set (u0 := set_ui_goal _ _).
  destruct (updatePowerUpUI_fields g u0) as (A & B & C & _).
  assert (E : forall v, set_ui_status s (updatePowerUpUI g v)
                        = updatePowerUpUI g (set_ui_status s v)).
  { intro v. unfold updatePowerUpUI, set_ui_status.
    destruct (activePowerUps (player g)); reflexivity. }
  simpl. rewrite A, B, C.
  split; [reflexivity|]. split; [reflexivity|]. split; [reflexivity|].
  split; [exact Hs|].
  apply updatePowerUpUI_readout. reflexivity.
Qed.

Lemma shows_set_status s g u :
  shows g u -> shows (set_state s g) (set_ui_status (status_of s) u).
Proof.
  intros (A & B & C & _ & D & E). unfold shows. simpl.
  repeat split; try assumption.
  - rewrite D. apply (updatePowerUpUI_readout g u (set_state s g) _). reflexivity.
  - rewrite E. apply (updatePowerUpUI_readout g u (set_state s g) _). reflexivity.
Qed.

Lemma shows_reset now g u : shows (reset now g) (reset_ui now g u).
Proof. unfold reset_ui. apply shows_syncUI. reflexivity. Qed.

Lemma shows_start now g u :
  (state g = PLAYING \/ state g = PAUSED -> shows g u) ->
  shows (start now g) (start_ui now g u).
Proof.
  intro H. unfold start, start_ui.
  assert (Hfresh : shows (set_state PLAYING (reset now g))
                     (set_ui_status "Playing…" (reset_ui now g u))).
  { apply (shows_set_status PLAYING). apply shows_reset. }
  destruct (state g) eqn:E; try exact Hfresh.
  - apply H. left. reflexivity.
  - apply (shows_set_status PLAYING). apply H. right. reflexivity.
Qed.

Lemma shows_togglePause g u : shows g u -> shows (togglePause g) (togglePause_ui g u).
Proof.
  intro H. unfold togglePause, togglePause_ui.
  destruct (state g); try exact H.
  - apply (shows_set_status PAUSED). exact H.
  - apply (shows_set_status PLAYING). exact H.
Qed.

Lemma collect_crops_ui_spec g u :
  state g = PLAYING ->
  ui_score u = whole_text (score g) -> ui_status u = status_of (state g) ->
  let u' := collect_crops_ui g u in
  ui_score u' = whole_text (score (collect_crops g)) /\
  ui_status u' = status_of (state (collect_crops g)) /\
  ui_goal u' = ui_goal u /\ ui_time u' = ui_time u.
Proof.
  intros Hs A D. cbv zeta.
  destruct (collect_crops_spec g) as (_ & _ & Hnil & Hwin & Hlt & _).
  destruct (collect_crops_fields g) as (_ & _ & _ & _ & Eg & _).
  cbv zeta in *.
  unfold collect_crops_ui.
  destruct (filter (collects (player g)) (crops g)) as [|c cs] eqn:E.
  - rewrite (Hnil eq_refl). split; [exact A|]. split; [exact D|]. split; reflexivity.
  - cbv zeta.
    destruct (Qle_bool (goal (collect_crops g)) (score (collect_crops g))) eqn:Eb; simpl.
    + apply Qle_bool_iff in Eb. rewrite Eg in Eb.
      rewrite (Hwin Eb ltac:(discriminate)). repeat split.
    + apply Qle_bool_false in Eb. rewrite Eg in Eb.
      rewrite (Hlt Eb). repeat split. exact D.
Qed.

Lemma shows_update rnd dt g u : shows g u -> shows (update rnd dt g) (update_ui rnd dt g u).
Proof.
  intro H. unfold update_ui.
  destruct (State_eqb (state g) PLAYING) eqn:Es.
  - assert (Hs : state g = PLAYING) by (destruct (state g); try discriminate; reflexivity).
    rewrite Hs. cbv zeta.
    change (timeLeft (set_timeLeft (clamp (timeLeft g - dt) 0 GAME_LEN) g))
      with (clamp (timeLeft g - dt) 0 GAME_LEN).
    destruct (Qle_bool (clamp (timeLeft g - dt) 0 GAME_LEN) 0) eqn:Et.
    + rewrite (update_timeout rnd dt g Hs Et).
      set (g2 := set_state _ _).
      assert (E : forall s v, syncUI g2 (set_ui_status s v) = set_ui_status s (syncUI g2 v)).
      { intros s v. unfold syncUI, updatePowerUpUI, set_ui_status.
        destruct (activePowerUps (player g2)); reflexivity. }
      rewrite E. apply shows_syncUI.
      unfold g2. simpl. destruct (Qle_bool (goal g) (score g)); reflexivity.
    + pose proof (update_playing rnd dt g Hs Et) as Eu.
      destruct (playing_frame_spec rnd dt g) as (_ & _ & _ & Esc & Est & _).
      destruct (playing_frame_fields rnd dt g) as (_ & _ & _ & _ & _ & _ & _ & Eg & _).
      destruct (after_spawn_player rnd dt g) as (_ & Emsc & Emg & Emst & _).
      cbv zeta in *. rewrite <- Eu in Esc, Est, Eg.
      destruct H as (A & _ & C & D & _).
      assert (A' : ui_score u = whole_text (score (after_spawn rnd dt g)))
        by (rewrite Emsc; exact A).
      assert (D' : ui_status u = status_of (state (after_spawn rnd dt g)))
        by (rewrite Emst; exact D).
      assert (Hs' : state (after_spawn rnd dt g) = PLAYING) by (rewrite Emst; exact Hs).
      destruct (collect_crops_ui_spec (after_spawn rnd dt g) u Hs' A' D')
        as (S1 & S2 & S3 & _).
      cbv zeta in *.
      set (u1 := collect_crops_ui (after_spawn rnd dt g) u) in *.
      set (g' := update rnd dt g) in *.
      set (u2 := set_ui_time (ceil_text (timeLeft g')) u1).
      destruct (updatePowerUpUI_fields g' u2) as (F1 & F2 & F3 & F4).
      unfold shows. rewrite F1, F2, F3, F4. unfold u2. simpl.
      split; [rewrite S1, Esc; reflexivity|].
      split; [reflexivity|].
      split; [rewrite S3, C, Eg; reflexivity|].
      split; [rewrite S2, Est; reflexivity|].
      apply updatePowerUpUI_readout. reflexivity.
  - assert (Hn : state g <> PLAYING) by (intro Hs; rewrite Hs in Es; discriminate).
    rewrite (update_not_playing rnd dt g Hn).
    destruct (state g); try exact H. contradiction.
Qed.

Lemma shows_step e g u : shows g u -> shows (step e g) (step_ui e g u).
Proof.
  intro H. destruct e; simpl.
  - apply shows_start. intros _. exact H.
  - apply shows_reset.
  - apply shows_togglePause. exact H.
  - unfold onKeyDown.
    destruct (String.eqb key "p" || String.eqb key "P")%bool.
    + apply (shows_togglePause g u) in H. exact H.
    + exact H.
  - exact H.
  - apply shows_update. exact H.
  - unfold tick. fold (tick_dt ts g). apply shows_update. exact H.
Qed.

Lemma shows_run es : forall g u, shows g u -> shows (run es g) (run_ui es g u).
Proof.
  induction es as [|e es IH]; intros g u H; [exact H|].
  simpl. apply IH. apply shows_step. exact H.
Qed.

(** X20: the read-outs never go stale.  Every event takes read-outs that
    show the game (score, seconds left rounded up, goal, status line, active
    power-ups) to read-outs that show the game after the event; [reset], and
    [start] from MENU, GAME_OVER or WIN, make them show the game whatever
    they showed before; so from the first reset or start of a run on,
    whatever the page showed at first, the read-outs show the game after
    every event. *)
Theorem readouts_current (e : Event) (es : list Event) (now : Q) (g : Game) (u : UI) :
  (shows g u -> shows (step e g) (step_ui e g u)) /\
  (shows g u -> shows (run es g) (run_ui es g u)) /\
  shows (reset now g) (reset_ui now g u) /\
  (state g <> PLAYING -> state g <> PAUSED -> shows (start now g) (start_ui now g u)) /\
  shows (run (EReset now :: es) new_Game) (run_ui (EReset now :: es) new_Game (new_UI u)) /\
  shows (run (EStart now :: es) new_Game) (run_ui (EStart now :: es) new_Game (new_UI u)).
Proof.
  split; [apply shows_step|]. split; [apply shows_run|].
  split; [apply shows_reset|].
  split.
  { intros H1 H2. apply shows_start. intros [H | H]; contradiction. }
  split.
  - simpl. apply shows_run. apply shows_reset.
  - simpl. apply shows_run. apply shows_start. intros [H | H]; discriminate.
Qed.

Lemma readouts_current_witness :
  shows (start 0 (set_state WIN first_frame)) (start_ui 0 (set_state WIN first_frame)
                                                 (mkUI "" "" "" "" "" "")).
Proof.
  apply (proj1 (proj2 (proj2 (proj2
           (readouts_current ETogglePause [] 0 (set_state WIN first_frame)
              (mkUI "" "" "" "" "" "")))))); discriminate.
Defined.

(** * The score is a whole number *)

Lemma whole_plus a b : whole a -> whole b -> whole (a + b).
Proof.
  intros [x Hx] [y Hy]. exists (x + y)%Z. rewrite inject_Z_plus, Hx, Hy. reflexivity.
Qed.

Lemma whole_Qeq a b : a == b -> whole a -> whole b.
Proof. intros E [x Hx]. exists x. rewrite <- E. exact Hx. Qed.

Lemma whole_sum_values (cs : list Crop) :
  Forall crop_ok cs -> whole (sum_values cs).
Proof.
  induction cs as [|c cs IH]; intro H.
  - exists 0%Z. reflexivity.
  - inversion H as [|? ? (_ & Hv & _) Hr]; subst.
    unfold sum_values. simpl.
    apply (whole_Qeq ((0 + value c) + sum_values cs)); [symmetry; apply sum_values_acc|].
    apply whole_plus; [|apply IH; exact Hr].
    apply whole_plus; [exists 0%Z; reflexivity|].
    rewrite Hv. destruct (cropData_values (c_type c)) as [E | [E | E]]; rewrite E.
    + exists 1%Z. reflexivity.
    + exists 3%Z. reflexivity.
    + exists 5%Z. reflexivity.
Qed.

Lemma whole_update rnd dt g :
  Game_ok g -> whole (score g) -> whole (score (update rnd dt g)).
Proof.
  intros Hg Hw.
  destruct (State_eqb (state g) PLAYING) eqn:Es.
  - assert (Hs : state g = PLAYING) by (destruct (state g); try discriminate; reflexivity).
    destruct (Qle_bool (clamp (timeLeft g - dt) 0 GAME_LEN) 0) eqn:Et.
    + rewrite (update_timeout rnd dt g Hs Et). exact Hw.
    + rewrite (update_playing rnd dt g Hs Et).
      pose proof (playing_frame_score rnd dt g) as E. cbv zeta in E.
      apply (whole_Qeq _ _ (Qeq_sym _ _ E)).
      apply whole_plus; [exact Hw|].
      apply whole_sum_values. apply Forall_filter.
      destruct Hg as (_ & Hc & Hp & _).
      apply (after_spawn_entities rnd dt g Hc Hp).
  - rewrite update_not_playing; [exact Hw|].
    intro Hs. rewrite Hs in Es. discriminate.
Qed.

Lemma whole_step e g : Game_ok g -> whole (score g) -> whole (score (step e g)).
Proof.
  intros Hg Hw. destruct e; simpl.
  - unfold start. destruct (state g); try exact Hw; exists 0%Z; reflexivity.
  - exists 0%Z. reflexivity.
  - unfold togglePause. destruct (state g); exact Hw.
  - unfold onKeyDown.
    destruct (String.eqb key "p" || String.eqb key "P")%bool; [|exact Hw].
    unfold togglePause. destruct (state g); exact Hw.
  - exact Hw.
  - apply whole_update; assumption.
  - unfold tick. apply whole_update; [apply Game_ok_set_lastTime|]; assumption.
Qed.

Lemma reachable_whole g : reachable g -> whole (score g).
Proof.
  induction 1 as [|e g Hr IH]; [exists 0%Z; reflexivity|].
  apply whole_step; [apply reachable_ok; exact Hr | exact IH].
Qed.

(** X21: the score of a reachable game is a whole number, not negative, at
    most 14 while the game is in PLAYING or PAUSED and at least 15 in WIN;
    the score read-out is the decimal text of that number. *)
Theorem score_whole (g : Game) :
  reachable g ->
  exists z : Z,
    score g == inject_Z z /\ (0 <= z)%Z /\
    (state g = PLAYING \/ state g = PAUSED -> (z <= 14)%Z) /\
    (state g = WIN -> (15 <= z)%Z) /\
    whole_text (score g) = number_text z.
Proof.
  intro H. destruct (reachable_whole g H) as [z Hz].
  destruct (reachable_round g H) as (Hg & Hr).
  destruct Hg as (_ & _ & _ & _ & _ & Eg & _ & _ & S0 & Hp).
  destruct Hr as (_ & _ & _ & _ & _ & _ & _ & _ & Hw & _).
  rewrite Eg in *. unfold GOAL in *.
  exists z. split; [exact Hz|].
  split.
  { rewrite Hz in S0. change 0 with (inject_Z 0) in S0. rewrite <- Zle_Qle in S0. exact S0. }
  split.
  { intro Hs. destruct (Hp Hs) as (Hlt & _). rewrite Hz in Hlt.
    change 15 with (inject_Z 15) in Hlt. rewrite <- Zlt_Qlt in Hlt. lia. }
  split.
  { intro Hs. specialize (Hw Hs). rewrite Hz in Hw.
    change 15 with (inject_Z 15) in Hw. rewrite <- Zle_Qle in Hw. exact Hw. }
  unfold whole_text. rewrite (Qfloor_comp _ _ Hz), Qfloor_Z. reflexivity.
Qed.

Lemma score_whole_witness :
  exists z : Z, score scythe_picked_up == inject_Z z /\ (0 <= z)%Z.
Proof.
  destruct (score_whole scythe_picked_up scythe_picked_up_reachable)
    as (z & Hz & H0 & _).
  exists z. split; assumption.
Defined.

(** * What the read-outs say *)

Lemma powerUp_segment_nonempty e : powerUp_segment e <> ""%string.
Proof.
  unfold powerUp_segment. destruct (effect (a_data (snd e))); discriminate.
Qed.

Lemma concat_nonempty sep (s : string) (l : list string) :
  s <> ""%string -> String.concat sep (s :: l) <> ""%string.
Proof.
  intro H. destruct s as [|c s']; [contradiction|].
  simpl. destruct l; discriminate.
Qed.

Lemma Qceiling_pos (t : Q) : 0 < t -> (1 <= Qceiling t)%Z.
Proof.
  intro H. pose proof (Qle_ceiling t) as Hc.
  assert (Hz : inject_Z 0 < inject_Z (Qceiling t)) by (change (inject_Z 0) with 0; lra).
  rewrite <- Zlt_Qlt in Hz. lia.
Qed.

(** X22: what the read-outs of a reachable game say once written.  The
    power-up read-out is empty exactly when no power-up is active and has the
    class ["power-up-status active"] exactly when one is; every active
    power-up is listed with at least 1 second; while the game is in PLAYING
    or PAUSED the time read-out is between 1 and 60; it is 0 in GAME_OVER; in
    MENU it is 60 with score 0; the goal read-out is 15. *)
Theorem readout_contents (g : Game) (u : UI) :
  reachable g ->
  let u' := syncUI g u in
  (ui_powerUpStatus u' = ""%string <-> activePowerUps (player g) = []) /\
  (ui_powerUpClass u' = "power-up-status active"%string
   <-> activePowerUps (player g) <> []) /\
  Forall (fun e => (1 <= Qceiling (a_timeLeft (snd e)))%Z) (activePowerUps (player g)) /\
  (state g = PLAYING \/ state g = PAUSED ->
   (1 <= Qceiling (timeLeft g) <= 60)%Z /\
   ui_time u' = number_text (Qceiling (timeLeft g))) /\
  (state g = GAME_OVER -> ui_time u' = "0"%string) /\
  (state g = MENU -> ui_time u' = "60"%string /\ ui_score u' = "0"%string) /\
  ui_goal u' = "15"%string /\ ui_status u' = ui_status u.
Proof.
  intro H. cbv zeta.
  destruct (reachable_round g H) as (Hg & Hr).
  destruct Hg as ((_ & Hf & _) & _ & _ & _ & _ & Eg & T0 & T1 & _ & Hp).
  destruct Hr as (_ & _ & _ & _ & _ & _ & _ & Ho & _ & Hm).
  unfold syncUI. set (u0 := set_ui_goal _ _).
  destruct (updatePowerUpUI_fields g u0) as (F1 & F2 & F3 & F4).
  rewrite F1, F2, F3, F4. unfold u0. simpl.
  split.
  { unfold updatePowerUpUI. destruct (activePowerUps (player g)) as [|e m]; simpl.
    - split; reflexivity.
    - split; [|discriminate]. intro E. exfalso.
      pose proof (concat_nonempty " | " (powerUp_segment e) (map powerUp_segment m)
                    (powerUp_segment_nonempty e)) as Hne.
      apply Hne. exact E. }
  split.
  { unfold updatePowerUpUI. destruct (activePowerUps (player g)) as [|e m]; simpl.
    - split; [discriminate | intro E; contradiction].
    - split; [discriminate | reflexivity]. }
  split.
  { eapply Forall_impl; [|exact Hf]. intros e [Hpos _]. apply Qceiling_pos. exact Hpos. }
  split.
  { intro Hs. destruct (Hp Hs) as (_ & Hpos). split; [|reflexivity].
    split; [apply Qceiling_pos; exact Hpos|].
    change 60%Z with (Qceiling 60). apply Qceiling_resp_le. exact T1. }
  split.
  { intro Hs. destruct (Ho Hs) as (E0 & _).
    unfold ceil_text. rewrite (Qceiling_comp _ _ E0). reflexivity. }
  split.
  { intro Hs. destruct (Hm Hs) as (E1 & E2 & _). rewrite E1, E2. split; reflexivity. }
  split; [rewrite Eg; reflexivity | reflexivity].
Qed.

Lemma readout_contents_witness :
  (1 <= Qceiling (timeLeft first_frame) <= 60)%Z /\
  ui_time (syncUI first_frame (mkUI "" "" "" "" "" ""))
  = number_text (Qceiling (timeLeft first_frame)).
Proof.
  apply (proj1 (proj2 (proj2 (proj2
           (readout_contents first_frame (mkUI "" "" "" "" "" "") first_frame_reachable))))).
  left. vm_compute. reflexivity.
Defined.

(** * The scythe and the box *)

(** X23: with the sizes the game gives them (player 34 by 34, crop 20 by
    26), a crop whose box overlaps the player's is within scythe range of
    it: the scythe collects every crop that would be collected without it. *)
Theorem scythe_reaches_touching (p : Farmer) (c : Crop) :
  w p = 34 -> h p = 34 -> w c = 20 -> h c = 26 ->
  aabb p c = true -> in_scythe_range p c = true /\ collects p c = true.
Proof.
  intros Wp Hp Wc Hc Ha.
  assert (Hin : in_scythe_range p c = true).
  { apply aabb_iff in Ha. rewrite Wp, Hp, Wc, Hc in Ha.
    destruct Ha as (A1 & A2 & A3 & A4).
    unfold in_scythe_range, scytheRange. rewrite Wp, Hp, Wc, Hc.
    apply Qle_bool_iff.
    set (dx := x p + 34 / 2 - (x c + 20 / 2)).
    set (dy := y p + 34 / 2 - (y c + 26 / 2)).
    assert (Ex : dx == x p - x c + 7) by (unfold dx; field).
    assert (Ey : dy == y p - y c + 4) by (unfold dy; field).
    assert (X1 : -27 < dx) by lra.
    assert (X2 : dx < 27) by lra.
    assert (Y1 : -30 < dy) by lra.
    assert (Y2 : dy < 30) by lra.
    clearbody dx dy.
    assert (Sx : dx * dx <= 729) by nra.
    assert (Sy : dy * dy <= 900) by nra.
    lra. }
  split; [exact Hin|].
  unfold collects. destruct (hasScythe p); assumption.
Qed.

Lemma scythe_reaches_touching_witness :
  in_scythe_range (new_Farmer 433 460) (new_Crop 450 450 "wheat" 0) = true.
Proof.
  apply (scythe_reaches_touching (new_Farmer 433 460) (new_Crop 450 450 "wheat" 0));
    reflexivity.
Defined.
